(** * Wiki.js Linker: the HTML structure analyzer and content editor

    A shallow embedding of the text engine of [popup.js] (and of the copy
    of it in the reset functions): [escapeHtml], [HTML_TEMPLATES],
    [WikiStructureAnalyzer] and [WikiContentManager].

    Strings are lists of 8-bit characters, read as the code units 0 to
    255.  The white space of [\s] and of [trim] is that of JavaScript among
    these codes: 9 to 13, 32 and the no-break space 160.  The case mappings
    are those of JavaScript on 7-bit text; characters above 127 are treated
    as caseless symbols that are not word characters. *)

From Stdlib Require Import String.
From Stdlib Require Import List Ascii Bool Arith NArith Lia.
From Stdlib Require DecimalString DecimalN.
Import ListNotations.

Local Open Scope list_scope.

(** ** Strings *)

Definition str := list ascii.

Definition dquote : ascii := "034"%char.
Definition backtick : ascii := "096"%char.

(** String literals of the source.  A literal of the model is written with
    a backtick wherever the JavaScript literal has a double quote (none of
    the literals below has a backtick of its own). *)
Definition lit (s : String.string) : str :=
  map (fun c => if Ascii.eqb c backtick then dquote else c)
      (String.list_ascii_of_string s).
Arguments lit s%_string.

Definition str_eqb (a b : str) : bool :=
  if list_eq_dec ascii_dec a b then true else false.


(** [startsWith]: [p] is a prefix of [s]. *)
Fixpoint startsWith (p s : str) : bool :=
  match p, s with
  | [], _ => true
  | _ :: _, [] => false
  | a :: p', b :: s' => Ascii.eqb a b && startsWith p' s'
  end.

(** [s.indexOf(needle)], [None] standing for -1. *)
Fixpoint indexOf (needle s : str) : option nat :=
  if startsWith needle s then Some 0
  else match s with
       | [] => None
       | _ :: s' => option_map S (indexOf needle s')
       end.

(** [s.indexOf(needle, from)]. *)
Definition indexOfFrom (needle s : str) (from : nat) : option nat :=
  option_map (fun i => from + i) (indexOf needle (skipn from s)).

(** [s.lastIndexOf(needle)]. *)
Fixpoint lastIndexOf (needle s : str) : option nat :=
  match s with
  | [] => if startsWith needle [] then Some 0 else None
  | _ :: s' =>
      match lastIndexOf needle s' with
      | Some i => Some (S i)
      | None => if startsWith needle s then Some 0 else None
      end
  end.

Definition includes (needle s : str) : bool :=
  match indexOf needle s with Some _ => true | None => false end.

Definition endsWith (suffix s : str) : bool :=
  startsWith (rev suffix) (rev s).

(** [s.substring(a, b)]: the arguments are swapped when [a > b]. *)
Definition substring (s : str) (a b : nat) : str :=
  firstn (Nat.max a b - Nat.min a b) (skipn (Nat.min a b) s).

(** [s.substring(a)] and [s.slice(a)]. *)
Definition substringFrom (s : str) (a : nat) : str := skipn a s.

(** [s.slice(0, b)] for a non-negative [b]. *)
Definition slice0 (s : str) (b : nat) : str := firstn b s.

(** Characters. *)
Definition code (c : ascii) : nat := nat_of_ascii c.

Definition is_lower (c : ascii) : bool := (97 <=? code c) && (code c <=? 122).
Definition is_upper (c : ascii) : bool := (65 <=? code c) && (code c <=? 90).
Definition is_digit (c : ascii) : bool := (48 <=? code c) && (code c <=? 57).

(** [\w], [\d], [\s] and [.]; of the codes up to 255, [\s] takes 9 to 13,
    32 and 160. *)
Definition is_word (c : ascii) : bool :=
  is_lower c || is_upper c || is_digit c || Ascii.eqb c "_"%char.
Definition is_space (c : ascii) : bool :=
  ((9 <=? code c) && (code c <=? 13)) || Ascii.eqb c " "%char
  || Ascii.eqb c "160"%char.
Definition is_dot (c : ascii) : bool :=
  negb (Ascii.eqb c "010"%char || Ascii.eqb c "013"%char).
Definition is_not (x : ascii) (c : ascii) : bool := negb (Ascii.eqb c x).

Definition upper_char (c : ascii) : ascii :=
  if is_lower c then ascii_of_nat (code c - 32) else c.
Definition lower_char (c : ascii) : ascii :=
  if is_upper c then ascii_of_nat (code c + 32) else c.

Definition toUpperCase (s : str) : str := map upper_char s.
Definition toLowerCase (s : str) : str := map lower_char s.

(** [s.trim()] *)
Fixpoint trimStart (s : str) : str :=
  match s with
  | c :: s' => if is_space c then trimStart s' else s
  | [] => []
  end.
Definition trim (s : str) : str := rev (trimStart (rev (trimStart s))).

(** [s.replace(/c/g, by)] for a single character [c]. *)
Definition replaceAll (c : ascii) (by_ : str) (s : str) : str :=
  flat_map (fun x => if Ascii.eqb x c then by_ else [x]) s.

(** [escapeHtml] (popup.js, lines 49-55): four passes, [&] first. *)
Definition escapeHtml (s : str) : str :=
  replaceAll dquote (lit "&quot;")
    (replaceAll ">"%char (lit "&gt;")
      (replaceAll "<"%char (lit "&lt;")
        (replaceAll "&"%char (lit "&amp;") s))).

(** Numbers are rendered in decimal by template literals, and read back by
    [parseInt] from a run of digits. *)
Definition numToString (n : N) : str :=
  String.list_ascii_of_string (DecimalString.NilEmpty.string_of_uint (N.to_uint n)).

(** [parseInt(s)] for a string the regular expression has matched against
    [\d+]; [None] stands for [NaN]. *)
Definition parseInt (s : str) : option N :=
  option_map N.of_uint (DecimalString.NilEmpty.uint_of_string (String.string_of_list_ascii s)).


(** ** Regular expressions

    The patterns of the analyzer are sequences of literal characters,
    repeated character classes (greedy or lazy), capturing groups and one
    optional group.  [rmatch] is the backtracking matcher of JavaScript for
    this fragment, in continuation-passing style: the continuation receives
    the rest of the input and the captures, and a failure of the continuation
    makes the matcher try the next alternative. *)

Inductive regex : Type :=
| RChars (l : str)                                   (* literal characters *)
| RClass (greedy : bool) (min : nat) (cls : ascii -> bool)  (* cls{min,} *)
| RSeq (r1 r2 : regex)
| RGroup (i : nat) (r : regex)                       (* capturing group i *)
| ROpt (r : regex).                                  (* (?: r )? *)

Definition captures := list (nat * str).

Fixpoint capture (i : nat) (caps : captures) : option str :=
  match caps with
  | [] => None
  | (j, v) :: caps' => if Nat.eqb i j then Some v else capture i caps'
  end.

(** Characters are compared through their upper case under the [i] flag. *)
Definition char_eqb (ci : bool) (a b : ascii) : bool :=
  if ci then Ascii.eqb (upper_char a) (upper_char b) else Ascii.eqb a b.

Fixpoint strip (ci : bool) (l s : str) : option str :=
  match l, s with
  | [], _ => Some s
  | _ :: _, [] => None
  | a :: l', b :: s' => if char_eqb ci a b then strip ci l' s' else None
  end.

Section Matcher.
Variable A : Type.
Variable ci : bool.

Definition cont := str -> captures -> option A.

(** [cls{min,}], greedy: as many characters as possible first. *)
Fixpoint rep_greedy (cls : ascii -> bool) (min : nat) (s : str)
    (caps : captures) (k : cont) : option A :=
  let stop := match min with 0 => k s caps | S _ => None end in
  match s with
  | c :: s' =>
      if cls c then
        match rep_greedy cls (Nat.pred min) s' caps k with
        | Some x => Some x
        | None => stop
        end
      else stop
  | [] => stop
  end.

(** [cls{min,}?], lazy: as few characters as possible first. *)
Fixpoint rep_lazy (cls : ascii -> bool) (min : nat) (s : str)
    (caps : captures) (k : cont) : option A :=
  let more :=
    match s with
    | c :: s' => if cls c then rep_lazy cls (Nat.pred min) s' caps k else None
    | [] => None
    end in
  match min with
  | 0 => match k s caps with Some x => Some x | None => more end
  | S _ => more
  end.

Fixpoint rmatch (r : regex) (s : str) (caps : captures) (k : cont)
    : option A :=
  match r with
  | RChars l =>
      match strip ci l s with Some s' => k s' caps | None => None end
  | RClass true min cls => rep_greedy cls min s caps k
  | RClass false min cls => rep_lazy cls min s caps k
  | RSeq r1 r2 => rmatch r1 s caps (fun s1 c1 => rmatch r2 s1 c1 k)
  | RGroup i r1 =>
      rmatch r1 s caps
        (fun s1 c1 => k s1 ((i, firstn (length s - length s1) s) :: c1))
  | ROpt r1 =>
      match rmatch r1 s caps k with
      | Some x => Some x
      | None => k s caps
      end
  end.
End Matcher.

Arguments rep_greedy {A} cls min s caps k.
Arguments rep_lazy {A} cls min s caps k.
Arguments rmatch {A} ci r s caps k.

(** A match: the captures and the number of characters matched. *)
Record rx_match : Type := mkMatch {
  m_index : nat;
  m_length : nat;
  m_caps : captures
}.

(** The pattern matched at the head of [s]. *)
Definition match_here (ci : bool) (r : regex) (s : str)
    : option (nat * captures) :=
  rmatch ci r s []
    (fun rest caps => Some (length s - length rest, caps)).

(** [re.exec(s)] for a pattern without the [g] flag: the leftmost match.
    [pos] is the index of the head of [s] in the whole string. *)
Fixpoint exec_from (ci : bool) (r : regex) (pos : nat) (s : str)
    : option rx_match :=
  match match_here ci r s with
  | Some (n, caps) => Some (mkMatch pos n caps)
  | None =>
      match s with
      | [] => None
      | _ :: s' => exec_from ci r (S pos) s'
      end
  end.

Definition exec (ci : bool) (r : regex) (s : str) : option rx_match :=
  exec_from ci r 0 s.

(** The loop [while ((match = re.exec(s)) !== null)] of a pattern with the
    [g] flag, and [s.matchAll(re)]: every match from left to right, each
    search starting where the previous match ended ([lastIndex]).  [skip]
    counts the characters of the previous match still to pass over; every
    pattern below matches at least one character. *)
Fixpoint exec_all (r : regex) (skip pos : nat) (s : str) : list rx_match :=
  match s with
  | [] => []
  | _ :: s' =>
      match skip with
      | S n => exec_all r n (S pos) s'
      | 0 =>
          match match_here false r s with
          | Some (n, caps) =>
              mkMatch pos n caps :: exec_all r (Nat.pred n) (S pos) s'
          | None => exec_all r 0 (S pos) s'
          end
      end
  end.

Definition matchAll (r : regex) (s : str) : list rx_match := exec_all r 0 0 s.

(** [match[i]] of a group that took part in the match. *)
Definition group (i : nat) (m : rx_match) : str :=
  match capture i (m_caps m) with Some v => v | None => [] end.

Declare Scope regex_scope.
Delimit Scope regex_scope with regex.
Bind Scope regex_scope with regex.
Notation "r1 +++ r2" := (RSeq r1 r2)
  (at level 61, right associativity) : regex_scope.

(** [cls+], [cls*] and [cls+?] *)
Definition plus (cls : ascii -> bool) : regex := RClass true 1 cls.
Definition star (cls : ascii -> bool) : regex := RClass true 0 cls.
Definition plus_lazy (cls : ascii -> bool) : regex := RClass false 1 cls.

(** [new RegExp(src)] reads [src] as a pattern: a character of [src] that
    is regular-expression syntax is not a literal. *)
Definition is_syntax (c : ascii) : bool :=
  existsb (Ascii.eqb c) (lit "\^$.*+?()[]{}|").

(** ** HTML_TEMPLATES (popup.js, lines 172-234) *)

Inductive Layout : Type := Cards | Compact | Large.

Definition Layout_eqb (a b : Layout) : bool :=
  match a, b with
  | Cards, Cards | Compact, Compact | Large, Large => true
  | _, _ => false
  end.

Record Category : Type := mkCategory {
  key : str;
  name : str;
  description : str;
  layout : Layout;
  accent : str;
  containerKey : str;
  column : N
}.

Record Container : Type := mkContainer {
  c_key : str;
  c_name : str;
  c_columns : option N
}.

Record TabInfo : Type := mkTabInfo {
  url : str;
  title : str;
  host : str;
  iconUrl : str
}.

(** [encodeURIComponent]: the unreserved characters stand for themselves,
    every other character for the percent-escapes of its UTF-8 bytes. *)
Definition is_unreserved (c : ascii) : bool :=
  is_lower c || is_upper c || is_digit c || existsb (Ascii.eqb c) (lit "-_.!~*'()").

Definition hex_digit (n : nat) : ascii :=
  nth n (lit "0123456789ABCDEF") "0"%char.

Definition percent (b : nat) : str :=
  ["%"%char; hex_digit (b / 16); hex_digit (b mod 16)].

Definition encodeURIComponent (s : str) : str :=
  flat_map (fun c =>
    if is_unreserved c then [c]
    else if code c <? 128 then percent (code c)
    else percent (192 + code c / 64) ++ percent (128 + code c mod 64)) s.

Module HTML_TEMPLATES.

Definition container (containerKey : str) (columns : N) : str :=
  lit "<div class=`layout-container layout-" ++ numToString columns
  ++ lit "col` id=`" ++ containerKey ++ lit "-container`>
  <!-- Container: " ++ containerKey ++ lit " -->
  <!-- CONTAINER_" ++ toUpperCase containerKey ++ lit "_CONTENT_START -->
  <!-- CONTAINER_" ++ toUpperCase containerKey ++ lit "_CONTENT_END -->
</div>

".

Definition layoutClass (layout : Layout) : str :=
  match layout with
  | Compact => lit "section-compact"
  | Large => lit "section-large"
  | Cards => lit "section-card"
  end.

Definition contentClass (layout : Layout) : str :=
  match layout with
  | Compact => lit "compact-links"
  | Large => lit "large-links"
  | Cards => lit "links"
  end.

Definition category (category : Category) (layout : Layout) : str :=
  lit "  <section class=`" ++ layoutClass layout ++ lit " accent-"
  ++ accent category ++ lit "` id=`" ++ key category ++ lit "-section`>
    <header class=`" ++ layoutClass layout ++ lit "__header`>
      <div class=`" ++ layoutClass layout ++ lit "__title`>"
  ++ escapeHtml (name category) ++ lit "</div>
      <div class=`" ++ layoutClass layout ++ lit "__meta`>"
  ++ escapeHtml (description category) ++ lit "</div>
    </header>
    <div class=`" ++ contentClass layout ++ lit "`>
      <!-- " ++ toUpperCase (key category) ++ lit "_LINKS_END -->
    </div>
  </section>".

Definition link (tabInfo : TabInfo) (layout : Layout) : str :=
  match layout with
  | Compact =>
      lit "      <a class=`compact-link` href=`" ++ url tabInfo
      ++ lit "` target=`_blank` rel=`noopener`>
        <img src=`" ++ iconUrl tabInfo ++ lit "` alt=`` class=`compact-icon`>
        <span class=`compact-title`>" ++ escapeHtml (title tabInfo)
      ++ lit "</span>
        <span class=`compact-url`>" ++ escapeHtml (host tabInfo)
      ++ lit "</span>
      </a>"
  | Large =>
      lit "      <a class=`large-link` href=`" ++ url tabInfo
      ++ lit "` target=`_blank` rel=`noopener`>
        <div class=`large-preview`>
          <img src=`https://mini.s-shot.ru/1024x768/JPEG/1024/Z100/?"
      ++ encodeURIComponent (url tabInfo)
      ++ lit "` alt=`Preview` class=`large-screenshot` onerror=`this.style.display='none';`>
          <img src=`" ++ iconUrl tabInfo ++ lit "` alt=`` class=`large-icon`>
        </div>
        <div class=`large-content`>
          <div class=`large-title`>" ++ escapeHtml (title tabInfo)
      ++ lit "</div>
          <div class=`large-url`>" ++ escapeHtml (host tabInfo)
      ++ lit "</div>
        </div>
      </a>"
  | Cards =>
      lit "      <a class=`linkcard` href=`" ++ url tabInfo
      ++ lit "` target=`_blank` rel=`noopener`>
        <img src=`" ++ iconUrl tabInfo ++ lit "` alt=``>
        <div>
          <div class=`title`>" ++ escapeHtml (title tabInfo) ++ lit "</div>
          <div class=`url`>" ++ escapeHtml (host tabInfo) ++ lit "</div>
        </div>
      </a>"
  end.

End HTML_TEMPLATES.

(** ** WikiStructureAnalyzer (popup.js, lines 237-319) *)

Record WikiStructureAnalyzer : Type := mkAnalyzer { a_content : str }.

Module Analyzer.
Local Open Scope regex_scope.

(** The pattern of line 244 (with the [g] flag), a backtick standing for
    the double quote:
    [<div class=`layout-container layout-(\d+)col` id=`([^`]+)-container`>] *)
Definition containerRegex : regex :=
  RChars (lit "<div class=`layout-container layout-") +++
  RGroup 1 (plus is_digit) +++
  RChars (lit "col` id=`") +++
  RGroup 2 (plus (is_not dquote)) +++
  RChars (lit "-container`>").

(** The pattern of line 251, with the [i] flag, for a [key] without
    regular-expression syntax:
    [<!-- Container: ${key}(?:\s*-\s*(.+?))? -->] *)
Definition commentPattern (key : str) : regex :=
  RChars (lit "<!-- Container: " ++ key) +++
  ROpt (star is_space +++ RChars (lit "-") +++ star is_space +++
        RGroup 1 (plus_lazy is_dot)) +++
  RChars (lit " -->").

(** [key.charAt(0).toUpperCase() + key.slice(1)] *)
Definition capitalize (key : str) : str :=
  toUpperCase (firstn 1 key) ++ skipn 1 key.

Definition containerOfMatch (content : str) (m : rx_match)
    : option Container :=
  let columns := parseInt (group 1 m) in
  let key := group 2 m in
  if existsb is_syntax key then None
  else
    let name :=
      match exec true (commentPattern key) content with
      | Some commentMatch =>
          match capture 1 (m_caps commentMatch) with
          | Some ((_ :: _) as n) => n
          | _ => capitalize key
          end
      | None => capitalize key
      end in
    Some (mkContainer key name columns).

Fixpoint sequence {A : Type} (l : list (option A)) : option (list A) :=
  match l with
  | [] => Some []
  | Some a :: l' => option_map (cons a) (sequence l')
  | None :: _ => None
  end.

(** [extractContainers()].  The result is [None] when a key found in the
    document holds regular-expression syntax: the pattern built from such
    a key at line 251 is outside the fragment modelled here. *)
Definition extractContainers (this : WikiStructureAnalyzer)
    : option (list Container) :=
  sequence (map (containerOfMatch (a_content this))
                (matchAll containerRegex (a_content this))).

(** The pattern of line 263 (with the [g] flag):
    [<section class=`(section-\w+)\s+accent-(\w+)` id=`([^`]+)-section`>] *)
Definition sectionRegex : regex :=
  RChars (lit "<section class=`") +++
  RGroup 1 (RChars (lit "section-") +++ plus is_word) +++
  plus is_space +++
  RChars (lit "accent-") +++
  RGroup 2 (plus is_word) +++
  RChars (lit "` id=`") +++
  RGroup 3 (plus (is_not dquote)) +++
  RChars (lit "-section`>").

(** The patterns of lines 277 and 278, built from [layoutClass], which
    is [section-] and word characters, all of them literal:
    [<div class=`${layoutClass}__title`>([^<]+)</div>], and the same
    with [__meta] and a starred class. *)
Definition titleRegex (layoutClass : str) : regex :=
  RChars (lit "<div class=`" ++ layoutClass ++ lit "__title`>") +++
  RGroup 1 (plus (is_not "<"%char)) +++
  RChars (lit "</div>").

Definition metaRegex (layoutClass : str) : regex :=
  RChars (lit "<div class=`" ++ layoutClass ++ lit "__meta`>") +++
  RGroup 1 (star (is_not "<"%char)) +++
  RChars (lit "</div>").

(** The pattern of line 304: [<!-- CONTAINER_([^_]+)_CONTENT_START -->] *)
Definition containerStartRegex : regex :=
  RChars (lit "<!-- CONTAINER_") +++
  RGroup 1 (plus (is_not "_"%char)) +++
  RChars (lit "_CONTENT_START -->").

Definition sectionId (categoryKey : str) : str :=
  lit "id=`" ++ categoryKey ++ lit "-section`".

Definition containerId (containerKey : str) : str :=
  lit "id=`" ++ containerKey ++ lit "-container`".

(** [findContainerForCategory(categoryKey)]; [None] is [null]. *)
Definition findContainerForCategory (this : WikiStructureAnalyzer)
    (categoryKey : str) : option str :=
  match indexOf (sectionId categoryKey) (a_content this) with
  | None => None
  | Some sectionPos =>
      let beforeSection := substring (a_content this) 0 sectionPos in
      let containerMatches := matchAll containerStartRegex beforeSection in
      match rev containerMatches with
      | [] => None
      | lastMatch :: _ => Some (toLowerCase (group 1 lastMatch))
      end
  end.

Definition layoutOfClass (layoutClass : str) : Layout :=
  if includes (lit "compact") layoutClass then Compact
  else if includes (lit "large") layoutClass then Large
  else Cards.

Definition categoryOfMatch (this : WikiStructureAnalyzer) (m : rx_match)
    : Category :=
  let layoutClass := group 1 m in
  let accent := group 2 m in
  let key := group 3 m in
  let layout := layoutOfClass layoutClass in
  let sectionContent :=
    match indexOf (sectionId key) (a_content this) with
    | Some sectionStart =>
        substring (a_content this) sectionStart (sectionStart + 500)
    | None => substring (a_content this) 0 499
    end in
  let titleMatch := exec false (titleRegex layoutClass) sectionContent in
  let metaMatch := exec false (metaRegex layoutClass) sectionContent in
  let containerKey := findContainerForCategory this key in
  mkCategory key
    (match titleMatch with Some t => group 1 t | None => key end)
    (match metaMatch with Some t => group 1 t | None => [] end)
    layout accent
    (match containerKey with Some k => k | None => lit "unknown" end)
    0.

(** [extractCategories()] *)
Definition extractCategories (this : WikiStructureAnalyzer)
    : list Category :=
  map (categoryOfMatch this) (matchAll sectionRegex (a_content this)).

Definition categoryExists (this : WikiStructureAnalyzer)
    (categoryKey : str) : bool :=
  includes (sectionId categoryKey) (a_content this).

Definition containerExists (this : WikiStructureAnalyzer)
    (containerKey : str) : bool :=
  includes (containerId containerKey) (a_content this).

End Analyzer.

(** ** WikiContentManager (popup.js, lines 322-441)

    The methods mutate [this.content] and [this.analyzer] and may throw: they
    are computations in a state and exception monad over the manager.  The
    state paired with [Thrown] is the manager as the exception leaves it. *)

Record WikiContentManager : Type := mkManager {
  content : str;
  analyzer : WikiStructureAnalyzer
}.

(** [new WikiContentManager(content)] *)
Definition newManager (content : str) : WikiContentManager :=
  mkManager content (mkAnalyzer content).

Inductive Error : Type :=
| ContainerAlreadyExists (containerKey : str)
| CategoryAlreadyExists (categoryKey : str)
| ContainerDoesNotExist (containerKey : str)
| ContainerMarkerNotFound (containerKey : str)
| CategoryDoesNotExist (categoryKey : str)
| CategoryInformationNotFound (categoryKey : str)
| InsertMarkerNotFound (categoryKey : str).

(** The message of the [Error] thrown. *)
Definition message (e : Error) : str :=
  match e with
  | ContainerAlreadyExists k => lit "Container '" ++ k ++ lit "' already exists"
  | CategoryAlreadyExists k => lit "Category '" ++ k ++ lit "' already exists"
  | ContainerDoesNotExist k =>
      lit "Container '" ++ k ++ lit "' does not exist. Create the container first."
  | ContainerMarkerNotFound k =>
      lit "Container content marker for '" ++ k ++ lit "' not found"
  | CategoryDoesNotExist k => lit "Category '" ++ k ++ lit "' does not exist"
  | CategoryInformationNotFound k =>
      lit "Category information for '" ++ k ++ lit "' not found"
  | InsertMarkerNotFound k =>
      lit "Insert marker for category '" ++ k ++ lit "' not found"
  end.

Inductive outcome (A : Type) : Type :=
| Returned (a : A)
| Thrown (e : Error).
Arguments Returned {A} a.
Arguments Thrown {A} e.

Definition M (A : Type) : Type :=
  WikiContentManager -> outcome A * WikiContentManager.

Definition ret {A : Type} (a : A) : M A := fun this => (Returned a, this).

Definition bind {A B : Type} (m : M A) (f : A -> M B) : M B :=
  fun this =>
    match m this with
    | (Returned a, this') => f a this'
    | (Thrown e, this') => (Thrown e, this')
    end.

Definition throw {A : Type} (e : Error) : M A := fun this => (Thrown e, this).
Definition getThis : M WikiContentManager := fun this => (Returned this, this).
Definition setContent (c : str) : M unit :=
  fun this => (Returned tt, mkManager c (analyzer this)).
Definition setAnalyzer (a : WikiStructureAnalyzer) : M unit :=
  fun this => (Returned tt, mkManager (content this) a).

Declare Scope monad_scope.
Delimit Scope monad_scope with monad.
Notation "x <- m ;; k" := (bind m (fun x => k))
  (at level 62, m at next level, right associativity) : monad_scope.
Notation "m ;; k" := (bind m (fun _ => k))
  (at level 62, right associativity) : monad_scope.

Definition when (b : bool) (m : M unit) : M unit := if b then m else ret tt.

(** [list.forEach(f)] *)
Fixpoint forEach {A : Type} (l : list A) (f : A -> M unit) : M unit :=
  match l with
  | [] => ret tt
  | a :: l' => bind (f a) (fun _ => forEach l' f)
  end.

Module Manager.
Local Open Scope monad_scope.

Definition newline : str := ["010"%char].

Definition contentEndMarker (containerKey : str) : str :=
  lit "<!-- CONTAINER_" ++ toUpperCase containerKey ++ lit "_CONTENT_END -->".

Definition startMarker (containerKey : str) : str :=
  lit "<!-- CONTAINER_" ++ toUpperCase containerKey
  ++ lit "_CONTENT_START -->".

Definition linksEndMarker (categoryKey : str) : str :=
  lit "<!-- " ++ toUpperCase categoryKey ++ lit "_LINKS_END -->".

(** [addContainer(containerKey, name, columns)], lines 328-338 *)
Definition addContainer (containerKey name : str) (columns : N) : M unit :=
  this <- getThis ;;
  when (Analyzer.containerExists (analyzer this) containerKey)
       (throw (ContainerAlreadyExists containerKey)) ;;
  let containerHTML := HTML_TEMPLATES.container containerKey columns in
  setContent
    (content this
     ++ (if negb (str_eqb (content this) [])
            && negb (endsWith newline (content this))
         then newline ++ newline else newline)
     ++ containerHTML) ;;
  this <- getThis ;;
  setAnalyzer (mkAnalyzer (content this)).

(** [addCategory(category)], lines 340-371 *)
Definition addCategory (category : Category) : M unit :=
  this <- getThis ;;
  when (Analyzer.categoryExists (analyzer this) (key category))
       (throw (CategoryAlreadyExists (key category))) ;;
  when (negb (Analyzer.containerExists (analyzer this)
                (containerKey category)))
       (throw (ContainerDoesNotExist (containerKey category))) ;;
  let categoryHTML := HTML_TEMPLATES.category category (layout category) in
  match indexOf (contentEndMarker (containerKey category)) (content this)
  with
  | None => throw (ContainerMarkerNotFound (containerKey category))
  | Some markerPos =>
      let beforeMarker := substring (content this) 0 markerPos in
      let afterMarker := substringFrom (content this) markerPos in
      let hasContent :=
        match indexOf (startMarker (containerKey category)) (content this)
        with
        | None => false
        | Some startPos =>
            0 <? length (trim (substring (content this)
                      (startPos + length (startMarker (containerKey category)))
                      markerPos))
        end in
      let insertion :=
        (if hasContent then lit "
  " else []) ++ categoryHTML ++ lit "
  " in
      setContent (beforeMarker ++ insertion ++ afterMarker) ;;
      this <- getThis ;;
      setAnalyzer (mkAnalyzer (content this))
  end.

(** [categories.find(cat => cat.key === categoryKey)] *)
Definition findCategory (categories : list Category) (categoryKey : str)
    : option Category :=
  find (fun cat => str_eqb (key cat) categoryKey) categories.

(** [addLinkToCategory(tabInfo, categoryKey)], lines 373-396 *)
Definition addLinkToCategory (tabInfo : TabInfo) (categoryKey : str)
    : M unit :=
  this <- getThis ;;
  when (negb (Analyzer.categoryExists (analyzer this) categoryKey))
       (throw (CategoryDoesNotExist categoryKey)) ;;
  let categories := Analyzer.extractCategories (analyzer this) in
  match findCategory categories categoryKey with
  | None => throw (CategoryInformationNotFound categoryKey)
  | Some category =>
      let linkHTML := HTML_TEMPLATES.link tabInfo (layout category) in
      let marker := linksEndMarker categoryKey in
      match indexOf marker (content this) with
      | None => throw (InsertMarkerNotFound categoryKey)
      | Some markerPos =>
          setContent (slice0 (content this) markerPos ++ linkHTML
                      ++ lit "
      " ++ substringFrom (content this) markerPos)
      end
  end.

Definition linkContainerOpen (layout : Layout) : str :=
  match layout with
  | Compact => lit "<div class=`compact-links`>"
  | Large => lit "<div class=`large-links`>"
  | Cards => lit "<div class=`links`>"
  end.

(** The body of the [forEach] of [removeAllLinks], lines 405-432; a
    [return] of the callback goes on to the next category. *)
Definition removeLinksOf (category : Category) : M unit :=
  this <- getThis ;;
  let marker := linksEndMarker (key category) in
  match indexOf marker (content this) with
  | None => ret tt
  | Some markerPos =>
      let beforeMarker := substring (content this) 0 markerPos in
      match lastIndexOf (linkContainerOpen (layout category)) beforeMarker
      with
      | None => ret tt
      | Some linkContainerStart =>
          let linkContainerStartEnd :=
            match indexOfFrom [">"%char] (content this) linkContainerStart
            with
            | Some i => i + 1
            | None => 0
            end in
          let beforeLinks := substring (content this) 0 linkContainerStartEnd in
          let afterLinks := substringFrom (content this) markerPos in
          setContent (beforeLinks ++ lit "
      " ++ afterLinks)
      end
  end.

(** [removeAllLinks()], lines 402-436 *)
Definition removeAllLinks : M unit :=
  this <- getThis ;;
  let categories := Analyzer.extractCategories (analyzer this) in
  forEach categories removeLinksOf ;;
  this <- getThis ;;
  setAnalyzer (mkAnalyzer (content this)).

Definition getContent (this : WikiContentManager) : str := content this.

End Manager.


(** ** Definitions used by the statements *)

(** The separator [addContainer] puts before the new block. *)
Definition separator (content : str) : str :=
  if negb (str_eqb content []) && negb (endsWith Manager.newline content)
  then Manager.newline ++ Manager.newline else Manager.newline.

(** The three operations that can fail, as calls. *)
Inductive operation : Type :=
| AddContainer (containerKey name : str) (columns : N)
| AddCategory (category : Category)
| AddLinkToCategory (tabInfo : TabInfo) (categoryKey : str).

Definition perform (op : operation) : M unit :=
  match op with
  | AddContainer k n c => Manager.addContainer k n c
  | AddCategory c => Manager.addCategory c
  | AddLinkToCategory t k => Manager.addLinkToCategory t k
  end.

(** What escaping does to one character. *)
Definition escape_char (c : ascii) : str :=
  if Ascii.eqb c "&"%char then lit "&amp;"
  else if Ascii.eqb c "<"%char then lit "&lt;"
  else if Ascii.eqb c ">"%char then lit "&gt;"
  else if Ascii.eqb c dquote then lit "&quot;"
  else [c].

Definition escaped (s : str) : str := flat_map escape_char s.

Definition is_html_special (c : ascii) : bool :=
  Ascii.eqb c "<"%char || Ascii.eqb c ">"%char || Ascii.eqb c dquote.

(** ** Sample data *)

Definition sampleCategory : Category :=
  mkCategory (lit "c1") (lit "Cat") (lit "d") Cards (lit "blue") (lit "p") 0.

(** The document of [generateDemoTemplate()] (demo-template.js, lines 53-120). *)
Definition demoTemplate : str := lit "<div class=`layout-container layout-3col` id=`development-container`>
  <!-- Container: development - Development & Tools -->
  <!-- CONTAINER_DEVELOPMENT_CONTENT_START -->
  <section class=`section-card accent-blue` id=`webdev-section`>
    <header class=`section-card__header`>
      <div class=`section-card__title`>Web Development</div>
      <div class=`section-card__meta`>Tools and resources for web development</div>
    </header>
    <div class=`links`>
      <a class=`linkcard` href=`https://www.youtube.com/` target=`_blank` rel=`noopener`>
        <img src=`https://www.google.com/s2/favicons?domain=youtube.com&sz=32` alt=``>
        <div>
          <div class=`title`>YouTube</div>
          <div class=`url`>youtube.com</div>
        </div>
      </a>
      <!-- WEBDEV_LINKS_END -->
    </div>
  </section>
  <section class=`section-compact accent-green` id=`tools-section`>
    <header class=`section-compact__header`>
      <div class=`section-compact__title`>Developer Tools</div>
      <div class=`section-compact__meta`>Practical utilities for everyday use</div>
    </header>
    <div class=`compact-links`>
      <!-- TOOLS_LINKS_END -->
    </div>
  </section>
  <section class=`section-large accent-purple` id=`resources-section`>
    <header class=`section-large__header`>
      <div class=`section-large__title`>Learning Resources</div>
      <div class=`section-large__meta`>Tutorials and documentation</div>
    </header>
    <div class=`large-links`>
      <!-- RESOURCES_LINKS_END -->
    </div>
  </section>
  <!-- CONTAINER_DEVELOPMENT_CONTENT_END -->
</div>

<div class=`layout-container layout-2col` id=`productivity-container`>
  <!-- Container: productivity - Productivity -->
  <!-- CONTAINER_PRODUCTIVITY_CONTENT_START -->
  <section class=`section-card accent-orange` id=`office-section`>
    <header class=`section-card__header`>
      <div class=`section-card__title`>Office & Docs</div>
      <div class=`section-card__meta`>Documents and office applications</div>
    </header>
    <div class=`links`>
      <!-- OFFICE_LINKS_END -->
    </div>
  </section>
  <section class=`section-card accent-teal` id=`communication-section`>
    <header class=`section-card__header`>
      <div class=`section-card__title`>Communication</div>
      <div class=`section-card__meta`>Chat, video calls and collaboration</div>
    </header>
    <div class=`links`>
      <!-- COMMUNICATION_LINKS_END -->
    </div>
  </section>
  <!-- CONTAINER_PRODUCTIVITY_CONTENT_END -->
</div>

".

Definition sampleTab : TabInfo :=
  mkTabInfo (lit "https://example.org/a?b=1&c=2") (lit "Example <1>")
            (lit "example.org") (lit "https://example.org/favicon.ico").

(** ** What a pattern matches

    [Denotes ci r w caps caps'] holds when the pattern [r] can match the
    text [w], taking the captures from [caps] to [caps']. *)
Inductive Denotes (ci : bool) : regex -> str -> captures -> captures -> Prop :=
| DChars (l w : str) (caps : captures) :
    strip ci l w = Some [] -> Denotes ci (RChars l) w caps caps
| DClass (greedy : bool) (min : nat) (cls : ascii -> bool) (w : str)
    (caps : captures) :
    forallb cls w = true -> min <= length w ->
    Denotes ci (RClass greedy min cls) w caps caps
| DSeq (r1 r2 : regex) (w1 w2 : str) (caps caps1 caps2 : captures) :
    Denotes ci r1 w1 caps caps1 -> Denotes ci r2 w2 caps1 caps2 ->
    Denotes ci (RSeq r1 r2) (w1 ++ w2) caps caps2
| DGroup (i : nat) (r : regex) (w : str) (caps caps1 : captures) :
    Denotes ci r w caps caps1 ->
    Denotes ci (RGroup i r) w caps ((i, w) :: caps1)
| DOptSome (r : regex) (w : str) (caps caps1 : captures) :
    Denotes ci r w caps caps1 -> Denotes ci (ROpt r) w caps caps1
| DOptNone (r : regex) (caps : captures) :
    Denotes ci (ROpt r) [] caps caps.

(** The alphabet of the category keys made by [createNewCategory]
    (popup.js, lines 786-793): lower-case letters, digits, [_] and [-]. *)
Definition is_key_char (c : ascii) : bool :=
  is_lower c || is_digit c || Ascii.eqb c "_"%char || Ascii.eqb c "-"%char.

Definition devCategory : Category :=
  mkCategory (lit "dev") (lit "Dev") (lit "code") Cards (lit "blue") (lit "p") 0.

Definition devToolsCategory : Category :=
  mkCategory (lit "dev_tools") (lit "Tools") (lit "more") Compact (lit "green")
    (lit "p") 0.

(** A document with the categories [dev] and [dev_tools] in one container,
    as the content manager builds it from the empty document. *)
Definition devDocument : str :=
  content (snd (bind (Manager.addContainer (lit "p") (lit "P") 2)
                  (fun _ => bind (Manager.addCategory devCategory)
                  (fun _ => Manager.addCategory devToolsCategory))
                  (newManager []))).

(** The key [createNewContainer] derives from a container name (popup.js,
    line 728), for a name of 7-bit characters: lower case, every character
    other than a lower-case letter or a digit replaced by [_], and runs of
    [_] collapsed. *)
Fixpoint collapse_underscores (s : str) : str :=
  match s with
  | a :: s' =>
      if Ascii.eqb a "_"%char then
        match collapse_underscores s' with
        | b :: t => if Ascii.eqb b "_"%char then b :: t else a :: b :: t
        | [] => [a]
        end
      else a :: collapse_underscores s'
  | [] => []
  end.

Definition containerKeyOfName (name : str) : str :=
  collapse_underscores
    (map (fun c => if is_lower c || is_digit c then c else "_"%char)
         (toLowerCase name)).

Definition myLinksCategory : Category :=
  mkCategory (lit "c1") (lit "Cat") (lit "d") Cards (lit "blue")
    (lit "my_links") 0.

(** A container named [My Links] with one category, as the content manager
    builds them from the empty document. *)
Definition myLinksDocument : str :=
  content (snd (bind (Manager.addContainer (containerKeyOfName (lit "My Links"))
                        (lit "My Links") 2)
                  (fun _ => Manager.addCategory myLinksCategory)
                  (newManager []))).

(** Character classes of the pieces the templates are filled with. *)
Definition is_upper_key_char (c : ascii) : bool :=
  is_upper c || is_digit c || Ascii.eqb c "_"%char || Ascii.eqb c "-"%char.

Definition is_escaped_char (c : ascii) : bool := negb (is_html_special c).

(** Every character, for the facts that are checked character by
    character. *)
Definition all_ascii : list ascii := map ascii_of_nat (seq 0 256).

(** The needle starts nowhere inside [x], when [x] is followed by [s]. *)
Definition misses (needle x s : str) : Prop :=
  forall a b, x = a ++ b -> b <> [] -> startsWith needle (b ++ s) = false.

(** ** Composing a document with the content manager *)

(** A container, a category in it and a link in the category, added to the
    empty document in this order. *)
Definition composeDocument (containerKey containerName : str) (columns : N)
    (category : Category) (tabInfo : TabInfo) : str :=
  content (snd (bind (Manager.addContainer containerKey containerName columns)
                  (fun _ => bind (Manager.addCategory category)
                  (fun _ => Manager.addLinkToCategory tabInfo (key category)))
                  (newManager []))).

(** Display text that escaping leaves as it is. *)
Definition is_plain_char (c : ascii) : bool :=
  negb (Ascii.eqb c "&"%char || is_html_special c).

(** The text of the composed document: the container block, cut before
    its end marker, around the category block, cut before its end-of-links
    marker, around the link. *)
Definition containerHead (containerKey : str) (columns : N) : str :=
  lit "
<div class=`layout-container layout-" ++ numToString columns
  ++ lit "col` id=`" ++ containerKey ++ lit "-container`>
  <!-- Container: " ++ containerKey ++ lit " -->
  <!-- CONTAINER_" ++ toUpperCase containerKey ++ lit "_CONTENT_START -->
  ".

Definition containerTail (containerKey : str) : str :=
  lit "<!-- CONTAINER_" ++ toUpperCase containerKey ++ lit "_CONTENT_END -->
</div>

".

Definition categoryHead (category : Category) (layout : Layout) : str :=
  lit "  <section class=`" ++ HTML_TEMPLATES.layoutClass layout ++ lit " accent-"
  ++ accent category ++ lit "` id=`" ++ key category ++ lit "-section`>
    <header class=`" ++ HTML_TEMPLATES.layoutClass layout ++ lit "__header`>
      <div class=`" ++ HTML_TEMPLATES.layoutClass layout ++ lit "__title`>"
  ++ escaped (name category) ++ lit "</div>
      <div class=`" ++ HTML_TEMPLATES.layoutClass layout ++ lit "__meta`>"
  ++ escaped (description category) ++ lit "</div>
    </header>
    <div class=`" ++ HTML_TEMPLATES.contentClass layout ++ lit "`>
      ".

Definition categoryTail (category : Category) : str :=
  lit "<!-- " ++ toUpperCase (key category) ++ lit "_LINKS_END -->
    </div>
  </section>".

Definition composedText (containerKey : str) (columns : N)
    (category : Category) (tabInfo : TabInfo) : str :=
  containerHead containerKey columns
  ++ categoryHead category (layout category)
  ++ HTML_TEMPLATES.link tabInfo (layout category) ++ lit "
      "
  ++ categoryTail category ++ lit "
  " ++ containerTail containerKey.

(** The needle first occurs in [s] at the index [p], between [pre] and
    [post]. *)
Definition index_at (needle s : str) (p : nat) (pre post : str) : Prop :=
  indexOf needle s = Some p /\ p = length pre /\ s = pre ++ post.

(** ** Definitions used by the proofs *)

(** The character after a greedy run over a class ends the run. *)
Definition run_ends (cls : ascii -> bool) (s : str) : Prop :=
  match s with
  | [] => True
  | c :: _ => cls c = false
  end.


(** The characters [encodeURIComponent] produces. *)
Definition is_uri_char (c : ascii) : bool :=
  is_unreserved c || Ascii.eqb c "%"%char.

(** All the ends of a text. *)
Fixpoint tails (l : str) : list str :=
  l :: match l with
       | [] => []
       | _ :: t => tails t
       end.

(** ** Removing the links *)

(** [removeAllLinks] on a document. *)
Definition clean (d : str) : str :=
  Manager.getContent (snd (Manager.removeAllLinks (newManager d))).

(** What the body of the [forEach] of [removeAllLinks] does to the
    content. *)
Definition strip_links (category : Category) (s : str) : str :=
  match indexOf (Manager.linksEndMarker (key category)) s with
  | None => s
  | Some markerPos =>
      match lastIndexOf (Manager.linkContainerOpen (layout category))
              (substring s 0 markerPos) with
      | None => s
      | Some linkContainerStart =>
          substring s 0
            (match indexOfFrom [">"%char] s linkContainerStart with
             | Some i => i + 1
             | None => 0
             end)
          ++ lit "
      " ++ substringFrom s markerPos
      end
  end.

(** The needle occurs in [s] at the index [i]. *)
Definition occ (needle s : str) (i : nat) : Prop :=
  exists a b, s = a ++ needle ++ b /\ length a = i.

Definition unique (needle s : str) : Prop :=
  forall i j, occ needle s i -> occ needle s j -> i = j.

(** How often the needle occurs in [s]. *)
Definition count_occurrences (needle s : str) : nat :=
  length (filter (startsWith needle) (tails s)).

Fixpoint nodupb (l : list str) : bool :=
  match l with
  | [] => true
  | x :: t => negb (existsb (str_eqb x) t) && nodupb t
  end.

(** The categories of the document have keys of key characters, no two
    of them the same key, and the end-of-links marker of each occurs at
    most once. *)
Definition links_well_formed (d : str) : bool :=
  let categories := Analyzer.extractCategories (mkAnalyzer d) in
  forallb (fun c => forallb is_key_char (key c)) categories
  && nodupb (map key categories)
  && forallb (fun c =>
       count_occurrences (Manager.linksEndMarker (key c)) d <=? 1) categories.

(** Every category of the cleaned document is, by key and layout, a
    category of the document. *)
Definition no_new_category (d : str) : bool :=
  forallb (fun c' =>
      existsb (fun c => str_eqb (key c) (key c')
                        && Layout_eqb (layout c) (layout c'))
        (Analyzer.extractCategories (mkAnalyzer d)))
    (Analyzer.extractCategories (mkAnalyzer (clean d))).

(** The white space [removeAllLinks] leaves in a link area. *)
Definition blank : str := lit "
      ".

(** The document [s] is settled for a marker and a wrapper tag: the marker
    is absent, or no wrapper tag precedes it, or the wrapper tag and the
    blank precede it directly. *)
Definition settled (marker wrapper s : str) : Prop :=
  (forall i, ~ occ marker s i)
  \/ (exists P Q, s = P ++ marker ++ Q /\ forall i, ~ occ wrapper P i)
  \/ (exists P Q, s = P ++ wrapper ++ blank ++ marker ++ Q).

(** A document with an end-of-links marker twice. *)
Definition twoMarkersDocument : str :=
  lit "<section class=`section-card accent-blue` id=`a-section`>
<section class=`section-card accent-blue` id=`b-section`>
<div class=`links`>x<!-- A_LINKS_END -->y<!-- B_LINKS_END -->z<!-- A_LINKS_END -->q".

(** ** Further sample data *)

(** The document with the container [p] and the category [dev] in it, as
    the content manager builds it from the empty document. *)
Definition devDocumentStart : str :=
  content (snd (bind (Manager.addContainer (lit "p") (lit "P") 2)
                  (fun _ => Manager.addCategory devCategory)
                  (newManager []))).

(** ** reset-functions.js: the copies of the analyzer and of the content
    manager

    The file has its own [WikiStructureAnalyzer], with [extractCategories]
    only (lines 101-146; its categories have no [containerKey] and no
    [column]), and its own [WikiContentManager], with [removeAllLinks] and
    [getContent] only (lines 153-210).  The patterns are those of popup.js,
    character by character. *)
Module ResetFunctions.
Local Open Scope monad_scope.

Record Category : Type := mkCategory {
  key : str;
  name : str;
  description : str;
  layout : Layout;
  accent : str
}.

Definition categoryOfMatch (this : WikiStructureAnalyzer) (m : rx_match)
    : Category :=
  let layoutClass := group 1 m in
  let accent := group 2 m in
  let key := group 3 m in
  let layout := Analyzer.layoutOfClass layoutClass in
  let sectionContent :=
    match indexOf (Analyzer.sectionId key) (a_content this) with
    | Some sectionStart =>
        substring (a_content this) sectionStart (sectionStart + 500)
    | None => substring (a_content this) 0 499
    end in
  let titleMatch :=
    exec false (Analyzer.titleRegex layoutClass) sectionContent in
  let metaMatch :=
    exec false (Analyzer.metaRegex layoutClass) sectionContent in
  mkCategory key
    (match titleMatch with Some t => group 1 t | None => key end)
    (match metaMatch with Some t => group 1 t | None => [] end)
    layout accent.

(** [extractCategories()], lines 113-145 *)
Definition extractCategories (this : WikiStructureAnalyzer)
    : list Category :=
  map (categoryOfMatch this)
      (matchAll Analyzer.sectionRegex (a_content this)).

(** The body of the [forEach] of [removeAllLinks], lines 170-196 *)
Definition removeLinksOf (category : Category) : M unit :=
  this <- getThis ;;
  let marker := Manager.linksEndMarker (key category) in
  match indexOf marker (content this) with
  | None => ret tt
  | Some markerPos =>
      let beforeMarker := substring (content this) 0 markerPos in
      let linkContainerStart :=
        match layout category with
        | Compact => lastIndexOf (lit "<div class=`compact-links`>") beforeMarker
        | Large => lastIndexOf (lit "<div class=`large-links`>") beforeMarker
        | Cards => lastIndexOf (lit "<div class=`links`>") beforeMarker
        end in
      match linkContainerStart with
      | None => ret tt
      | Some linkContainerStart =>
          let linkContainerStartEnd :=
            match indexOfFrom [">"%char] (content this) linkContainerStart
            with
            | Some i => i + 1
            | None => 0
            end in
          let beforeLinks := substring (content this) 0 linkContainerStartEnd in
          let afterLinks := substringFrom (content this) markerPos in
          setContent (beforeLinks ++ lit "
      " ++ afterLinks)
      end
  end.

(** [removeAllLinks()], lines 167-201 *)
Definition removeAllLinks : M unit :=
  this <- getThis ;;
  let categories := extractCategories (analyzer this) in
  forEach categories removeLinksOf ;;
  this <- getThis ;;
  setAnalyzer (mkAnalyzer (content this)).

(** [getContent()], lines 207-209 *)
Definition getContent (this : WikiContentManager) : str := content this.

End ResetFunctions.

(** ** The keys made from names (popup.js, lines 728 and 786-793) *)

(** [s.replace(re, by)] for a pattern [re] with the [g] flag that matches
    at least one character: the matches are those of [exec_all], from left
    to right, each search starting where the previous match ended, and
    each is replaced by [by_].  [skip] counts the characters of the
    previous match still to pass over. *)
Fixpoint replace_all (r : regex) (by_ : str) (skip : nat) (s : str) : str :=
  match s with
  | [] => []
  | c :: s' =>
      match skip with
      | S n => replace_all r by_ n s'
      | 0 =>
          match match_here false r s with
          | Some (n, _) => by_ ++ replace_all r by_ (Nat.pred n) s'
          | None => c :: replace_all r by_ 0 s'
          end
      end
  end.

Definition replaceRegex (r : regex) (by_ s : str) : str :=
  replace_all r by_ 0 s.

(** The class [-_] of line 793. *)
Definition is_separator (c : ascii) : bool :=
  Ascii.eqb c "-"%char || Ascii.eqb c "_"%char.

(** The replacements of lines 788-791 for the characters with the codes
    228, 246, 252 and 223 (a, o and u with diaeresis, and sharp s). *)
Definition transliterate (c : ascii) : str :=
  if Ascii.eqb c "228"%char then lit "ae"
  else if Ascii.eqb c "246"%char then lit "oe"
  else if Ascii.eqb c "252"%char then lit "ue"
  else if Ascii.eqb c "223"%char then lit "ss"
  else [c].

(** The key [createNewCategory] derives from a category name, lines
    786-793: lower case; every run of white space replaced by [_]; the
    four characters transliterated; every character other than a
    lower-case letter, a digit, [_] and [-] replaced by [_]; every run of
    two or more of [-] and [_] replaced by [_]. *)
Definition categoryKeyOfName (name : str) : str :=
  replaceRegex (RClass true 2 is_separator) (lit "_")
    (map (fun c => if is_key_char c then c else "_"%char)
       (flat_map transliterate
          (replaceRegex (plus is_space) (lit "_") (toLowerCase name)))).

(** A name of 7-bit characters. *)
Definition is_7bit (c : ascii) : bool := code c <? 128.

(** No two adjacent characters of [s] are both of the class. *)
Fixpoint no_adjacent (cls : ascii -> bool) (s : str) : bool :=
  match s with
  | a :: t =>
      match t with
      | b :: _ => negb (cls a && cls b)
      | [] => true
      end && no_adjacent cls t
  | [] => true
  end.

(** The alphabet of the container keys made by [createNewContainer]. *)
Definition is_container_key_char (c : ascii) : bool :=
  is_lower c || is_digit c || Ascii.eqb c "_"%char.

(** ** The tab that is linked: [getActiveTabInfo] (popup.js, lines
    536-550) *)

(** The patterns of line 538, [^chrome(-extension)?:\/\/] and
    [^vivaldi:\/\/], without the anchor. *)
Definition chromeRegex : regex :=
  RSeq (RChars (lit "chrome"))
       (RSeq (ROpt (RChars (lit "-extension"))) (RChars (lit "://"))).

Definition vivaldiRegex : regex := RChars (lit "vivaldi://").

(** [re.test(s)] for a pattern [re] that begins with the anchor [^]: the
    pattern matches at the head of [s]. *)
Definition test_anchored (r : regex) (s : str) : bool :=
  match match_here false r s with
  | Some _ => true
  | None => false
  end.

(** The tab as [chrome.tabs.query] gives it: the URL and the title may be
    missing. *)
Record Tab : Type := mkTab {
  tab_url : option str;
  tab_title : option str
}.

Inductive TabError : Type :=
| CannotBeLinked        (* the [Error] of line 539 *)
| InvalidURL.           (* the [TypeError] of [new URL] *)

Section ActiveTab.
(** [new URL(url).hostname]; [None] when the constructor throws. *)
Variable hostname : str -> option str.

Definition getActiveTabInfo (tab : option Tab) : TabError + TabInfo :=
  match tab with
  | None => inl CannotBeLinked
  | Some tab =>
      match tab_url tab with
      | None | Some [] => inl CannotBeLinked
      | Some u =>
          if test_anchored chromeRegex u || test_anchored vivaldiRegex u
          then inl CannotBeLinked
          else
            match hostname u with
            | None => inl InvalidURL
            | Some h =>
                let iconUrl :=
                  lit "https://www.google.com/s2/favicons?domain=" ++ h
                  ++ lit "&sz=32" in
                inr (mkTabInfo u
                       (match tab_title tab with
                        | None | Some [] => h
                        | Some t => t
                        end)
                       h iconUrl)
            end
      end
  end.
End ActiveTab.

(** ** Definitions and sample data for the corrected statements *)


(** A key that the section pattern accepts and [createNewCategory] never
    makes: its end-of-links marker begins with the marker of the key
    [a]. *)
Definition longKey : str := lit "a_links_end -->x".

(** A document with a section of the key [longKey] before a section of the
    key [a], each with its link area and its marker. *)
Definition prefixMarkerDocument : str := lit "<section class=`section-card accent-blue` id=`a_links_end -->x-section`>
<div class=`links`>
<!-- A_LINKS_END -->X_LINKS_END -->
</div>
</section>
<section class=`section-compact accent-green` id=`a-section`>
<div class=`compact-links`>
<!-- A_LINKS_END -->
</div>
</section>".

(** * Properties *)

(** ** Strings: prefixes and searches *)

Lemma str_eqb_eq (a b : str) : str_eqb a b = true <-> a = b.
Proof.
  unfold str_eqb; destruct (list_eq_dec ascii_dec a b); split; congruence.
Qed.

Lemma str_eqb_refl (a : str) : str_eqb a a = true.
Proof. now apply str_eqb_eq. Qed.

Lemma str_eqb_neq (a b : str) : str_eqb a b = false <-> a <> b.
Proof.
  unfold str_eqb; destruct (list_eq_dec ascii_dec a b); split; congruence.
Qed.

Lemma startsWith_spec (p s : str) :
  startsWith p s = true <-> exists t, s = p ++ t.
Proof.
  revert s; induction p as [|a p IH]; intros s; simpl.
  - split; [intros _; now exists s | reflexivity].
  - destruct s as [|b s].
    + split; [discriminate | intros [t H]; discriminate].
    + rewrite andb_true_iff, IH. split.
      * intros [Hab [t ->]]. apply Ascii.eqb_eq in Hab. subst. now exists t.
      * intros [t H]. injection H as -> ->. split.
        -- apply Ascii.eqb_refl.
        -- now exists t.
Qed.

Lemma startsWith_app (p t : str) : startsWith p (p ++ t) = true.
Proof. apply startsWith_spec. now exists t. Qed.

Lemma startsWith_refl (p : str) : startsWith p p = true.
Proof. apply startsWith_spec. exists []. now rewrite app_nil_r. Qed.

Lemma startsWith_app_same (a p s : str) :
  startsWith (a ++ p) (a ++ s) = startsWith p s.
Proof.
  induction a as [|c a IH]; simpl; [reflexivity|].
  now rewrite Ascii.eqb_refl, IH.
Qed.

Lemma startsWith_length (p s : str) :
  startsWith p s = true -> length p <= length s.
Proof.
  intros H. apply startsWith_spec in H as [t ->].
  rewrite length_app. lia.
Qed.

(** [indexOf] finds the first position at which the needle starts. *)
Lemma indexOf_Some (needle s : str) (i : nat) :
  indexOf needle s = Some i ->
  startsWith needle (skipn i s) = true /\ i <= length s
  /\ forall j, j < i -> startsWith needle (skipn j s) = false.
Proof.
  revert i; induction s as [|c s IH]; intros i; simpl.
  - destruct (startsWith needle []) eqn:E; [|discriminate].
    intros [= <-]. simpl. repeat split; auto; intros; lia.
  - destruct (startsWith needle (c :: s)) eqn:E.
    + intros [= <-]. simpl. repeat split; auto; intros; lia.
    + destruct (indexOf needle s) as [i'|]; [|discriminate].
      intros [= <-]. destruct (IH i' eq_refl) as (H1 & H2 & H3).
      simpl. repeat split; auto; try lia.
      intros [|j] Hj; simpl; [assumption | apply H3; lia].
Qed.

Lemma indexOf_None (needle s : str) :
  indexOf needle s = None ->
  forall j, startsWith needle (skipn j s) = false.
Proof.
  induction s as [|c s IH]; simpl.
  - destruct (startsWith needle []) eqn:E; [discriminate|].
    intros _ j. now rewrite skipn_nil.
  - destruct (startsWith needle (c :: s)) eqn:E; [discriminate|].
    destruct (indexOf needle s); [discriminate|].
    intros _ [|j]; simpl; [assumption | now apply IH].
Qed.

(** The text splits at the position found. *)
Lemma indexOf_split (needle s : str) (i : nat) :
  indexOf needle s = Some i ->
  exists post, s = firstn i s ++ needle ++ post
               /\ skipn i s = needle ++ post /\ length (firstn i s) = i.
Proof.
  intros H. destruct (indexOf_Some _ _ _ H) as (H1 & H2 & _).
  apply startsWith_spec in H1 as [post Hp]. exists post.
  rewrite <- Hp, firstn_skipn, length_firstn. repeat split; auto; lia.
Qed.

Lemma indexOf_found (needle pre post : str) :
  exists i, indexOf needle (pre ++ needle ++ post) = Some i /\ i <= length pre.
Proof.
  induction pre as [|c pre IH]; simpl.
  - destruct (needle ++ post) eqn:E; simpl;
      rewrite <- ?E, startsWith_app; exists 0; split; auto.
  - destruct (startsWith needle (c :: pre ++ needle ++ post)).
    + exists 0; split; [reflexivity | lia].
    + destruct IH as (i & -> & Hi). exists (S i); split; [reflexivity | lia].
Qed.

Lemma includes_true (needle s : str) :
  includes needle s = true <-> exists pre post, s = pre ++ needle ++ post.
Proof.
  unfold includes. split.
  - destruct (indexOf needle s) as [i|] eqn:E; [|discriminate].
    intros _. apply indexOf_split in E as (post & E & _).
    now exists (firstn i s), post.
  - intros (pre & post & ->).
    destruct (indexOf_found needle pre post) as (i & -> & _). reflexivity.
Qed.

Lemma includes_intro (needle pre post : str) :
  includes needle (pre ++ needle ++ post) = true.
Proof. apply includes_true. now exists pre, post. Qed.

Lemma includes_false (needle s : str) :
  includes needle s = false <->
  forall j, startsWith needle (skipn j s) = false.
Proof.
  unfold includes. split.
  - destruct (indexOf needle s) eqn:E; [discriminate|].
    intros _. now apply indexOf_None.
  - intros H. destruct (indexOf needle s) as [i|] eqn:E; [|reflexivity].
    apply indexOf_Some in E as (E & _). now rewrite H in E.
Qed.


Lemma substring_0 (s : str) (b : nat) : substring s 0 b = firstn b s.
Proof. unfold substring. now rewrite Nat.max_0_l, Nat.min_0_l, Nat.sub_0_r. Qed.

Lemma firstn_app_exact (a b : str) : firstn (length a) (a ++ b) = a.
Proof. now rewrite firstn_app, Nat.sub_diag, firstn_all, app_nil_r. Qed.

Lemma skipn_app_exact (a b : str) : skipn (length a) (a ++ b) = b.
Proof. now rewrite skipn_app, Nat.sub_diag, skipn_all. Qed.

(** ** The content manager, operation by operation *)

Ltac run_monad :=
  unfold bind, getThis, when, throw, setContent, setAnalyzer, ret; simpl.


Lemma addContainer_eq (k name : str) (columns : N) (this : WikiContentManager) :
  Manager.addContainer k name columns this =
  if Analyzer.containerExists (analyzer this) k
  then (Thrown (ContainerAlreadyExists k), this)
  else
    let c := content this ++ separator (content this)
             ++ HTML_TEMPLATES.container k columns in
    (Returned tt, mkManager c (mkAnalyzer c)).
Proof.
  unfold Manager.addContainer; run_monad.
  destruct (Analyzer.containerExists (analyzer this) k); reflexivity.
Qed.

Lemma container_has_id (k : str) (columns : N) :
  exists pre post,
    HTML_TEMPLATES.container k columns = pre ++ Analyzer.containerId k ++ post.
Proof.
  eexists (lit "<div class=`layout-container layout-" ++ numToString columns
           ++ lit "col` "), _.
  unfold HTML_TEMPLATES.container, Analyzer.containerId.
  rewrite <- !app_assoc. reflexivity.
Qed.


Lemma addCategory_throws (category : Category) (this this' : WikiContentManager)
    (e : Error) :
  Manager.addCategory category this = (Thrown e, this') -> this' = this.
Proof.
  unfold Manager.addCategory; run_monad.
  destruct (Analyzer.categoryExists _ _); simpl; [congruence|].
  destruct (Analyzer.containerExists _ _); simpl; [|congruence].
  destruct (indexOf _ _); simpl; congruence.
Qed.

Lemma addLinkToCategory_throws (tabInfo : TabInfo) (k : str)
    (this this' : WikiContentManager) (e : Error) :
  Manager.addLinkToCategory tabInfo k this = (Thrown e, this') -> this' = this.
Proof.
  unfold Manager.addLinkToCategory; run_monad.
  destruct (Analyzer.categoryExists _ _); simpl; [|congruence].
  destruct (Manager.findCategory _ _); simpl; [|congruence].
  destruct (indexOf _ _); simpl; congruence.
Qed.

Lemma addContainer_throws (k name : str) (columns : N)
    (this this' : WikiContentManager) (e : Error) :
  Manager.addContainer k name columns this = (Thrown e, this') -> this' = this.
Proof.
  rewrite addContainer_eq.
  destruct (Analyzer.containerExists _ _); simpl; congruence.
Qed.

(** The operations that build a new analyzer from the new content. *)
Lemma addContainer_refreshes (k name : str) (columns : N)
    (this this' : WikiContentManager) :
  Manager.addContainer k name columns this = (Returned tt, this') ->
  a_content (analyzer this') = content this'.
Proof.
  rewrite addContainer_eq.
  destruct (Analyzer.containerExists _ _); simpl; [discriminate|].
  now intros [= <-].
Qed.

Lemma addCategory_refreshes (category : Category)
    (this this' : WikiContentManager) :
  Manager.addCategory category this = (Returned tt, this') ->
  a_content (analyzer this') = content this'.
Proof.
  unfold Manager.addCategory; run_monad.
  destruct (Analyzer.categoryExists _ _); simpl; [discriminate|].
  destruct (Analyzer.containerExists _ _); simpl; [|discriminate].
  destruct (indexOf _ _); simpl; [|discriminate].
  now intros [= <-].
Qed.

Lemma forEach_returns {A : Type} (l : list A) (f : A -> M unit) :
  (forall a this, exists this', f a this = (Returned tt, this')) ->
  forall this, exists this', forEach l f this = (Returned tt, this').
Proof.
  intros Hf. induction l as [|a l IH]; intros this; simpl.
  - now exists this.
  - unfold bind. destruct (Hf a this) as [this1 ->]. apply IH.
Qed.

Lemma removeLinksOf_returns (category : Category) (this : WikiContentManager) :
  exists this', Manager.removeLinksOf category this = (Returned tt, this').
Proof.
  unfold Manager.removeLinksOf; run_monad.
  destruct (indexOf _ _); [|now eexists].
  destruct (lastIndexOf _ _); now eexists.
Qed.

Lemma removeAllLinks_refreshes (this : WikiContentManager) :
  exists this', Manager.removeAllLinks this = (Returned tt, this')
                /\ a_content (analyzer this') = content this'.
Proof.
  unfold Manager.removeAllLinks. unfold bind at 1, getThis at 1.
  unfold bind at 1.
  destruct (forEach_returns (Analyzer.extractCategories (analyzer this))
              Manager.removeLinksOf removeLinksOf_returns this) as [this1 ->].
  run_monad. eexists; split; reflexivity.
Qed.

(** ** Adding a container *)

(** C4.  On a manager whose analyzer does not find the container key [k],
    [addContainer(k, name, columns)] returns, [containerExists(k)] is true
    on the result (through the bound analyzer and through a new one), and
    another [addContainer] with the key [k] throws the duplicate-key error
    and leaves the manager, hence the document, as it was. *)
Theorem addContainer_then_containerExists
    (this : WikiContentManager) (k name : str) (columns : N) :
  Analyzer.containerExists (analyzer this) k = false ->
  exists this',
    Manager.addContainer k name columns this = (Returned tt, this')
    /\ Analyzer.containerExists (analyzer this') k = true
    /\ Analyzer.containerExists (mkAnalyzer (Manager.getContent this')) k = true
    /\ forall name' columns',
         Manager.addContainer k name' columns' this'
         = (Thrown (ContainerAlreadyExists k), this').
Proof.
  intros H. rewrite addContainer_eq, H. cbv zeta.
  eexists; split; [reflexivity|].
  assert (E : Analyzer.containerExists
                (mkAnalyzer (content this ++ separator (content this)
                             ++ HTML_TEMPLATES.container k columns)) k = true).
  { unfold Analyzer.containerExists; simpl.
    destruct (container_has_id k columns) as (pre & post & ->).
    rewrite !app_assoc, <- (app_assoc _ (Analyzer.containerId k) post).
    apply includes_intro. }
  simpl. repeat split; auto.
  intros name' columns'. now rewrite addContainer_eq; simpl; rewrite E.
Qed.

Lemma addContainer_then_containerExists_witness :
  exists this',
    Manager.addContainer (lit "p") (lit "P") 2 (newManager []) = (Returned tt, this')
    /\ Analyzer.containerExists (analyzer this') (lit "p") = true
    /\ Analyzer.containerExists (mkAnalyzer (Manager.getContent this')) (lit "p") = true
    /\ forall name' columns',
         Manager.addContainer (lit "p") name' columns' this'
         = (Thrown (ContainerAlreadyExists (lit "p")), this').
Proof.
  apply (addContainer_then_containerExists (newManager []) (lit "p") (lit "P") 2).
  reflexivity.
Defined.




(** ** Failing operations *)

(** C5.  When [addContainer], [addCategory] or [addLinkToCategory] throws,
    the manager (its content and its analyzer) is the one before the call.
    [addCategory] into a container the analyzer does not find throws: the
    duplicate-key error when the category key exists already, and the
    missing-container error otherwise. *)
Theorem failing_operations_change_nothing
    (op : operation) (this : WikiContentManager) :
  (forall e this', perform op this = (Thrown e, this') -> this' = this)
  /\ (forall category,
        op = AddCategory category ->
        Analyzer.containerExists (analyzer this) (containerKey category) = false ->
        perform op this
        = (Thrown (if Analyzer.categoryExists (analyzer this) (key category)
                   then CategoryAlreadyExists (key category)
                   else ContainerDoesNotExist (containerKey category)), this)).
Proof.
  split.
  - intros e this'. destruct op; simpl.
    + apply addContainer_throws.
    + apply addCategory_throws.
    + apply addLinkToCategory_throws.
  - intros category -> H. simpl.
    unfold Manager.addCategory; run_monad.
    destruct (Analyzer.categoryExists _ _); simpl; [reflexivity|].
    now rewrite H.
Qed.


Lemma failing_operations_change_nothing_witness :
  perform (AddCategory sampleCategory) (newManager (lit "text"))
  = (Thrown (ContainerDoesNotExist (lit "p")), newManager (lit "text"))
  /\ snd (perform (AddCategory sampleCategory) (newManager (lit "text")))
     = newManager (lit "text").
Proof.
  destruct (failing_operations_change_nothing
              (AddCategory sampleCategory) (newManager (lit "text")))
    as [H1 H2].
  split.
  - apply (H2 sampleCategory); reflexivity.
  - apply (H1 (ContainerDoesNotExist (lit "p"))).
    apply (H2 sampleCategory); reflexivity.
Defined.

(** ** The analyzer after a mutation *)


(** C7.  [addLinkToCategory] changes the content and keeps the analyzer it
    had: on the demo document, after a link is added to the category
    [tools], the bound analyzer still scans the old document, which differs
    from the content of the manager and does not hold the new link. *)
Theorem addLinkToCategory_keeps_old_analyzer :
  let r := Manager.addLinkToCategory sampleTab (lit "tools")
             (newManager demoTemplate) in
  fst r = Returned tt
  /\ a_content (analyzer (snd r)) = demoTemplate
  /\ str_eqb (a_content (analyzer (snd r))) (content (snd r)) = false
  /\ includes (url sampleTab) (a_content (analyzer (snd r))) = false
  /\ includes (url sampleTab) (content (snd r)) = true.
Proof. vm_compute. repeat split; reflexivity. Qed.

(** ** Escaping in the templates *)


Lemma replaceAll_app (c : ascii) (by_ a b : str) :
  replaceAll c by_ (a ++ b) = replaceAll c by_ a ++ replaceAll c by_ b.
Proof. apply flat_map_app. Qed.

Lemma escapeHtml_app (a b : str) : escapeHtml (a ++ b) = escapeHtml a ++ escapeHtml b.
Proof. unfold escapeHtml. now rewrite !replaceAll_app. Qed.

Lemma escapeHtml_char (c : ascii) : escapeHtml [c] = escape_char c.
Proof.
  unfold escape_char.
  destruct (Ascii.eqb_spec c "&"%char) as [->|H1]; [reflexivity|].
  destruct (Ascii.eqb_spec c "<"%char) as [->|H2]; [reflexivity|].
  destruct (Ascii.eqb_spec c ">"%char) as [->|H3]; [reflexivity|].
  destruct (Ascii.eqb_spec c dquote) as [->|H4]; [reflexivity|].
  unfold escapeHtml, replaceAll; simpl.
  apply Ascii.eqb_neq in H1, H2, H3, H4.
  rewrite H1; simpl. rewrite H2; simpl. rewrite H3; simpl. now rewrite H4.
Qed.

(** The four passes of [escapeHtml] amount to one pass that replaces each
    of the four characters by its entity. *)
Lemma escapeHtml_escaped (s : str) : escapeHtml s = escaped s.
Proof.
  induction s as [|c s IH]; [reflexivity|].
  change (c :: s) with ([c] ++ s).
  rewrite escapeHtml_app, escapeHtml_char, IH. reflexivity.
Qed.


Lemma escaped_no_special (s : str) :
  forallb (fun c => negb (is_html_special c)) (escaped s) = true.
Proof.
  induction s as [|c s IH]; [reflexivity|].
  unfold escaped in *; simpl. rewrite forallb_app, IH, andb_true_r.
  unfold escape_char.
  destruct (Ascii.eqb_spec c "&"%char); [reflexivity|].
  destruct (Ascii.eqb_spec c "<"%char) as [|H2]; [reflexivity|].
  destruct (Ascii.eqb_spec c ">"%char) as [|H3]; [reflexivity|].
  destruct (Ascii.eqb_spec c dquote) as [|H4]; [reflexivity|].
  apply Ascii.eqb_neq in H2, H3, H4. unfold is_html_special; simpl.
  now rewrite H2, H3, H4.
Qed.

Lemma startsWith_nil (s : str) : startsWith [] s = true.
Proof. reflexivity. Qed.

Lemma startsWith_cons_intro (c : ascii) (n s : str) :
  startsWith n s = true -> startsWith (c :: n) (c :: s) = true.
Proof. intros H; simpl. now rewrite Ascii.eqb_refl. Qed.

Lemma startsWith_app_intro (x n s : str) :
  startsWith n s = true -> startsWith (x ++ n) (x ++ s) = true.
Proof. now rewrite startsWith_app_same. Qed.

Lemma includes_here (n s : str) : startsWith n s = true -> includes n s = true.
Proof.
  intros H. apply startsWith_spec in H as [t ->].
  apply (includes_intro n [] t).
Qed.

Lemma includes_skip_app (n x s : str) :
  includes n s = true -> includes n (x ++ s) = true.
Proof.
  rewrite !includes_true. intros (pre & post & ->).
  exists (x ++ pre), post. now rewrite app_assoc.
Qed.

Lemma includes_skip (n : str) (c : ascii) (s : str) :
  includes n s = true -> includes n (c :: s) = true.
Proof. apply (includes_skip_app n [c] s). Qed.

(** Texts in normal form: the literals as explicit characters, everything
    appended to the right. *)
Ltac norm_str :=
  rewrite <- ?app_assoc;
  repeat match goal with
         | |- context [lit ?L] =>
             let v := eval vm_compute in (lit L) in change (lit L) with v
         end;
  cbn [app].

Ltac starts :=
  repeat first [ apply startsWith_nil
               | apply startsWith_cons_intro
               | apply startsWith_app_intro ].

(** Looks for the needle of an [includes] goal along a text in normal form. *)
Ltac find_needle :=
  repeat first [ apply includes_here; solve [starts]
               | apply includes_skip
               | apply includes_skip_app ].

(** C9, as the code has it.  The category name and description, the link
    title and the host name are embedded escaped (each of the characters
    ampersand, less-than, greater-than and double quote replaced by its
    entity, so that no less-than, greater-than or double quote of them is
    left); the URL and the icon URL are embedded as they are. *)
Theorem templates_escape_display_text
    (category : Category) (tabInfo : TabInfo) (layout : Layout) :
  escapeHtml (name category) = escaped (name category)
  /\ forallb (fun c => negb (is_html_special c)) (escaped (host tabInfo)) = true
  /\ includes (lit "__title`>" ++ escaped (name category) ++ lit "</div>")
       (HTML_TEMPLATES.category category layout) = true
  /\ includes (lit "__meta`>" ++ escaped (description category) ++ lit "</div>")
       (HTML_TEMPLATES.category category layout) = true
  /\ includes (lit "title`>" ++ escaped (title tabInfo) ++ lit "</")
       (HTML_TEMPLATES.link tabInfo layout) = true
  /\ includes (lit "url`>" ++ escaped (host tabInfo) ++ lit "</")
       (HTML_TEMPLATES.link tabInfo layout) = true
  /\ includes (lit " href=`" ++ url tabInfo ++ lit "` target=")
       (HTML_TEMPLATES.link tabInfo layout) = true
  /\ includes (lit "<img src=`" ++ iconUrl tabInfo ++ lit "` alt=``")
       (HTML_TEMPLATES.link tabInfo layout) = true.
Proof.
  split; [apply escapeHtml_escaped|].
  split; [apply escaped_no_special|].
  unfold HTML_TEMPLATES.category, HTML_TEMPLATES.link.
  rewrite !escapeHtml_escaped.
  split; [|split; [|split; [|split; [|split]]]];
    destruct layout; unfold HTML_TEMPLATES.layoutClass;
    norm_str; find_needle.
Qed.

(** C9, counterexample: a host name with markup is not embedded as it was
    supplied; its escaped form is. *)
Lemma host_is_escaped :
  let t := mkTabInfo (lit "https://a.b/") (lit "T") (lit "<b>") (lit "i.png") in
  includes (host t) (HTML_TEMPLATES.link t Cards) = false
  /\ includes (lit "&lt;b&gt;") (HTML_TEMPLATES.link t Cards) = true.
Proof. vm_compute. split; reflexivity. Qed.

(** ** The matcher is sound *)

Lemma strip_sound (ci : bool) (l s s' : str) :
  strip ci l s = Some s' ->
  exists w, s = w ++ s' /\ strip ci l w = Some [] /\ length w = length l.
Proof.
  revert s; induction l as [|a l IH]; intros s; simpl.
  - intros [= ->]. now exists [].
  - destruct s as [|b s]; [discriminate|].
    destruct (char_eqb ci a b) eqn:E; [|discriminate].
    intros H. destruct (IH _ H) as (w & -> & Hw & Hl).
    exists (b :: w). simpl. rewrite E. repeat split; auto.
Qed.

Lemma strip_exact (l s s' : str) :
  strip false l s = Some s' <-> s = l ++ s'.
Proof.
  revert s; induction l as [|a l IH]; intros s; simpl.
  - split; [now intros [= ->] | now intros ->].
  - destruct s as [|b s]; [split; discriminate|].
    destruct (Ascii.eqb_spec a b) as [->|Hab].
    + rewrite IH. split; [now intros -> | now intros [= ->]].
    + split; [discriminate | intros [= -> _]; contradiction].
Qed.

Lemma strip_startsWith (l s : str) :
  strip false l s = None <-> startsWith l s = false.
Proof.
  revert s; induction l as [|a l IH]; intros s; simpl.
  - split; discriminate.
  - destruct s as [|b s]; [tauto|].
    destruct (Ascii.eqb a b); simpl; [apply IH | tauto].
Qed.

Section Soundness.
Variable A : Type.
Variable ci : bool.

Lemma rep_greedy_sound (cls : ascii -> bool) (s : str) :
  forall (min : nat) (caps : captures) (k : cont A) (x : A),
  rep_greedy cls min s caps k = Some x ->
  exists w s', s = w ++ s' /\ forallb cls w = true /\ min <= length w
               /\ k s' caps = Some x.
Proof.
  induction s as [|c s IH]; intros min caps k x; simpl.
  - destruct min; [|discriminate]. intros H. now exists [], [].
  - assert (Hstop : match min with 0 => k (c :: s) caps | S _ => None end
                    = Some x ->
                    exists w s', c :: s = w ++ s' /\ forallb cls w = true
                                 /\ min <= length w /\ k s' caps = Some x).
    { destruct min; [|discriminate]. intros H. now exists [], (c :: s). }
    destruct (cls c) eqn:Ec; [|exact Hstop].
    destruct (rep_greedy cls (Nat.pred min) s caps k) as [y|] eqn:E;
      [|exact Hstop].
    intros [= ->]. destruct (IH _ _ _ _ E) as (w & s' & -> & Hw & Hm & Hk).
    exists (c :: w), s'. simpl. rewrite Ec, Hw. repeat split; auto. lia.
Qed.

Lemma rep_lazy_sound (cls : ascii -> bool) (s : str) :
  forall (min : nat) (caps : captures) (k : cont A) (x : A),
  rep_lazy cls min s caps k = Some x ->
  exists w s', s = w ++ s' /\ forallb cls w = true /\ min <= length w
               /\ k s' caps = Some x.
Proof.
  induction s as [|c s IH]; intros min caps k x; simpl.
  - destruct min; [|discriminate].
    destruct (k [] caps) eqn:E; [|discriminate].
    intros [= ->]. now exists [], [].
  - assert (Hmore : (if cls c then rep_lazy cls (Nat.pred min) s caps k
                     else None) = Some x ->
                    exists w s', c :: s = w ++ s' /\ forallb cls w = true
                                 /\ min <= length w /\ k s' caps = Some x).
    { destruct (cls c) eqn:Ec; [|discriminate]. intros E.
      destruct (IH _ _ _ _ E) as (w & s' & -> & Hw & Hm & Hk).
      exists (c :: w), s'. simpl. rewrite Ec, Hw. repeat split; auto. lia. }
    destruct min; [|exact Hmore].
    destruct (k (c :: s) caps) as [y|] eqn:E; [|exact Hmore].
    intros [= ->]. exists [], (c :: s). repeat split; auto.
Qed.

(** Whatever [rmatch] returns comes from the continuation, called on the
    rest of the input after a text the pattern denotes. *)
Lemma rmatch_sound (r : regex) :
  forall (s : str) (caps : captures) (k : cont A) (x : A),
  rmatch ci r s caps k = Some x ->
  exists w s' caps', s = w ++ s' /\ Denotes ci r w caps caps'
                     /\ k s' caps' = Some x.
Proof.
  induction r as [l | g min cls | r1 IH1 r2 IH2 | i r IH | r IH];
    intros s caps k x; simpl.
  - destruct (strip ci l s) as [s'|] eqn:E; [|discriminate].
    intros H. destruct (strip_sound _ _ _ _ E) as (w & -> & Hw & _).
    exists w, s', caps. repeat split; auto. now constructor.
  - destruct g; intros H;
      [apply rep_greedy_sound in H | apply rep_lazy_sound in H];
      destruct H as (w & s' & -> & Hw & Hm & Hk);
      exists w, s', caps; repeat split; auto; now constructor.
  - intros H. destruct (IH1 _ _ _ _ H) as (w1 & s1 & c1 & -> & D1 & H1).
    destruct (IH2 _ _ _ _ H1) as (w2 & s2 & c2 & -> & D2 & H2).
    exists (w1 ++ w2), s2, c2. rewrite app_assoc. repeat split; auto.
    econstructor; eassumption.
  - intros H. destruct (IH _ _ _ _ H) as (w & s' & c1 & -> & D & Hk).
    rewrite length_app, Nat.add_sub, firstn_app_exact in Hk.
    exists w, s', ((i, w) :: c1). repeat split; auto. now constructor.
  - destruct (rmatch ci r s caps k) as [y|] eqn:E.
    + intros [= ->]. destruct (IH _ _ _ _ E) as (w & s' & c1 & -> & D & Hk).
      exists w, s', c1. repeat split; auto. now apply DOptSome.
    + intros H. exists [], s, caps. repeat split; auto. apply DOptNone.
Qed.
End Soundness.

Lemma match_here_sound (ci : bool) (r : regex) (s : str) (n : nat)
    (caps : captures) :
  match_here ci r s = Some (n, caps) ->
  exists w s', s = w ++ s' /\ n = length w /\ Denotes ci r w [] caps.
Proof.
  unfold match_here. intros H.
  apply rmatch_sound in H as (w & s' & c' & -> & D & H).
  injection H as <- <-. exists w, s'. repeat split; auto.
  rewrite length_app. lia.
Qed.

(** Every match of the scan is a match of the pattern at its index. *)
Lemma exec_all_In (r : regex) (s : str) :
  forall (skip pos : nat) (m : rx_match),
  In m (exec_all r skip pos s) ->
  pos <= m_index m
  /\ match_here false r (skipn (m_index m - pos) s)
     = Some (m_length m, m_caps m).
Proof.
  induction s as [|c s IH]; intros skip pos m; simpl; [tauto|].
  destruct skip as [|skip].
  - destruct (match_here false r (c :: s)) as [[n caps]|] eqn:E.
    + intros [<- | H]; simpl.
      * rewrite Nat.sub_diag. simpl. auto.
      * destruct (IH _ _ _ H) as [Hp Hm]. split; [lia|].
        replace (m_index m - pos) with (S (m_index m - S pos)) by lia.
        exact Hm.
    + intros H. destruct (IH _ _ _ H) as [Hp Hm]. split; [lia|].
      replace (m_index m - pos) with (S (m_index m - S pos)) by lia.
      exact Hm.
  - intros H. destruct (IH _ _ _ H) as [Hp Hm]. split; [lia|].
    replace (m_index m - pos) with (S (m_index m - S pos)) by lia.
    exact Hm.
Qed.

(** ** What the section pattern matches *)

Lemma strip_nil_exact (l w : str) : strip false l w = Some [] -> w = l.
Proof. intros H. apply strip_exact in H. now rewrite app_nil_r in H. Qed.

Ltac invert_denotes :=
  repeat match goal with
         | H : Denotes _ (RSeq _ _) _ _ _ |- _ => inversion H; clear H; subst
         | H : Denotes _ (RGroup _ _) _ _ _ |- _ => inversion H; clear H; subst
         | H : Denotes _ (RChars _) _ _ _ |- _ => inversion H; clear H; subst
         | H : Denotes _ (RClass _ _ _) _ _ _ |- _ =>
             inversion H; clear H; subst
         | H : Denotes _ (plus _) _ _ _ |- _ => unfold plus in H
         | H : Denotes _ (star _) _ _ _ |- _ => unfold star in H
         | H : strip false _ _ = Some [] |- _ =>
             apply strip_nil_exact in H; subst
         end.

(** A match of the section pattern is a section tag, and the captures are
    its class, its accent and its key. *)
Lemma sectionRegex_shape (s : str) (n : nat) (caps : captures) :
  match_here false Analyzer.sectionRegex s = Some (n, caps) ->
  exists w1 sp w2 k rest,
    s = lit "<section class=`" ++ (lit "section-" ++ w1) ++ sp
        ++ lit "accent-" ++ w2 ++ lit "` id=`" ++ k ++ lit "-section`>"
        ++ rest
    /\ caps = [(3, k); (2, w2); (1, lit "section-" ++ w1)]
    /\ forallb is_word w1 = true /\ 1 <= length w1
    /\ forallb is_space sp = true /\ 1 <= length sp
    /\ forallb is_word w2 = true /\ 1 <= length w2
    /\ forallb (is_not dquote) k = true /\ 1 <= length k.
Proof.
  intros H. apply match_here_sound in H as (w & s' & -> & -> & D).
  unfold Analyzer.sectionRegex in D. invert_denotes.
  match goal with
  | |- context [(3, ?k) :: (2, ?w2) :: (1, _ ++ ?w1) :: _] =>
      exists w1;
      match goal with
      | H : forallb is_space ?sp = true |- _ => exists sp, w2, k, s'
      end
  end.
  rewrite <- !app_assoc. repeat split; auto.
Qed.

Lemma extractCategories_In (a : WikiStructureAnalyzer) (c : Category) :
  In c (Analyzer.extractCategories a) ->
  exists m, In m (matchAll Analyzer.sectionRegex (a_content a))
            /\ c = Analyzer.categoryOfMatch a m.
Proof.
  unfold Analyzer.extractCategories. rewrite in_map_iff.
  intros (m & <- & H). now exists m.
Qed.

(** The key of a derived category is not empty, has no double quote, and
    its section token is in the document. *)
Lemma extractCategories_key (a : WikiStructureAnalyzer) (c : Category) :
  In c (Analyzer.extractCategories a) ->
  forallb (is_not dquote) (key c) = true /\ 1 <= length (key c)
  /\ Analyzer.categoryExists a (key c) = true.
Proof.
  intros H. apply extractCategories_In in H as (m & Hm & ->).
  apply exec_all_In in Hm as [_ Hm]. rewrite Nat.sub_0_r in Hm.
  apply sectionRegex_shape in Hm
    as (w1 & sp & w2 & k & rest & Hs & Hc & _ & _ & _ & _ & _ & _ & Hk & Hl).
  unfold Analyzer.categoryOfMatch, group. rewrite Hc. simpl.
  repeat split; auto.
  unfold Analyzer.categoryExists.
  rewrite <- (firstn_skipn (m_index m) (a_content a)), Hs.
  unfold Analyzer.sectionId.
  apply includes_skip_app. norm_str. find_needle.
Qed.

(** ** Adding a link *)

Lemma key_char_upper_not_space (c : ascii) :
  is_key_char c = true -> Ascii.eqb (upper_char c) " "%char = false.
Proof.
  destruct c as [b0 b1 b2 b3 b4 b5 b6 b7].
  destruct b0, b1, b2, b3, b4, b5, b6, b7; vm_compute; congruence.
Qed.

Lemma toUpperCase_app (a b : str) :
  toUpperCase (a ++ b) = toUpperCase a ++ toUpperCase b.
Proof. apply map_app. Qed.

Lemma upper_key_no_space (k : str) :
  forallb is_key_char k = true ->
  forallb (fun c => negb (Ascii.eqb c " "%char)) (toUpperCase k) = true.
Proof.
  induction k as [|c k IH]; simpl; [reflexivity|].
  rewrite andb_true_iff. intros [Hc Hk].
  now rewrite (key_char_upper_not_space _ Hc), IH.
Qed.

(** The end marker of a key does not start where the end marker of a
    proper prefix of that key starts: the blank of [_LINKS_END -->] would
    have to be a character of the longer key. *)
Lemma marker_tail_shift (S t post : str) :
  S <> [] ->
  forallb (fun c => negb (Ascii.eqb c " "%char)) S = true ->
  startsWith (S ++ lit "_LINKS_END -->" ++ t) (lit "_LINKS_END -->" ++ post)
  = false.
Proof.
  intros Hne HS.
  do 11 (destruct S as [|? S];
         [ try contradiction; simpl in *; rewrite ?andb_false_r; reflexivity
         | ]).
  simpl in HS. rewrite !andb_true_iff in HS.
  destruct HS as (_ & _ & _ & _ & _ & _ & _ & _ & _ & _ & H & _).
  apply negb_true_iff in H.
  simpl. rewrite H. simpl. rewrite ?andb_false_r. reflexivity.
Qed.

Lemma find_first {A : Type} (f : A -> bool) (l : list A) (x : A) :
  In x l -> f x = true -> exists y, find f l = Some y /\ f y = true /\ In y l.
Proof.
  intros Hin Hf. destruct (find f l) as [y|] eqn:E.
  - exists y. destruct (find_some _ _ E). auto.
  - now rewrite (find_none _ _ E _ Hin) in Hf.
Qed.

(** C2, as the code has it.  Let the analyzer derive from the document [d]
    categories with the keys [k1] and [k2], [k1] a proper prefix of [k2],
    the keys being made of the characters of category keys, and let the
    end-of-links marker of [k1] occur in [d].  Then [addLinkToCategory(tabInfo, k1)] returns; the new
    content is [d] with the link fragment and the indentation inserted at
    the first occurrence [p] of the marker of [k1]; the fragment is rendered
    with the layout of the category the analyzer derives for [k1]; and the
    marker of [k2] does not start at [p]. *)
Theorem addLinkToCategory_inserts_before_own_marker
    (d : str) (tabInfo : TabInfo) (k1 k2 suffix : str) (c1 c2 : Category) :
  In c1 (Analyzer.extractCategories (mkAnalyzer d)) -> key c1 = k1 ->
  In c2 (Analyzer.extractCategories (mkAnalyzer d)) -> key c2 = k2 ->
  k2 = k1 ++ suffix -> suffix <> [] ->
  forallb is_key_char k2 = true ->
  includes (Manager.linksEndMarker k1) d = true ->
  exists c p,
    Manager.findCategory (Analyzer.extractCategories (mkAnalyzer d)) k1
    = Some c
    /\ key c = k1
    /\ indexOf (Manager.linksEndMarker k1) d = Some p
    /\ Manager.addLinkToCategory tabInfo k1 (newManager d)
       = (Returned tt,
          mkManager (firstn p d ++ HTML_TEMPLATES.link tabInfo (layout c)
                     ++ lit "
      " ++ skipn p d) (mkAnalyzer d))
    /\ startsWith (Manager.linksEndMarker k1) (skipn p d) = true
    /\ (forall q, q < p ->
        startsWith (Manager.linksEndMarker k1) (skipn q d) = false)
    /\ startsWith (Manager.linksEndMarker k2) (skipn p d) = false.
Proof.
  intros Hin1 Hk1 _ _ Hk2 Hne Hkey Hinc.
  destruct (find_first (fun cat => str_eqb (key cat) k1) _ c1 Hin1)
    as (c & Hfind & Hc & Hinc1).
  { apply str_eqb_eq, Hk1. }
  apply str_eqb_eq in Hc.
  unfold includes in Hinc.
  destruct (indexOf (Manager.linksEndMarker k1) d) as [p|] eqn:Hp;
    [clear Hinc | discriminate].
  exists c, p. split; [exact Hfind|]. split; [exact Hc|].
  split; [reflexivity|].
  destruct (indexOf_Some _ _ _ Hp) as (Hs & _ & Hfirst).
  split; [|split; [exact Hs|split; [exact Hfirst|]]].
  - unfold Manager.addLinkToCategory; run_monad.
    destruct (extractCategories_key _ _ Hinc1) as (_ & _ & Hex).
    rewrite Hc in Hex. rewrite Hex. simpl.
    unfold Manager.findCategory in Hfind. unfold Manager.findCategory.
    rewrite Hfind, Hp. reflexivity.
  - apply startsWith_spec in Hs as [post ->].
    subst k2. unfold Manager.linksEndMarker.
    rewrite toUpperCase_app, <- !app_assoc.
    change (lit "<!-- " ++ ?x) with ((lit "<!-- ") ++ x).
    rewrite !startsWith_app_same.
    rewrite <- (app_nil_r (lit "_LINKS_END -->")) at 1.
    apply marker_tail_shift.
    + destruct suffix; [contradiction | discriminate].
    + apply upper_key_no_space in Hkey.
      rewrite toUpperCase_app, forallb_app, andb_true_iff in Hkey.
      apply Hkey.
Qed.

Lemma addLinkToCategory_inserts_before_own_marker_witness :
  exists c p,
    Manager.findCategory (Analyzer.extractCategories (mkAnalyzer devDocument))
      (lit "dev") = Some c
    /\ key c = lit "dev"
    /\ indexOf (Manager.linksEndMarker (lit "dev")) devDocument = Some p
    /\ Manager.addLinkToCategory sampleTab (lit "dev") (newManager devDocument)
       = (Returned tt,
          mkManager (firstn p devDocument
                     ++ HTML_TEMPLATES.link sampleTab (layout c)
                     ++ lit "
      " ++ skipn p devDocument) (mkAnalyzer devDocument))
    /\ startsWith (Manager.linksEndMarker (lit "dev")) (skipn p devDocument)
       = true
    /\ (forall q, q < p ->
        startsWith (Manager.linksEndMarker (lit "dev")) (skipn q devDocument)
        = false)
    /\ startsWith (Manager.linksEndMarker (lit "dev_tools"))
         (skipn p devDocument) = false.
Proof.
  apply (addLinkToCategory_inserts_before_own_marker devDocument sampleTab
           (lit "dev") (lit "dev_tools") (lit "_tools")
           devCategory devToolsCategory).
  - vm_compute. auto.
  - reflexivity.
  - vm_compute. auto.
  - reflexivity.
  - reflexivity.
  - discriminate.
  - vm_compute. reflexivity.
  - vm_compute. reflexivity.
Defined.

(** C2, counterexample.  The section pattern takes every text without a
    double quote as a key.  In [prefixMarkerDocument] the analyzer finds
    the categories [a_links_end -->x], with the cards layout, and [a], with
    the compact layout; the key [a] is a proper prefix of the other.  The
    marker of [a] occurs first at the place where the marker of the longer
    key starts, in the section of the longer key:
    [addLinkToCategory(tabInfo, a)] returns and puts the fragment, rendered
    with the compact layout of [a], directly before the marker of the
    longer key. *)
Lemma link_lands_before_longer_key_marker :
  let d := prefixMarkerDocument in
  map (fun c => (key c, layout c)) (Analyzer.extractCategories (mkAnalyzer d))
  = [(longKey, Cards); (lit "a", Compact)]
  /\ longKey = lit "a" ++ lit "_links_end -->x"
  /\ exists p,
       indexOf (Manager.linksEndMarker (lit "a")) d = Some p
       /\ Manager.addLinkToCategory sampleTab (lit "a") (newManager d)
          = (Returned tt,
             mkManager (firstn p d ++ HTML_TEMPLATES.link sampleTab Compact
                        ++ lit "
      " ++ skipn p d) (mkAnalyzer d))
       /\ startsWith (Manager.linksEndMarker longKey) (skipn p d) = true
       /\ indexOf (Manager.linksEndMarker longKey) d = Some p.
Proof.
  cbv zeta. split; [vm_compute; reflexivity|].
  split; [reflexivity|].
  destruct (indexOf (Manager.linksEndMarker (lit "a")) prefixMarkerDocument)
    as [p|] eqn:Hp; [|vm_compute in Hp; discriminate].
  exists p. split; [reflexivity|].
  assert (Ep : Some p
               = indexOf (Manager.linksEndMarker (lit "a"))
                   prefixMarkerDocument) by (symmetry; exact Hp).
  vm_compute in Ep. injection Ep as ->.
  repeat split; vm_compute; reflexivity.
Qed.

(** ** The container of a category *)

(** C6.  The container key [my_links], which [createNewContainer] derives
    from the name [My Links], has an underscore, and the pattern of
    [findContainerForCategory] captures a key without underscores: for the
    category [c1] that the content manager has put into that container, the
    start marker of the container precedes the section of the category, and
    yet [findContainerForCategory] returns [null], so that the analyzer
    reports the container of the category as [unknown]. *)
Theorem findContainerForCategory_misses_underscore_keys :
  containerKeyOfName (lit "My Links") = lit "my_links"
  /\ (exists sectionPos,
        indexOf (Analyzer.sectionId (lit "c1")) myLinksDocument
        = Some sectionPos
        /\ includes (Manager.startMarker (lit "my_links"))
             (substring myLinksDocument 0 sectionPos) = true)
  /\ Analyzer.findContainerForCategory (mkAnalyzer myLinksDocument) (lit "c1")
     = None
  /\ map containerKey (Analyzer.extractCategories (mkAnalyzer myLinksDocument))
     = [lit "unknown"].
Proof.
  split; [reflexivity|]. split.
  - eexists. split; vm_compute; reflexivity.
  - split; vm_compute; reflexivity.
Qed.

(** ** Searching texts with unknown pieces

    The texts the templates produce are literal characters around pieces
    that are only known by their character class.  The lemmas below move a
    search over a literal character or over such a piece. *)

Lemma all_ascii_complete (c : ascii) : In c all_ascii.
Proof.
  unfold all_ascii. apply in_map_iff. exists (nat_of_ascii c).
  split; [apply ascii_nat_embedding|].
  apply in_seq. pose proof (nat_ascii_bounded c). lia.
Qed.

Lemma forall_ascii (f : ascii -> bool) :
  forallb f all_ascii = true -> forall c, f c = true.
Proof.
  intros H c. rewrite forallb_forall in H. apply H, all_ascii_complete.
Qed.

(** A piece of one class is a piece of every wider class. *)
Lemma forallb_weaken (P Q : ascii -> bool) (x : str) :
  forallb P x = true ->
  forallb (fun c => implb (P c) (Q c)) all_ascii = true ->
  forallb Q x = true.
Proof.
  intros HP HPQ. pose proof (forall_ascii _ HPQ) as HQ. simpl in HQ.
  rewrite forallb_forall in *. intros c Hc.
  specialize (HQ c). rewrite (HP c Hc) in HQ. exact HQ.
Qed.

Lemma forallb_map_weaken (P Q : ascii -> bool) (f : ascii -> ascii) (x : str) :
  forallb P x = true ->
  forallb (fun c => implb (P c) (Q (f c))) all_ascii = true ->
  forallb Q (map f x) = true.
Proof.
  intros HP HPQ. pose proof (forall_ascii _ HPQ) as HQ. simpl in HQ.
  rewrite forallb_forall in *. intros c Hc.
  apply in_map_iff in Hc as (c0 & <- & Hc0).
  specialize (HQ c0). rewrite (HP c0 Hc0) in HQ. exact HQ.
Qed.

Lemma startsWith_nth (p s : str) :
  startsWith p s = true ->
  forall j c, nth_error p j = Some c -> nth_error s j = Some c.
Proof.
  intros H. apply startsWith_spec in H as [t ->]. intros j c Hj.
  rewrite nth_error_app1; [exact Hj|].
  apply nth_error_Some. congruence.
Qed.

Lemma nth_error_forallb (P : ascii -> bool) (s : str) (j : nat) (c : ascii) :
  forallb P s = true -> nth_error s j = Some c -> P c = true.
Proof.
  intros H Hj. rewrite forallb_forall in H. apply H.
  eapply nth_error_In; eassumption.
Qed.

(** A character of the needle that the piece [x] does not have, and that
    is not among the characters that follow [x] too closely, keeps the
    needle from starting inside [x]. *)
Lemma misses_anchor (j : nat) (ch : ascii) (needle x s : str) :
  nth_error needle j = Some ch ->
  forallb (is_not ch) x = true ->
  forallb (is_not ch) (firstn j s) = true ->
  misses needle x s.
Proof.
  intros Hn Hx Hs a b -> Hb.
  destruct (startsWith needle (b ++ s)) eqn:E; [|reflexivity].
  pose proof (startsWith_nth _ _ E _ _ Hn) as Hj.
  rewrite forallb_app, andb_true_iff in Hx. destruct Hx as [_ Hx].
  assert (Hch : is_not ch ch = true).
  { destruct (Nat.lt_ge_cases j (length b)) as [Hlt|Hge].
    - rewrite nth_error_app1 in Hj by exact Hlt.
      exact (nth_error_forallb _ b j ch Hx Hj).
    - rewrite nth_error_app2 in Hj by exact Hge.
      apply (nth_error_forallb _ (firstn j s) (j - length b) ch Hs).
      rewrite nth_error_firstn.
      destruct b; [contradiction|]. simpl in *.
      destruct (Nat.ltb_spec (j - S (length b)) j); [exact Hj | lia]. }
  unfold is_not in Hch. now rewrite Ascii.eqb_refl in Hch.
Qed.

Lemma indexOf_here (needle s : str) :
  startsWith needle s = true -> indexOf needle s = Some 0.
Proof. intros H. destruct s; simpl; now rewrite H. Qed.

Lemma indexOf_cons (needle : str) (c : ascii) (s : str) (p : nat) :
  startsWith needle (c :: s) = false ->
  indexOf needle s = Some p -> indexOf needle (c :: s) = Some (S p).
Proof. intros H Hp. simpl. now rewrite H, Hp. Qed.

Lemma indexOf_cons_None (needle : str) (c : ascii) (s : str) :
  startsWith needle (c :: s) = false ->
  indexOf needle s = None -> indexOf needle (c :: s) = None.
Proof. intros H Hp. simpl. now rewrite H, Hp. Qed.

Lemma indexOf_app (needle x s : str) (p : nat) :
  misses needle x s ->
  indexOf needle s = Some p -> indexOf needle (x ++ s) = Some (length x + p).
Proof.
  intros Hm Hp. induction x as [|c x IH]; [exact Hp|].
  simpl. apply indexOf_cons.
  - apply (Hm [] (c :: x)); [reflexivity | discriminate].
  - apply IH. intros a b -> Hb. apply (Hm (c :: a) b); auto.
Qed.

Lemma indexOf_app_None (needle x s : str) :
  misses needle x s ->
  indexOf needle s = None -> indexOf needle (x ++ s) = None.
Proof.
  intros Hm Hp. induction x as [|c x IH]; [exact Hp|].
  simpl. apply indexOf_cons_None.
  - apply (Hm [] (c :: x)); [reflexivity | discriminate].
  - apply IH. intros a b -> Hb. apply (Hm (c :: a) b); auto.
Qed.

Lemma indexOf_nil_None (c : ascii) (needle : str) :
  indexOf (c :: needle) [] = None.
Proof. reflexivity. Qed.

Lemma includes_None (needle s : str) :
  indexOf needle s = None -> includes needle s = false.
Proof. unfold includes. now intros ->. Qed.

Lemma includes_Some (needle s : str) (p : nat) :
  indexOf needle s = Some p -> includes needle s = true.
Proof. unfold includes. now intros ->. Qed.

Lemma startsWith_cons_neq (a b : ascii) (n s : str) :
  Ascii.eqb a b = false -> startsWith (a :: n) (b :: s) = false.
Proof. intros H. simpl. now rewrite H. Qed.

Lemma startsWith_cons_same (a : ascii) (n s : str) :
  startsWith n s = false -> startsWith (a :: n) (a :: s) = false.
Proof. intros H. simpl. now rewrite H, andb_false_r. Qed.

Lemma startsWith_app_same_false (x n s : str) :
  startsWith n s = false -> startsWith (x ++ n) (x ++ s) = false.
Proof. now rewrite startsWith_app_same. Qed.

Lemma startsWith_cons_nil (a : ascii) (n : str) : startsWith (a :: n) [] = false.
Proof. reflexivity. Qed.

(** A needle that goes on with a character the piece [x] does not have
    does not start with [x] and go on into a text that has another
    character there. *)
Lemma startsWith_piece_neq (P : ascii -> bool) (a b : ascii) (x n s : str) :
  forallb P x = true -> P a = false -> Ascii.eqb a b = false ->
  startsWith (a :: n) (x ++ b :: s) = false.
Proof.
  intros Hx Ha Hab. destruct x as [|c x]; simpl.
  - now rewrite Hab.
  - simpl in Hx. apply andb_true_iff in Hx as [Hc _].
    destruct (Ascii.eqb_spec a c) as [->|]; [congruence | reflexivity].
Qed.

Lemma firstn_add_app (x s : str) (p : nat) :
  firstn (length x + p) (x ++ s) = x ++ firstn p s.
Proof. now rewrite firstn_app_2. Qed.

Lemma skipn_add_app (x s : str) (p : nat) :
  skipn (length x + p) (x ++ s) = skipn p s.
Proof.
  rewrite skipn_app.
  replace (length x + p - length x) with p by lia.
  now rewrite skipn_all2 by lia.
Qed.

(** Tactics.  [class_fact] proves that a piece is of a class from a
    hypothesis that puts it in a narrower class. *)
Ltac class_fact :=
  match goal with
  | |- forallb _ [] = true => reflexivity
  | H : forallb ?P ?x = true |- forallb ?Q ?x = true =>
      exact (forallb_weaken P Q x H eq_refl)
  | H : forallb ?P ?x = true |- forallb ?Q (toUpperCase ?x) = true =>
      exact (forallb_map_weaken P Q upper_char x H eq_refl)
  end.

(** [starts_false] proves that the needle does not start the text, by the
    first character that differs. *)
Ltac starts_false :=
  repeat first
    [ apply startsWith_cons_nil
    | apply startsWith_cons_neq; reflexivity
    | apply startsWith_cons_same
    | apply startsWith_app_same_false ].

(** [misses_at j] proves [misses] by the character of the needle at
    offset [j]. *)
Ltac misses_at j :=
  eapply (misses_anchor j);
  [ reflexivity | class_fact | reflexivity ].

Ltac misses_any :=
  first [ misses_at 0 | misses_at 1 | misses_at 2 | misses_at 3 | misses_at 4 ].

(** [find_index] solves [indexOf needle text = Some ?p] for a text in normal
    form, leaving [?p] as the path to the first occurrence. *)
Ltac skip_char :=
  first [ apply indexOf_cons; [ solve [starts_false] | ]
        | apply indexOf_app; [ solve [misses_any] | ] ].

Ltac find_index :=
  repeat skip_char; apply indexOf_here; solve [starts].

(** [find_none] solves [indexOf needle text = None]. *)
Ltac find_none :=
  repeat first
    [ apply indexOf_nil_None
    | apply indexOf_cons_None; [ solve [starts_false] | ]
    | apply indexOf_app_None; [ solve [misses_any] | ] ].

(** ** The existence checks *)

Lemma numToString_digits (n : N) : forallb is_digit (numToString n) = true.
Proof.
  unfold numToString. induction (N.to_uint n); simpl; auto.
Qed.

Lemma numToString_nonempty (n : N) : numToString n <> [].
Proof.
  unfold numToString. destruct n as [|p]; [discriminate|].
  simpl. unfold Pos.to_uint.
  pose proof (DecimalPos.Unsigned.to_uint_nonnil p) as H.
  unfold Pos.to_uint in H.
  destruct (Decimal.rev (Pos.to_little_uint p)); try discriminate.
  contradiction.
Qed.

Lemma escaped_class (s : str) : forallb is_escaped_char (escaped s) = true.
Proof. apply escaped_no_special. Qed.

(** Two texts without double quote, each followed by a double quote: the
    one starts the other only if they are equal. *)
Lemma startsWith_upto_quote (a b n s : str) :
  forallb (is_not dquote) a = true -> forallb (is_not dquote) b = true ->
  a <> b -> startsWith (a ++ dquote :: n) (b ++ dquote :: s) = false.
Proof.
  revert b; induction a as [|x a IH]; intros b Ha Hb Hab.
  - destruct b as [|y b]; [contradiction|].
    cbn [forallb] in Hb. apply andb_true_iff in Hb as [Hy _].
    unfold is_not in Hy. apply negb_true_iff in Hy.
    cbn [app]. apply startsWith_cons_neq. now rewrite Ascii.eqb_sym.
  - cbn [forallb] in Ha. apply andb_true_iff in Ha as [Hx Ha].
    destruct b as [|y b]; cbn [app].
    + unfold is_not in Hx. apply negb_true_iff in Hx.
      now apply startsWith_cons_neq.
    + cbn [forallb] in Hb. apply andb_true_iff in Hb as [_ Hb].
      destruct (Ascii.eqb_spec x y) as [->|Hxy].
      * apply startsWith_cons_same. apply IH; auto. congruence.
      * apply startsWith_cons_neq. now apply Ascii.eqb_neq.
Qed.

Lemma startsWith_key_tail (a b u v n s : str) :
  forallb (is_not dquote) a = true -> forallb (is_not dquote) b = true ->
  forallb (is_not dquote) u = true -> forallb (is_not dquote) v = true ->
  a ++ u <> b ++ v ->
  startsWith (a ++ u ++ dquote :: n) (b ++ v ++ dquote :: s) = false.
Proof.
  intros Ha Hb Hu Hv Hne. rewrite !app_assoc.
  apply startsWith_upto_quote; auto; rewrite forallb_app; now apply andb_true_iff.
Qed.

Lemma app_last_neq (a b u v : str) (x y : ascii) :
  x <> y -> a ++ u ++ [x] <> b ++ v ++ [y].
Proof.
  intros Hxy H. rewrite !app_assoc in H.
  apply app_inj_tail in H as [_ H]. contradiction.
Qed.




(** ** The matcher on texts with unknown pieces *)

Lemma strip_app (l s : str) : strip false l (l ++ s) = Some s.
Proof. now apply strip_exact. Qed.


Section Runs.
Variable A : Type.
Variable cls : ascii -> bool.

Lemma rep_greedy_giveback (v s : str) (caps : captures) (k : cont A) :
  forallb cls v = true -> run_ends cls s ->
  (forall v1 v2, v = v1 ++ v2 -> v1 <> [] -> k (v2 ++ s) caps = None) ->
  rep_greedy cls 0 (v ++ s) caps k = k (v ++ s) caps.
Proof.
  induction v as [|c v IH]; intros Hv Hs Hk.
  - simpl. destruct s as [|c s]; [reflexivity|].
    simpl in Hs. simpl. now rewrite Hs.
  - simpl in Hv. apply andb_true_iff in Hv as [Hc Hv].
    simpl. rewrite Hc, IH; auto.
    + now rewrite (Hk [c] v eq_refl) by discriminate.
    + intros v1 v2 -> Hne. apply (Hk (c :: v1) v2); [reflexivity|discriminate].
Qed.

(** The run takes [w] and gives back [v], when the continuation fails
    after every longer run and succeeds after [w]. *)
Lemma rep_greedy_back (w v s : str) (min : nat) (caps : captures)
    (k : cont A) (x : A) :
  forallb cls w = true -> forallb cls v = true -> run_ends cls s ->
  min <= length w ->
  (forall v1 v2, v = v1 ++ v2 -> v1 <> [] -> k (v2 ++ s) caps = None) ->
  k (v ++ s) caps = Some x ->
  rep_greedy cls min (w ++ v ++ s) caps k = Some x.
Proof.
  revert min; induction w as [|c w IH]; intros min Hw Hv Hs Hm Hk Hx.
  - simpl in Hm. replace min with 0 by lia. simpl app.
    now rewrite rep_greedy_giveback.
  - simpl in Hw. apply andb_true_iff in Hw as [Hc Hw].
    simpl. rewrite Hc, (IH (Nat.pred min)); auto. simpl in Hm. lia.
Qed.

Lemma rep_greedy_full (w s : str) (min : nat) (caps : captures)
    (k : cont A) (x : A) :
  forallb cls w = true -> run_ends cls s -> min <= length w ->
  k s caps = Some x ->
  rep_greedy cls min (w ++ s) caps k = Some x.
Proof.
  intros Hw Hs Hm Hx.
  apply (rep_greedy_back w [] s min caps k x); auto.
  intros [|? ?] v2 H Hne; [contradiction | discriminate].
Qed.
End Runs.

Arguments rep_greedy_back {A} cls w v s min caps k x.
Arguments rep_greedy_full {A} cls w s min caps k x.

Lemma firstn_consumed (w s : str) :
  firstn (length (w ++ s) - length s) (w ++ s) = w.
Proof. now rewrite length_app, Nat.add_sub, firstn_app_exact. Qed.

(** The scans, one step at a time. *)
Lemma match_here_miss (l : str) (r : regex) (s : str) :
  startsWith l s = false -> match_here false (RSeq (RChars l) r) s = None.
Proof.
  intros H. apply strip_startsWith in H.
  unfold match_here. simpl. now rewrite H.
Qed.

Lemma exec_all_cons_miss (l : str) (r : regex) (c : ascii) (s : str)
    (pos : nat) (L : list rx_match) :
  startsWith l (c :: s) = false ->
  exec_all (RSeq (RChars l) r) 0 (S pos) s = L ->
  exec_all (RSeq (RChars l) r) 0 pos (c :: s) = L.
Proof.
  intros H HL. cbn [exec_all]. now rewrite (match_here_miss _ _ _ H).
Qed.

Lemma exec_all_app_miss (l : str) (r : regex) (x s : str) (pos : nat)
    (L : list rx_match) :
  misses l x s ->
  exec_all (RSeq (RChars l) r) 0 (length x + pos) s = L ->
  exec_all (RSeq (RChars l) r) 0 pos (x ++ s) = L.
Proof.
  revert pos; induction x as [|c x IH]; intros pos Hm HL; [exact HL|].
  cbn [app]. apply exec_all_cons_miss.
  - apply (Hm [] (c :: x)); [reflexivity | discriminate].
  - apply IH.
    + intros a b -> Hb. apply (Hm (c :: a) b); auto.
    + rewrite <- HL. f_equal. simpl. lia.
Qed.

Lemma exec_all_hit (r : regex) (c : ascii) (s : str) (pos n : nat)
    (caps : captures) (L : list rx_match) :
  match_here false r (c :: s) = Some (n, caps) ->
  exec_all r (Nat.pred n) (S pos) s = L ->
  exec_all r 0 pos (c :: s) = mkMatch pos n caps :: L.
Proof. intros H HL. cbn [exec_all]. now rewrite H, HL. Qed.

Lemma exec_all_skip (r : regex) (w s : str) (pos : nat) (L : list rx_match) :
  exec_all r 0 (length w + pos) s = L ->
  exec_all r (length w) pos (w ++ s) = L.
Proof.
  revert pos; induction w as [|c w IH]; intros pos HL; [exact HL|].
  cbn [app length exec_all]. apply IH. rewrite <- HL. f_equal. simpl. lia.
Qed.

Lemma exec_all_skip_cons (r : regex) (c : ascii) (s : str) (n pos : nat)
    (L : list rx_match) :
  exec_all r n (S pos) s = L -> exec_all r (S n) pos (c :: s) = L.
Proof. intros HL. exact HL. Qed.

Lemma exec_all_skip_app (r : regex) (x s : str) (n pos : nat)
    (L : list rx_match) :
  exec_all r n (length x + pos) s = L ->
  exec_all r (length x + n) pos (x ++ s) = L.
Proof.
  revert pos; induction x as [|c x IH]; intros pos HL; [exact HL|].
  cbn [app length Nat.add]. apply exec_all_skip_cons, IH.
  rewrite <- HL. f_equal. simpl. lia.
Qed.

Lemma exec_all_end (r : regex) (skip pos : nat) : exec_all r skip pos [] = [].
Proof. reflexivity. Qed.




Ltac scan_step :=
  first [ apply exec_all_cons_miss; [ solve [starts_false] | ]
        | apply exec_all_app_miss; [ solve [misses_any] | ]
        | apply exec_all_end ].

Ltac scan := repeat scan_step.



(** The first occurrence, with the text before and after it. *)
Lemma index_at_here (needle s : str) :
  startsWith needle s = true -> index_at needle s 0 [] s.
Proof. intros H. repeat split. now apply indexOf_here. Qed.

Lemma index_at_cons (needle : str) (c : ascii) (s : str) (p : nat)
    (pre post : str) :
  startsWith needle (c :: s) = false ->
  index_at needle s p pre post ->
  index_at needle (c :: s) (S p) (c :: pre) post.
Proof.
  intros H (Hi & Hp & Hs). repeat split.
  - now apply indexOf_cons.
  - simpl. now rewrite Hp.
  - simpl. now rewrite Hs.
Qed.

Lemma index_at_app (needle x s : str) (p : nat) (pre post : str) :
  misses needle x s ->
  index_at needle s p pre post ->
  index_at needle (x ++ s) (length x + p) (x ++ pre) post.
Proof.
  intros H (Hi & Hp & Hs). repeat split.
  - now apply indexOf_app.
  - rewrite length_app. now rewrite Hp.
  - rewrite <- app_assoc. now rewrite Hs.
Qed.

Lemma index_at_firstn (needle s : str) (p : nat) (pre post : str) :
  index_at needle s p pre post -> firstn p s = pre.
Proof. intros (_ & -> & ->). apply firstn_app_exact. Qed.

Lemma index_at_skipn (needle s : str) (p : nat) (pre post : str) :
  index_at needle s p pre post -> skipn p s = post.
Proof. intros (_ & -> & ->). apply skipn_app_exact. Qed.

(** [find_at] solves [index_at needle text ?p ?pre ?post] for a text in
    normal form. *)
Ltac find_at :=
  repeat first
    [ apply index_at_cons; [ solve [starts_false] | ]
    | apply index_at_app; [ solve [misses_any] | ] ];
  apply index_at_here; solve [starts].

Lemma substring_middle (a m y z : str) :
  substring (a ++ m ++ y ++ z) (length a + length m) (length (a ++ m ++ y))
  = y.
Proof.
  unfold substring. rewrite !length_app.
  rewrite Nat.min_l, Nat.max_r by lia.
  replace (length a + (length m + length y) - (length a + length m))
    with (length y) by lia.
  rewrite (app_assoc a m), <- length_app, skipn_app_exact.
  apply firstn_app_exact.
Qed.

(** ** The patterns of the analyzer on the tags of the templates *)

Lemma space_not_word (sp s : str) :
  forallb is_space sp = true -> 1 <= length sp -> run_ends is_word (sp ++ s).
Proof.
  destruct sp as [|c sp]; simpl; [lia|].
  intros H _. apply andb_true_iff in H as [H _].
  revert H. destruct c as [b0 b1 b2 b3 b4 b5 b6 b7].
  destruct b0, b1, b2, b3, b4, b5, b6, b7; vm_compute; congruence.
Qed.

(** Lengths of texts with literals. *)
Ltac lengths :=
  rewrite ?length_app;
  repeat match goal with
         | |- context [length (lit ?L)] =>
             let v := eval vm_compute in (length (lit L)) in
             change (length (lit L)) with v
         end;
  cbn [length]; lia.

(** The section pattern matches a section tag, whatever follows it, and
    captures its class, its accent and its key. *)
Lemma sectionRegex_match (w1 sp w2 k rest : str) :
  forallb is_word w1 = true -> 1 <= length w1 ->
  forallb is_space sp = true -> 1 <= length sp ->
  forallb is_word w2 = true -> 1 <= length w2 ->
  forallb (is_not dquote) k = true -> 1 <= length k ->
  match_here false Analyzer.sectionRegex
    (lit "<section class=`" ++ lit "section-" ++ w1 ++ sp ++ lit "accent-"
     ++ w2 ++ lit "` id=`" ++ k ++ lit "-section" ++ lit "`>" ++ rest)
  = Some (length (lit "<section class=`" ++ lit "section-" ++ w1 ++ sp
                  ++ lit "accent-" ++ w2 ++ lit "` id=`" ++ k
                  ++ lit "-section" ++ lit "`>"),
          [(3, k); (2, w2); (1, lit "section-" ++ w1)]).
Proof.
  intros Hw1 Hl1 Hsp Hlsp Hw2 Hl2 Hk Hlk.
  unfold match_here, Analyzer.sectionRegex.
  cbn [rmatch plus star]. rewrite strip_app. cbv beta iota.
  rewrite strip_app. cbv beta iota.
  apply rep_greedy_full; [assumption | now apply space_not_word | assumption |].
  cbv beta.
  apply rep_greedy_full; [assumption | reflexivity | assumption |].
  cbv beta. rewrite strip_app. cbv beta iota.
  apply rep_greedy_full; [assumption | reflexivity | assumption |].
  cbv beta. rewrite strip_app. cbv beta iota.
  apply rep_greedy_back;
    [assumption | reflexivity | reflexivity | assumption | |].
  - intros v1 v2 Hv Hne.
    do 9 (destruct v1 as [|? v1];
          [ try contradiction; injection Hv; intros; subst; reflexivity |]).
    discriminate.
  - cbv beta.
    replace (lit "-section" ++ lit "`>" ++ rest)
      with (lit "-section`>" ++ rest) by reflexivity.
    rewrite strip_app. cbv beta iota.
    rewrite !firstn_consumed.
    f_equal. f_equal.
    + lengths.
    + f_equal. f_equal. f_equal. f_equal.
      rewrite (app_assoc (lit "section-") w1), firstn_consumed. reflexivity.
Qed.

(** The container pattern matches a container tag and captures its column
    count and its key. *)
Lemma containerRegex_match (n k rest : str) :
  forallb is_digit n = true -> 1 <= length n ->
  forallb (is_not dquote) k = true -> 1 <= length k ->
  match_here false Analyzer.containerRegex
    (lit "<div class=`layout-container layout-" ++ n ++ lit "col` id=`" ++ k
     ++ lit "-container" ++ lit "`>" ++ rest)
  = Some (length (lit "<div class=`layout-container layout-" ++ n
                  ++ lit "col` id=`" ++ k ++ lit "-container" ++ lit "`>"),
          [(2, k); (1, n)]).
Proof.
  intros Hn Hln Hk Hlk.
  unfold match_here, Analyzer.containerRegex.
  cbn [rmatch plus star]. rewrite strip_app. cbv beta iota.
  apply rep_greedy_full; [assumption | reflexivity | assumption |].
  cbv beta. rewrite strip_app. cbv beta iota.
  apply rep_greedy_back;
    [assumption | reflexivity | reflexivity | assumption | |].
  - intros v1 v2 Hv Hne.
    do 11 (destruct v1 as [|? v1];
           [ try contradiction; injection Hv; intros; subst; reflexivity |]).
    discriminate.
  - cbv beta.
    replace (lit "-container" ++ lit "`>" ++ rest)
      with (lit "-container`>" ++ rest) by reflexivity.
    rewrite strip_app. cbv beta iota.
    rewrite !firstn_consumed.
    f_equal. f_equal. lengths.
Qed.



(** Reading back a number that was written in decimal. *)
Lemma parseInt_numToString (n : N) : parseInt (numToString n) = Some n.
Proof.
  unfold parseInt, numToString.
  rewrite String.string_of_list_ascii_of_string, DecimalString.NilEmpty.usu.
  simpl. now rewrite DecimalN.Unsigned.of_to.
Qed.

Lemma escaped_plain (s : str) :
  forallb (fun c => negb (Ascii.eqb c "&"%char || is_html_special c)) s = true ->
  escaped s = s.
Proof.
  induction s as [|c s IH]; [reflexivity|].
  cbn [forallb]. rewrite andb_true_iff. intros [Hc Hs].
  unfold escaped in *. cbn [flat_map]. rewrite (IH Hs).
  unfold escape_char, is_html_special in *.
  apply negb_true_iff in Hc. rewrite !orb_false_iff in Hc.
  destruct Hc as (-> & (-> & ->) & ->). reflexivity.
Qed.

(** ** The composed document *)

Lemma container_cut (containerKey : str) (columns : N) :
  Manager.newline ++ HTML_TEMPLATES.container containerKey columns
  = containerHead containerKey columns ++ containerTail containerKey.
Proof.
  unfold HTML_TEMPLATES.container, containerHead, containerTail.
  norm_str. reflexivity.
Qed.

Lemma category_cut (category : Category) (layout : Layout) :
  HTML_TEMPLATES.category category layout
  = categoryHead category layout ++ categoryTail category.
Proof.
  unfold HTML_TEMPLATES.category, categoryHead, categoryTail.
  rewrite !escapeHtml_escaped. norm_str. reflexivity.
Qed.

Lemma key_no_syntax (k : str) :
  forallb is_key_char k = true -> existsb is_syntax k = false.
Proof.
  intros H. apply not_true_is_false. intros E.
  apply existsb_exists in E as (c & Hc & Hs).
  rewrite forallb_forall in H. specialize (H c Hc).
  revert H Hs. destruct c as [b0 b1 b2 b3 b4 b5 b6 b7].
  destruct b0, b1, b2, b3, b4, b5, b6, b7; vm_compute; congruence.
Qed.


Lemma hex_digit_uri (n : nat) : is_uri_char (hex_digit n) = true.
Proof.
  unfold hex_digit.
  do 16 (destruct n as [|n]; [reflexivity|]). destruct n; reflexivity.
Qed.

Lemma encodeURIComponent_class (s : str) :
  forallb is_uri_char (encodeURIComponent s) = true.
Proof.
  induction s as [|c s IH]; [reflexivity|].
  unfold encodeURIComponent in *. cbn [flat_map].
  rewrite forallb_app, IH, andb_true_r.
  destruct (is_unreserved c) eqn:E.
  - cbn [forallb]. unfold is_uri_char. now rewrite E.
  - destruct (code c <? 128); unfold percent; cbn [forallb app];
      rewrite ?hex_digit_uri; reflexivity.
Qed.

(** Two texts without the character [ch], each followed by [ch]: the one
    starts the other only if they are equal. *)
Lemma startsWith_upto (ch : ascii) (a b n s : str) :
  forallb (is_not ch) a = true -> forallb (is_not ch) b = true ->
  a <> b -> startsWith (a ++ ch :: n) (b ++ ch :: s) = false.
Proof.
  revert b; induction a as [|x a IH]; intros b Ha Hb Hab.
  - destruct b as [|y b]; [contradiction|].
    cbn [forallb] in Hb. apply andb_true_iff in Hb as [Hy _].
    unfold is_not in Hy. apply negb_true_iff in Hy.
    cbn [app]. apply startsWith_cons_neq. now rewrite Ascii.eqb_sym.
  - cbn [forallb] in Ha. apply andb_true_iff in Ha as [Hx Ha].
    destruct b as [|y b]; cbn [app].
    + unfold is_not in Hx. apply negb_true_iff in Hx.
      now apply startsWith_cons_neq.
    + cbn [forallb] in Hb. apply andb_true_iff in Hb as [_ Hb].
      destruct (Ascii.eqb_spec x y) as [->|Hxy].
      * apply startsWith_cons_same. apply IH; auto. congruence.
      * apply startsWith_cons_neq. now apply Ascii.eqb_neq.
Qed.

Lemma startsWith_upto_eq (ch : ascii) (a b N T n s : str) :
  N = a ++ ch :: n -> T = b ++ ch :: s ->
  forallb (is_not ch) a = true -> forallb (is_not ch) b = true ->
  a <> b -> startsWith N T = false.
Proof. intros -> ->. apply startsWith_upto. Qed.


(** A needle that begins with a piece of the class [P] and goes on with
    [n] does not start a text whose character [c] is not of the class,
    when [n] starts at none of the places before [c]. *)
Lemma startsWith_piece_text (P : ascii -> bool) (x n t1 : str) (c : ascii)
    (t2 : str) :
  forallb P x = true -> P c = false ->
  Forall (fun v => startsWith n (v ++ c :: t2) = false) (tails t1) ->
  startsWith (x ++ n) (t1 ++ c :: t2) = false.
Proof.
  revert t1; induction x as [|a x IH]; intros t1 Hx Hc Ht.
  - destruct t1; inversion Ht; assumption.
  - cbn [forallb] in Hx. apply andb_true_iff in Hx as [Ha Hx].
    destruct t1 as [|b t1]; cbn [app].
    + apply startsWith_cons_neq. apply Ascii.eqb_neq. congruence.
    + destruct (Ascii.eqb_spec a b) as [->|Hab].
      * apply startsWith_cons_same. apply IH; auto.
        inversion Ht; assumption.
      * apply startsWith_cons_neq. now apply Ascii.eqb_neq.
Qed.

Section Composed.
Variables (ckey : str) (columns : N) (category : Category)
          (tabInfo : TabInfo).
Hypothesis container_key_chars : forallb is_key_char ckey = true.
Hypothesis container_key_nonempty : 1 <= length ckey.
Hypothesis key_chars : forallb is_key_char (key category) = true.
Hypothesis key_nonempty : 1 <= length (key category).
Hypothesis accent_word : forallb is_word (accent category) = true.
Hypothesis accent_nonempty : 1 <= length (accent category).
Hypothesis in_container : containerKey category = ckey.

Let document1 : str :=
  containerHead ckey columns ++ containerTail ckey.

Let document2 : str :=
  containerHead ckey columns
  ++ categoryHead category (layout category) ++ categoryTail category
  ++ lit "
  " ++ containerTail ckey.

Ltac walk :=
  repeat first
    [ apply index_at_cons; [ solve [starts_false] | ]
    | apply index_at_app; [ solve [misses_any] | ] ].

Ltac hit := apply index_at_here; solve [starts].

Ltac side := first [ assumption | reflexivity | vm_compute; lia ].

Ltac piece_facts :=
  pose proof (numToString_digits columns);
  pose proof (escaped_class (name category));
  pose proof (escaped_class (description category));
  pose proof (escaped_class (title tabInfo));
  pose proof (escaped_class (host tabInfo));
  pose proof (encodeURIComponent_class (url tabInfo));
  pose proof container_key_chars;
  pose proof key_chars;
  pose proof accent_word.

Lemma addCategory_composed :
  Manager.addCategory category (newManager document1)
  = (Returned tt, newManager document2).
Proof.
  piece_facts.
  assert (Hq1 : forallb (is_not dquote) ckey = true) by class_fact.
  assert (Hq2 : forallb (is_not dquote) (key category) = true) by class_fact.
  unfold Manager.addCategory, bind, getThis, when, throw, setContent,
    setAnalyzer, ret, newManager.
  cbn [analyzer content].
  assert (E1 : Analyzer.categoryExists (mkAnalyzer document1) (key category)
               = false).
  { apply includes_None. subst document1.
    unfold Analyzer.sectionId, a_content, containerHead, containerTail.
    norm_str. find_none.
    apply indexOf_cons_None;
      [ starts_false;
        apply (startsWith_key_tail (key category) ckey
                 (lit "-section") (lit "-container"));
        auto; apply (app_last_neq _ _ (lit "-sectio") (lit "-containe"));
        discriminate
      | ].
    find_none. }
  rewrite E1. cbn [negb].
  assert (E2 : Analyzer.containerExists (mkAnalyzer document1)
                 (containerKey category) = true).
  { rewrite in_container. subst document1.
    unfold Analyzer.containerExists, Analyzer.containerId, a_content,
      containerHead, containerTail.
    norm_str. find_needle. }
  rewrite E2. cbn [negb].
  rewrite in_container.
  eassert (E3 : index_at (Manager.contentEndMarker ckey) document1 _
                  (containerHead ckey columns) (containerTail ckey)).
  { subst document1.
    unfold Manager.contentEndMarker, containerHead, containerTail.
    norm_str. find_at. }
  set (intro := lit "
<div class=`layout-container layout-" ++ numToString columns
    ++ lit "col` id=`" ++ ckey ++ lit "-container`>
  <!-- Container: " ++ ckey ++ lit " -->
  ").
  eassert (E4 : index_at (Manager.startMarker ckey) document1 _ intro
                  (Manager.startMarker ckey ++ lit "
  " ++ containerTail ckey)).
  { subst document1 intro.
    unfold Manager.startMarker, containerHead, containerTail.
    norm_str. find_at. }
  rewrite (proj1 E3), (proj1 E4).
  rewrite substring_0, (index_at_firstn _ _ _ _ _ E3).
  unfold substringFrom. rewrite (index_at_skipn _ _ _ _ _ E3).
  destruct E3 as (_ & -> & _). destruct E4 as (_ & -> & E4).
  replace (containerHead ckey columns)
    with (intro ++ Manager.startMarker ckey ++ lit "
  ") by (subst intro; unfold containerHead, Manager.startMarker;
         norm_str; reflexivity).
  rewrite E4.
  replace (intro ++ Manager.startMarker ckey ++ lit "
  " ++ containerTail ckey)
    with (intro ++ Manager.startMarker ckey ++ lit "
  " ++ containerTail ckey) at 1 by reflexivity.
  rewrite substring_middle.
  replace (trim (lit "
  ")) with (@nil ascii) by reflexivity.
  cbn [length Nat.ltb Nat.leb app].
  assert (Hdoc : (intro ++ Manager.startMarker ckey ++ lit "
  ") ++ (HTML_TEMPLATES.category category (layout category) ++ lit "
  ") ++ containerTail ckey = document2).
  { subst intro document2. rewrite category_cut.
    unfold containerHead, Manager.startMarker. norm_str. reflexivity. }
  rewrite Hdoc. reflexivity.
Qed.

Let document3 : str := composedText ckey columns category tabInfo.

(** The section pattern first matches the tag of the category. *)
Lemma sections_of_document2 :
  exists m rest,
    matchAll Analyzer.sectionRegex document2 = m :: rest
    /\ m_caps m = [(3, key category); (2, accent category);
                   (1, HTML_TEMPLATES.layoutClass (layout category))].
Proof.
  piece_facts.
  assert (Hq2 : forallb (is_not dquote) (key category) = true) by class_fact.
  unfold matchAll. subst document2.
  unfold containerHead, categoryHead, categoryTail, containerTail.
  destruct (layout category);
    unfold HTML_TEMPLATES.layoutClass, HTML_TEMPLATES.contentClass;
    norm_str; eexists; eexists; (split; [scan|]).
  - eapply exec_all_hit; [|reflexivity].
    apply (sectionRegex_match (lit "card") (lit " ") (accent category)
             (key category)); side.
  - reflexivity.
  - eapply exec_all_hit; [|reflexivity].
    apply (sectionRegex_match (lit "compact") (lit " ") (accent category)
             (key category)); side.
  - reflexivity.
  - eapply exec_all_hit; [|reflexivity].
    apply (sectionRegex_match (lit "large") (lit " ") (accent category)
             (key category)); side.
  - reflexivity.
Qed.


Lemma layoutOfClass_layoutClass (l : Layout) :
  Analyzer.layoutOfClass (HTML_TEMPLATES.layoutClass l) = l.
Proof. destruct l; reflexivity. Qed.

(** The end-of-links marker of the category first occurs where the
    category block has it. *)
Lemma linksEndMarker_at :
  exists p,
    index_at (Manager.linksEndMarker (key category)) document2 p
      (containerHead ckey columns ++ categoryHead category (layout category))
      (categoryTail category ++ lit "
  " ++ containerTail ckey).
Proof.
  piece_facts. subst document2.
  unfold Manager.linksEndMarker, containerHead, categoryHead, categoryTail,
    containerTail.
  destruct (layout category);
    unfold HTML_TEMPLATES.layoutClass, HTML_TEMPLATES.contentClass;
    norm_str; eexists.
  all: walk.
  all: (apply index_at_cons;
        [ starts_false;
          apply (startsWith_piece_text is_upper_key_char
                   (toUpperCase (key category)) _ ["C"%char] "o"%char _);
          [ class_fact | reflexivity | repeat constructor; starts_false ]
        | ]).
  all: walk.
  all: (apply index_at_cons;
        [ starts_false;
          eapply (startsWith_upto_eq " "%char
                    (toUpperCase (key category) ++ lit "_LINKS_END")
                    (lit "CONTAINER_" ++ toUpperCase ckey
                     ++ lit "_CONTENT_START"));
          [ rewrite <- ?app_assoc; reflexivity
          | rewrite <- ?app_assoc; reflexivity
          | rewrite forallb_app; apply andb_true_iff; split;
            [ class_fact | reflexivity ]
          | rewrite !forallb_app, !andb_true_iff; repeat split;
            try reflexivity; class_fact
          | intros Heq;
            apply (app_last_neq (toUpperCase (key category))
                     (lit "CONTAINER_" ++ toUpperCase ckey)
                     (lit "_LINKS_EN") (lit "_CONTENT_STAR")
                     "D"%char "T"%char);
            [ discriminate | rewrite <- !app_assoc in *; exact Heq ] ]
        | ]).
  all: walk.
  all: hit.
Qed.

Lemma addLinkToCategory_composed :
  Manager.addLinkToCategory tabInfo (key category) (newManager document2)
  = (Returned tt, mkManager document3 (mkAnalyzer document2)).
Proof.
  piece_facts.
  unfold Manager.addLinkToCategory, bind, getThis, when, throw, setContent,
    setAnalyzer, ret, newManager.
  cbn [analyzer content].
  assert (E1 : Analyzer.categoryExists (mkAnalyzer document2) (key category)
               = true).
  { subst document2.
    unfold Analyzer.categoryExists, Analyzer.sectionId, a_content,
      containerHead, categoryHead.
    destruct (layout category); unfold HTML_TEMPLATES.layoutClass;
      norm_str; find_needle. }
  rewrite E1. cbn [negb].
  destruct sections_of_document2 as (m & rest & Em & Ec).
  unfold Analyzer.extractCategories. cbn [a_content]. rewrite Em.
  cbn [map Manager.findCategory find].
  unfold Analyzer.categoryOfMatch at 1. unfold group. rewrite Ec.
  cbn [capture Nat.eqb key]. rewrite str_eqb_refl.
  unfold Analyzer.categoryOfMatch. unfold group. rewrite Ec.
  cbn [capture Nat.eqb layout]. rewrite layoutOfClass_layoutClass.
  destruct linksEndMarker_at as (p & E3).
  rewrite (proj1 E3).
  unfold slice0, substringFrom.
  rewrite (index_at_firstn _ _ _ _ _ E3), (index_at_skipn _ _ _ _ _ E3).
  subst document3. unfold composedText. rewrite <- !app_assoc. reflexivity.
Qed.

(** The content manager composes the text [composedText]. *)
Lemma composeDocument_text (containerName : str) :
  composeDocument ckey containerName columns category tabInfo = document3.
Proof.
  unfold composeDocument. unfold bind at 1. rewrite addContainer_eq.
  replace (Analyzer.containerExists (analyzer (newManager [])) ckey)
    with false by reflexivity.
  cbv zeta.
  replace (content (newManager []) ++ separator (content (newManager []))
           ++ HTML_TEMPLATES.container ckey columns)
    with document1
    by (subst document1; rewrite <- container_cut; reflexivity).
  unfold bind at 1.
  change (mkManager document1 (mkAnalyzer document1))
    with (newManager document1).
  rewrite addCategory_composed, addLinkToCategory_composed. reflexivity.
Qed.

Hypothesis url_plain : forallb (is_not "<"%char) (url tabInfo) = true.
Hypothesis icon_plain : forallb (is_not "<"%char) (iconUrl tabInfo) = true.

Ltac skip_match :=
  rewrite ?length_app; cbn [length Nat.pred];
  repeat (rewrite length_app; cbn [length]);
  repeat first [ apply exec_all_skip_cons | apply exec_all_skip_app ].


(** The section pattern matches the tag of the category, and nothing else
    in the composed document. *)
Lemma sections_of_document3 :
  exists m,
    matchAll Analyzer.sectionRegex document3 = [m]
    /\ m_caps m = [(3, key category); (2, accent category);
                   (1, HTML_TEMPLATES.layoutClass (layout category))].
Proof.
  piece_facts. pose proof url_plain. pose proof icon_plain.
  assert (Hq2 : forallb (is_not dquote) (key category) = true) by class_fact.
  unfold matchAll. subst document3.
  unfold composedText, containerHead, categoryHead, categoryTail,
    containerTail, HTML_TEMPLATES.link.
  rewrite !escapeHtml_escaped.
  destruct (layout category);
    unfold HTML_TEMPLATES.layoutClass, HTML_TEMPLATES.contentClass;
    norm_str; eexists; (split; [scan|]).
  - eapply exec_all_hit;
      [ apply (sectionRegex_match (lit "card") (lit " ") (accent category)
                 (key category)); side
      | norm_str; skip_match; scan ].
  - reflexivity.
  - eapply exec_all_hit;
      [ apply (sectionRegex_match (lit "compact") (lit " ") (accent category)
                 (key category)); side
      | norm_str; skip_match; scan ].
  - reflexivity.
  - eapply exec_all_hit;
      [ apply (sectionRegex_match (lit "large") (lit " ") (accent category)
                 (key category)); side
      | norm_str; skip_match; scan ].
  - reflexivity.
Qed.

Hypothesis name_plain : forallb is_plain_char (name category) = true.
Hypothesis name_nonempty : 1 <= length (name category).
Hypothesis description_plain :
  forallb is_plain_char (description category) = true.
Hypothesis window :
  length (key category) + length (name category)
  + length (description category) <= 344.

(** The part of the composed document before the section token, the part
    of it that the title and the description are read from, and the rest. *)
Let beforeToken : str :=
  containerHead ckey columns
  ++ lit "  <section class=`" ++ HTML_TEMPLATES.layoutClass (layout category)
  ++ lit " accent-" ++ accent category ++ lit "` ".












End Composed.




(** ** Removing the links twice *)

Lemma occ_startsWith (needle s : str) (i : nat) :
  occ needle s i -> startsWith needle (skipn i s) = true.
Proof.
  intros (a & b & -> & <-). rewrite skipn_app_exact. apply startsWith_app.
Qed.

Lemma startsWith_occ (needle s : str) (i : nat) :
  needle <> [] -> startsWith needle (skipn i s) = true -> occ needle s i.
Proof.
  intros Hne H. apply startsWith_spec in H as [b Hb].
  assert (Hi : i <= length s).
  { destruct (Nat.le_gt_cases i (length s)) as [|Hgt]; [assumption|].
    rewrite skipn_all2 in Hb by lia.
    destruct needle; [contradiction | discriminate]. }
  exists (firstn i s), b. split.
  - now rewrite <- Hb, firstn_skipn.
  - rewrite length_firstn. lia.
Qed.

Lemma indexOf_occ (needle s : str) (m : nat) :
  needle <> [] -> indexOf needle s = Some m ->
  occ needle s m /\ forall i, i < m -> ~ occ needle s i.
Proof.
  intros Hne H. destruct (indexOf_Some _ _ _ H) as (H1 & _ & H3). split.
  - now apply startsWith_occ.
  - intros i Hi Ho. apply occ_startsWith in Ho. rewrite H3 in Ho; congruence.
Qed.

Lemma indexOf_no_occ (needle s : str) :
  indexOf needle s = None -> forall i, ~ occ needle s i.
Proof.
  intros H i Ho. apply occ_startsWith in Ho.
  rewrite (indexOf_None _ _ H) in Ho. discriminate.
Qed.

Lemma lastIndexOf_None (needle s : str) :
  lastIndexOf needle s = None ->
  forall j, startsWith needle (skipn j s) = false.
Proof.
  induction s as [|c s IH]; simpl.
  - destruct (startsWith needle []) eqn:E; [discriminate|].
    intros _ j. now rewrite skipn_nil.
  - destruct (lastIndexOf needle s); [discriminate|].
    destruct (startsWith needle (c :: s)) eqn:E; [discriminate|].
    intros _ [|j]; simpl; [assumption | now apply IH].
Qed.

Lemma lastIndexOf_Some (needle s : str) (w : nat) :
  needle <> [] -> lastIndexOf needle s = Some w ->
  startsWith needle (skipn w s) = true
  /\ forall j, w < j -> startsWith needle (skipn j s) = false.
Proof.
  intros Hne. revert w; induction s as [|c s IH]; intros w; simpl.
  - destruct needle; [contradiction | discriminate].
  - destruct (lastIndexOf needle s) as [i|] eqn:E.
    + intros [= <-]. destruct (IH i eq_refl) as [H1 H2]. split; [exact H1|].
      intros [|j] Hj; [lia|]. simpl. apply H2. lia.
    + destruct (startsWith needle (c :: s)) eqn:E0; [|discriminate].
      intros [= <-]. split; [exact E0|].
      intros [|j] Hj; [lia|]. simpl. now apply lastIndexOf_None.
Qed.

Lemma lastIndexOf_occ (needle s : str) (w : nat) :
  needle <> [] -> lastIndexOf needle s = Some w ->
  occ needle s w /\ forall j, w < j -> ~ occ needle s j.
Proof.
  intros Hne H. destruct (lastIndexOf_Some _ _ _ Hne H) as [H1 H2]. split.
  - now apply startsWith_occ.
  - intros j Hj Ho. apply occ_startsWith in Ho. rewrite H2 in Ho; congruence.
Qed.

Lemma lastIndexOf_no_occ (needle s : str) :
  lastIndexOf needle s = None -> forall i, ~ occ needle s i.
Proof.
  intros H i Ho. apply occ_startsWith in Ho.
  rewrite (lastIndexOf_None _ _ H) in Ho. discriminate.
Qed.

(** The characters of an occurrence. *)
Lemma occ_nth (needle s : str) (i t : nat) (c : ascii) :
  occ needle s i -> nth_error needle t = Some c ->
  nth_error s (i + t) = Some c.
Proof.
  intros (a & b & -> & <-) Ht.
  rewrite nth_error_app2 by lia.
  replace (length a + t - length a) with t by lia.
  rewrite nth_error_app1; [exact Ht|].
  apply nth_error_Some. congruence.
Qed.

Lemma occ_bound (needle s : str) (i : nat) :
  occ needle s i -> i + length needle <= length s.
Proof. intros (a & b & -> & <-). rewrite !length_app. lia. Qed.

(** An occurrence in a prefix or in a suffix of the text. *)
Lemma app_prefix_split (L X P Y : str) :
  L ++ X = P ++ Y -> length P <= length L ->
  exists Z, L = P ++ Z /\ Y = Z ++ X.
Proof.
  intros E Hl. apply app_eq_app in E as [l [[-> ->] | [-> ->]]].
  - now exists l.
  - rewrite length_app in Hl. destruct l; [|simpl in Hl; lia].
    exists []. now rewrite !app_nil_r.
Qed.

Lemma occ_in_prefix (needle L X : str) (i : nat) :
  occ needle (L ++ X) i -> i + length needle <= length L -> occ needle L i.
Proof.
  intros (a & b & E & Ha) Hi.
  rewrite app_assoc in E.
  apply app_prefix_split in E as (Z & -> & _);
    [|rewrite length_app; lia].
  exists a, Z. now rewrite <- app_assoc.
Qed.

Lemma occ_in_suffix (needle X R : str) (i : nat) :
  occ needle (X ++ R) i -> length X <= i -> occ needle R (i - length X).
Proof.
  intros (a & b & E & Ha) Hi. symmetry in E.
  apply app_prefix_split in E as (Z & -> & ->); [|lia].
  exists Z, b. split; [reflexivity|]. rewrite length_app in Ha. lia.
Qed.

Lemma occ_app_l (needle L X : str) (i : nat) :
  occ needle L i -> occ needle (L ++ X) i.
Proof.
  intros (a & b & -> & Ha). exists a, (b ++ X). now rewrite <- !app_assoc.
Qed.

Lemma occ_app_r (needle X R : str) (i : nat) :
  occ needle R i -> occ needle (X ++ R) (length X + i).
Proof.
  intros (a & b & -> & Ha). exists (X ++ a), b.
  rewrite <- app_assoc, length_app. split; [reflexivity | lia].
Qed.

Lemma occ_here (needle a b : str) : occ needle (a ++ needle ++ b) (length a).
Proof. now exists a, b. Qed.

(** The seam.  A needle that does not begin with a white-space character
    and has no line feed occurs in a text with the blank either before the
    blank or after it. *)
Lemma occ_seam (needle L R : str) (i : nat) (c0 : ascii) :
  nth_error needle 0 = Some c0 ->
  forallb (is_not c0) blank = true ->
  forallb (is_not "010"%char) needle = true ->
  occ needle (L ++ blank ++ R) i ->
  i + length needle <= length L \/ length L + length blank <= i.
Proof.
  intros H0 Hc0 Hnl Ho.
  destruct (Nat.le_gt_cases (i + length needle) (length L)) as [|H1];
    [now left|].
  destruct (Nat.le_gt_cases (length L + length blank) i) as [|H2];
    [now right|].
  exfalso.
  destruct (Nat.le_gt_cases (length L) i) as [Hge|Hlt].
  - (* the needle begins inside the blank *)
    pose proof (occ_nth _ _ _ 0 c0 Ho H0) as Hn.
    rewrite Nat.add_0_r, nth_error_app2 in Hn by lia.
    rewrite nth_error_app1 in Hn by lia.
    pose proof (nth_error_forallb _ _ _ _ Hc0 Hn) as Hx.
    unfold is_not in Hx. now rewrite Ascii.eqb_refl in Hx.
  - (* the needle runs over the line feed of the blank *)
    destruct (nth_error needle (length L - i)) as [c|] eqn:Ec.
    + pose proof (occ_nth _ _ _ _ c Ho Ec) as Hn.
      replace (i + (length L - i)) with (length L) in Hn by lia.
      rewrite nth_error_app2, Nat.sub_diag in Hn by lia.
      simpl in Hn. injection Hn as <-.
      pose proof (nth_error_forallb _ _ _ _ Hnl Ec) as Hx.
      discriminate.
    + apply nth_error_None in Ec. lia.
Qed.

(** The cut: [L ++ B ++ R] becomes [L ++ blank ++ R]. *)
Lemma occ_after_cut (needle L B R : str) (i : nat) (c0 : ascii) :
  nth_error needle 0 = Some c0 ->
  forallb (is_not c0) blank = true ->
  forallb (is_not "010"%char) needle = true ->
  occ needle (L ++ blank ++ R) i ->
  (i + length needle <= length L /\ occ needle (L ++ B ++ R) i)
  \/ (length L + length blank <= i
      /\ occ needle (L ++ B ++ R) (length L + length B + (i - length L - length blank))).
Proof.
  intros H0 Hc0 Hnl Ho.
  destruct (occ_seam _ _ _ _ _ H0 Hc0 Hnl Ho) as [H|H].
  - left. split; [exact H|]. apply occ_app_l. eapply occ_in_prefix; eauto.
  - right. split; [exact H|].
    rewrite app_assoc in Ho. apply occ_in_suffix in Ho;
      [|rewrite length_app; lia].
    apply (occ_app_r _ (L ++ B)) in Ho.
    rewrite <- app_assoc, !length_app in Ho.
    replace (length L + length B + (i - length L - length blank))
      with (length L + length B + (i - (length L + length blank))) by lia.
    exact Ho.
Qed.

Lemma unique_after_cut (needle L B R : str) (c0 : ascii) :
  needle <> [] ->
  nth_error needle 0 = Some c0 ->
  forallb (is_not c0) blank = true ->
  forallb (is_not "010"%char) needle = true ->
  unique needle (L ++ B ++ R) -> unique needle (L ++ blank ++ R).
Proof.
  intros Hne H0 Hc0 Hnl Hu i j Hi Hj.
  assert (Hlen : 0 < length needle) by (destruct needle; [contradiction | simpl; lia]).
  destruct (occ_after_cut _ _ B _ _ _ H0 Hc0 Hnl Hi) as [[Hi1 Hi2]|[Hi1 Hi2]];
    destruct (occ_after_cut _ _ B _ _ _ H0 Hc0 Hnl Hj) as [[Hj1 Hj2]|[Hj1 Hj2]];
    pose proof (Hu _ _ Hi2 Hj2); lia.
Qed.

Lemma indexOf_intro (needle s : str) (m : nat) :
  needle <> [] -> occ needle s m -> (forall i, i < m -> ~ occ needle s i) ->
  indexOf needle s = Some m.
Proof.
  intros Hne Ho Hfirst. destruct (indexOf needle s) as [m'|] eqn:E.
  - destruct (indexOf_occ _ _ _ Hne E) as [Ho' Hf'].
    destruct (Nat.lt_trichotomy m m') as [Hlt|[->|Hgt]]; [|reflexivity|].
    + now apply Hf' in Hlt.
    + now apply Hfirst in Hgt.
  - now apply (indexOf_no_occ _ _ E) in Ho.
Qed.

Lemma indexOf_unique (needle s : str) (m : nat) :
  needle <> [] -> unique needle s -> occ needle s m ->
  indexOf needle s = Some m.
Proof.
  intros Hne Hu Ho. apply indexOf_intro; auto.
  intros i Hi Hoi. pose proof (Hu _ _ Ho Hoi). lia.
Qed.

Lemma lastIndexOf_intro (needle s : str) (w : nat) :
  needle <> [] -> occ needle s w -> (forall j, w < j -> ~ occ needle s j) ->
  lastIndexOf needle s = Some w.
Proof.
  intros Hne Ho Hlast. destruct (lastIndexOf needle s) as [w'|] eqn:E.
  - destruct (lastIndexOf_occ _ _ _ Hne E) as [Ho' Hl'].
    destruct (Nat.lt_trichotomy w w') as [Hlt|[->|Hgt]]; [|reflexivity|].
    + now apply Hlast in Hlt.
    + now apply Hl' in Hgt.
  - now apply (lastIndexOf_no_occ _ _ E) in Ho.
Qed.

(** The markers and the wrapper tags. *)
Lemma marker_nonempty (k : str) : Manager.linksEndMarker k <> [].
Proof. discriminate. Qed.

Lemma marker_first (k : str) :
  nth_error (Manager.linksEndMarker k) 0 = Some "<"%char.
Proof. reflexivity. Qed.

Lemma marker_one_line (k : str) :
  forallb is_key_char k = true ->
  forallb (is_not "010"%char) (Manager.linksEndMarker k) = true.
Proof.
  intros Hk. unfold Manager.linksEndMarker.
  rewrite !forallb_app, !andb_true_iff. repeat split; try reflexivity.
  class_fact.
Qed.

Lemma wrapper_nonempty (l : Layout) : Manager.linkContainerOpen l <> [].
Proof. destruct l; discriminate. Qed.

Lemma wrapper_first (l : Layout) :
  nth_error (Manager.linkContainerOpen l) 0 = Some "<"%char.
Proof. destruct l; reflexivity. Qed.

Lemma wrapper_one_line (l : Layout) :
  forallb (is_not "010"%char) (Manager.linkContainerOpen l) = true.
Proof. destruct l; reflexivity. Qed.

Lemma wrapper_close (l : Layout) (rest : str) :
  indexOf [">"%char] (Manager.linkContainerOpen l ++ rest)
  = Some (length (Manager.linkContainerOpen l) - 1).
Proof. destruct l; reflexivity. Qed.

Lemma wrapper_blank_tail (l : Layout) :
  forallb (is_not "<"%char) (tl (Manager.linkContainerOpen l ++ blank)) = true.
Proof. destruct l; reflexivity. Qed.

Lemma blank_no_lt : forallb (is_not "<"%char) blank = true.
Proof. reflexivity. Qed.

(** The three ways of [strip_links]: the marker is absent; no wrapper tag
    precedes the marker; the text between the last wrapper tag before the
    marker and the marker becomes the blank. *)
Lemma strip_links_cases (c : Category) (s : str) :
  let M := Manager.linksEndMarker (key c) in
  let W := Manager.linkContainerOpen (layout c) in
  (strip_links c s = s /\ forall i, ~ occ M s i)
  \/ (strip_links c s = s
      /\ exists P Q, s = P ++ M ++ Q /\ forall i, ~ occ W P i)
  \/ (exists A B C, s = A ++ W ++ B ++ M ++ C
                    /\ (forall j, length A < j -> ~ occ W (A ++ W ++ B) j)
                    /\ strip_links c s = A ++ W ++ blank ++ M ++ C).
Proof.
  intros M W. unfold strip_links. fold M W.
  destruct (indexOf M s) as [m|] eqn:Em.
  - destruct (indexOf_split _ _ _ Em) as (C & Es & Esk & Hlen).
    rewrite substring_0.
    destruct (lastIndexOf W (firstn m s)) as [w|] eqn:Ew.
    + right. right.
      destruct (lastIndexOf_occ _ _ _ (wrapper_nonempty _) Ew)
        as [(A & B & EA & HA) Hlast].
      exists A, B, C. split; [|split].
      * rewrite Es at 1. rewrite EA. now rewrite <- !app_assoc.
      * intros j Hj Ho. apply (Hlast j); [lia|]. rewrite EA. exact Ho.
      * assert (Es' : s = A ++ W ++ B ++ M ++ C).
        { rewrite Es at 1. rewrite EA. now rewrite <- !app_assoc. }
        assert (Hw : 0 < length W)
          by (unfold W; destruct (layout c); simpl; lia).
        assert (Eclose : indexOfFrom [">"%char] s w = Some (length (A ++ W) - 1)).
        { unfold indexOfFrom. rewrite Es', <- HA, skipn_app_exact.
          unfold W at 1. rewrite wrapper_close. cbn [option_map].
          f_equal. rewrite length_app. fold W. lia. }
        rewrite Eclose. unfold substringFrom. rewrite Esk.
        replace (length (A ++ W) - 1 + 1) with (length (A ++ W))
          by (rewrite length_app; lia).
        assert (Ecut : firstn (length (A ++ W)) s = A ++ W).
        { rewrite Es', app_assoc. apply firstn_app_exact. }
        rewrite substring_0, Ecut. now rewrite <- app_assoc.
    + right. left. split; [reflexivity|].
      exists (firstn m s), C. split; [exact Es|].
      now apply lastIndexOf_no_occ.
  - left. split; [reflexivity|]. now apply indexOf_no_occ.
Qed.

Lemma indexOf_None_intro (needle s : str) :
  needle <> [] -> (forall i, ~ occ needle s i) -> indexOf needle s = None.
Proof.
  intros Hne Hno. destruct (indexOf needle s) as [m|] eqn:E; [|reflexivity].
  destruct (indexOf_occ _ _ _ Hne E) as [Ho _]. now apply Hno in Ho.
Qed.

Lemma wrapper_last (l : Layout) (P : str) (j : nat) :
  length P < j ->
  ~ occ (Manager.linkContainerOpen l) (P ++ Manager.linkContainerOpen l ++ blank) j.
Proof.
  intros Hj Ho.
  apply occ_in_suffix in Ho; [|lia].
  pose proof (occ_nth _ _ _ 0 _ Ho (wrapper_first l)) as Hn.
  rewrite Nat.add_0_r in Hn.
  pose proof (wrapper_blank_tail l) as Ht.
  destruct (Manager.linkContainerOpen l ++ blank) as [|x T] eqn:E.
  - destruct (j - length P); discriminate.
  - destruct (j - length P) as [|t] eqn:Et; [lia|].
    cbn [nth_error tl] in Hn, Ht.
    pose proof (nth_error_forallb _ _ _ _ Ht Hn) as Hc. discriminate.
Qed.

Lemma app_same_length (a b c d : str) :
  a ++ b = c ++ d -> length a = length c -> a = c /\ b = d.
Proof.
  revert c. induction a as [|x a IH]; intros [|y c] H Hl; try discriminate.
  - now split.
  - injection H as -> H. injection Hl as Hl.
    destruct (IH _ H Hl) as [-> ->]. now split.
Qed.

(** A settled category is left alone. *)
Lemma settled_strip (c : Category) (s : str) :
  unique (Manager.linksEndMarker (key c)) s ->
  settled (Manager.linksEndMarker (key c))
          (Manager.linkContainerOpen (layout c)) s ->
  strip_links c s = s.
Proof.
  intros Hu Hs.
  destruct (strip_links_cases c s)
    as [[E _]|[[E _]|(A & B & C & Es & Hlast & E)]]; try exact E.
  rewrite E, Es. do 2 f_equal.
  assert (Hm : occ (Manager.linksEndMarker (key c)) s
                 (length (A ++ Manager.linkContainerOpen (layout c) ++ B))).
  { rewrite Es.
    replace (A ++ Manager.linkContainerOpen (layout c) ++ B
             ++ Manager.linksEndMarker (key c) ++ C)
      with ((A ++ Manager.linkContainerOpen (layout c) ++ B)
            ++ Manager.linksEndMarker (key c) ++ C)
      by now rewrite <- !app_assoc.
    apply occ_here. }
  destruct Hs as [Hno|[(P & Q & EP & HnoW)|(P & Q & EP)]].
  - now apply Hno in Hm.
  - exfalso. pose proof (occ_here (Manager.linksEndMarker (key c)) P Q) as Hp.
    rewrite <- EP in Hp. pose proof (Hu _ _ Hm Hp) as Hl.
    assert (Hsame : (A ++ Manager.linkContainerOpen (layout c) ++ B)
                    ++ Manager.linksEndMarker (key c) ++ C
                    = P ++ Manager.linksEndMarker (key c) ++ Q).
    { rewrite <- EP, Es. now rewrite <- !app_assoc. }
    destruct (app_same_length _ _ _ _ Hsame Hl) as [EPA _].
    apply (HnoW (length A)). rewrite <- EPA. apply occ_here.
  - set (W := Manager.linkContainerOpen (layout c)) in *.
    set (M := Manager.linksEndMarker (key c)) in *.
    assert (Hp : occ M s (length (P ++ W ++ blank))).
    { rewrite EP. replace (P ++ W ++ blank ++ M ++ Q)
        with ((P ++ W ++ blank) ++ M ++ Q) by now rewrite <- !app_assoc.
      apply occ_here. }
    pose proof (Hu _ _ Hm Hp) as Hl.
    assert (Hsame : (A ++ W ++ B) ++ M ++ C = (P ++ W ++ blank) ++ M ++ Q).
    { rewrite <- !app_assoc. now rewrite <- EP, <- Es. }
    destruct (app_same_length _ _ _ _ Hsame Hl) as [EPA _].
    assert (HAP : length A = length P).
    { destruct (Nat.lt_trichotomy (length A) (length P)) as [Hlt|[Heq|Hgt]];
        [|exact Heq|].
      - exfalso. apply (Hlast _ Hlt). rewrite EPA. apply occ_here.
      - exfalso. apply (wrapper_last (layout c) P _ Hgt). fold W.
        rewrite <- EPA. apply occ_here. }
    destruct (app_same_length _ _ _ _ EPA HAP) as [_ EWB].
    apply app_inv_head in EWB. now rewrite EWB.
Qed.

(** The step of a category settles it. *)
Lemma strip_settles (c : Category) (s : str) :
  settled (Manager.linksEndMarker (key c))
          (Manager.linkContainerOpen (layout c)) (strip_links c s).
Proof.
  destruct (strip_links_cases c s)
    as [[E Hno]|[[E (P & Q & EP & HnoW)]|(A & B & C & Es & Hlast & E)]];
    rewrite E.
  - now left.
  - right. left. now exists P, Q.
  - right. right. exists A, C. reflexivity.
Qed.

Lemma app_suffix_split (X Z P Y : str) :
  X ++ Z = P ++ Y -> length Y <= length Z ->
  exists Z', Z = Z' ++ Y /\ P = X ++ Z'.
Proof.
  intros H Hl.
  assert (Hlen : length X <= length P).
  { apply (f_equal (@length ascii)) in H. rewrite !length_app in H. lia. }
  symmetry in H. destruct (app_prefix_split _ _ _ _ H Hlen) as (Z' & HP & HZ).
  now exists Z'.
Qed.

Lemma upto_same (ch : ascii) (a b n s : str) :
  forallb (is_not ch) a = true -> forallb (is_not ch) b = true ->
  a ++ ch :: n = b ++ ch :: s -> a = b.
Proof.
  revert b. induction a as [|x a IH]; intros [|y b] Ha Hb H;
    cbn [app forallb] in *.
  - reflexivity.
  - injection H as <- _. apply andb_true_iff in Hb as [Hy _].
    unfold is_not in Hy. now rewrite Ascii.eqb_refl in Hy.
  - injection H as -> _. apply andb_true_iff in Ha as [Hx _].
    unfold is_not in Hx. now rewrite Ascii.eqb_refl in Hx.
  - injection H as -> H. apply andb_true_iff in Ha as [_ Ha].
    apply andb_true_iff in Hb as [_ Hb]. f_equal. now apply IH.
Qed.

Lemma key_char_lower_upper (c : ascii) :
  is_key_char c = true -> lower_char (upper_char c) = c.
Proof.
  destruct c as [b0 b1 b2 b3 b4 b5 b6 b7].
  destruct b0, b1, b2, b3, b4, b5, b6, b7; vm_compute; congruence.
Qed.

Lemma key_lower_upper (k : str) :
  forallb is_key_char k = true -> toLowerCase (toUpperCase k) = k.
Proof.
  induction k as [|c k IH]; cbn [forallb]; [reflexivity|].
  rewrite andb_true_iff. intros [Hc Hk]. unfold toLowerCase, toUpperCase.
  cbn [map]. rewrite (key_char_lower_upper _ Hc). f_equal. now apply IH.
Qed.

(** Two end markers that start at the same place are markers of the same
    key. *)
Lemma marker_same_start (k1 k2 t1 t2 : str) :
  forallb is_key_char k1 = true -> forallb is_key_char k2 = true ->
  Manager.linksEndMarker k1 ++ t1 = Manager.linksEndMarker k2 ++ t2 ->
  k1 = k2.
Proof.
  intros H1 H2 E. unfold Manager.linksEndMarker in E.
  rewrite <- !app_assoc in E. apply app_inv_head in E.
  change (lit "_LINKS_END -->") with (lit "_LINKS_END" ++ " "%char :: lit "-->")
    in E.
  rewrite <- !app_assoc in E.
  rewrite !(app_assoc (toUpperCase _) (lit "_LINKS_END")) in E.
  cbn [app] in E.
  assert (Hs : forall k, forallb is_key_char k = true ->
                forallb (is_not " "%char) (toUpperCase k ++ lit "_LINKS_END")
                = true).
  { intros k Hk. rewrite forallb_app, andb_true_iff. split; [|reflexivity].
    exact (upper_key_no_space _ Hk). }
  match type of E with
  | (?a ++ ?l1) = (?b ++ ?l2) =>
      assert (Eab : a = b)
  end.
  { eapply upto_same; [apply (Hs _ H1)|apply (Hs _ H2)|].
    rewrite <- !app_assoc. cbn [app]. rewrite <- !app_assoc in E. exact E. }
  apply app_inv_tail in Eab.
  rewrite <- (key_lower_upper _ H1), <- (key_lower_upper _ H2).
  now rewrite Eab.
Qed.

(** The step of a category keeps the markers unique. *)
Lemma strip_unique (c : Category) (needle s : str) :
  needle <> [] -> nth_error needle 0 = Some "<"%char ->
  forallb (is_not "010"%char) needle = true ->
  unique needle s -> unique needle (strip_links c s).
Proof.
  intros Hne H0 Hline Hu.
  destruct (strip_links_cases c s)
    as [[E _]|[[E _]|(A & B & C & Es & _ & E)]]; rewrite E; try exact Hu.
  rewrite Es in Hu.
  rewrite (app_assoc A _ (B ++ _)) in Hu.
  rewrite (app_assoc A _ (blank ++ _)).
  exact (unique_after_cut _ _ _ _ _ Hne H0 blank_no_lt Hline Hu).
Qed.

Ltac reassoc := rewrite <- ?app_assoc; reflexivity.

(** The step of another category keeps a category settled. *)
Lemma strip_preserves (ci cj : Category) (s : str) :
  forallb is_key_char (key ci) = true ->
  forallb is_key_char (key cj) = true ->
  key ci <> key cj ->
  unique (Manager.linksEndMarker (key ci)) s ->
  settled (Manager.linksEndMarker (key ci))
          (Manager.linkContainerOpen (layout ci)) s ->
  settled (Manager.linksEndMarker (key ci))
          (Manager.linkContainerOpen (layout ci)) (strip_links cj s).
Proof.
  intros Hki Hkj Hne Hu Hs.
  destruct (strip_links_cases cj s)
    as [[E _]|[[E _]|(A & B & C & Es & _ & E)]]; rewrite E; try exact Hs.
  clear E.
  set (Mi := Manager.linksEndMarker (key ci)) in *.
  set (Wi := Manager.linkContainerOpen (layout ci)) in *.
  set (Mj := Manager.linksEndMarker (key cj)) in *.
  set (Wj := Manager.linkContainerOpen (layout cj)) in *.
  pose (L := A ++ Wj). pose (R := Mj ++ C).
  assert (Es1 : s = L ++ B ++ R) by (rewrite Es; unfold L, R; reassoc).
  assert (Eg : A ++ Wj ++ blank ++ Mj ++ C = L ++ blank ++ R)
    by (unfold L, R; reassoc).
  rewrite Eg. clear Eg.
  assert (HR : R = Mj ++ C) by reflexivity.
  clearbody L R. clear Es.
  destruct (indexOf Mi (L ++ blank ++ R)) as [i'|] eqn:Ei;
    [|left; exact (indexOf_no_occ _ _ Ei)].
  destruct (indexOf_occ _ _ _ (marker_nonempty _) Ei) as [Ho' _].
  destruct (occ_after_cut Mi L B R i' "<"%char (marker_first _) blank_no_lt
              (marker_one_line _ Hki) Ho') as [[Hle Ho]|[Hge Ho]];
    rewrite <- Es1 in Ho;
    destruct Hs as [Hno|[(P & Q & EP & HnoW)|(P & Q & EP)]];
    try (now apply Hno in Ho).
  - (* the marker lies before the cut, no wrapper tag before it *)
    pose proof (occ_here Mi P Q) as Hp. rewrite <- EP in Hp.
    pose proof (Hu _ _ Ho Hp) as Hi.
    assert (Hsplit : L ++ (B ++ R) = (P ++ Mi) ++ Q)
      by (rewrite <- Es1, EP; reassoc).
    destruct (app_prefix_split _ _ _ _ Hsplit) as (Z & EL & _).
    { rewrite length_app. lia. }
    right. left. exists P, (Z ++ blank ++ R). split; [|exact HnoW].
    rewrite EL. reassoc.
  - (* the marker lies before the cut, after its wrapper tag *)
    assert (Hp : occ Mi s (length (P ++ Wi ++ blank))).
    { rewrite EP. replace (P ++ Wi ++ blank ++ Mi ++ Q)
        with ((P ++ Wi ++ blank) ++ Mi ++ Q) by reassoc.
      apply occ_here. }
    pose proof (Hu _ _ Ho Hp) as Hi.
    assert (Hsplit : L ++ (B ++ R) = ((P ++ Wi ++ blank) ++ Mi) ++ Q)
      by (rewrite <- Es1, EP; reassoc).
    destruct (app_prefix_split _ _ _ _ Hsplit) as (Z & EL & _).
    { rewrite length_app. lia. }
    right. right. exists P, (Z ++ blank ++ R). rewrite EL. reassoc.
  - (* the marker lies after the cut, no wrapper tag before it *)
    pose proof (occ_here Mi P Q) as Hp. rewrite <- EP in Hp.
    pose proof (Hu _ _ Ho Hp) as Hi.
    assert (Hsplit : P ++ (Mi ++ Q) = (L ++ B) ++ R)
      by (rewrite <- EP, Es1; reassoc).
    destruct (app_prefix_split _ _ _ _ Hsplit) as (Z & EPZ & ER).
    { rewrite length_app. lia. }
    right. left. exists (L ++ blank ++ Z), Q. split; [rewrite ER; reassoc|].
    intros t Ht.
    destruct (occ_after_cut Wi L B Z t "<"%char (wrapper_first _) blank_no_lt
                (wrapper_one_line _) Ht) as [[_ Hw]|[_ Hw]];
      (replace (L ++ B ++ Z) with P in Hw by (rewrite EPZ; reassoc));
      now apply HnoW in Hw.
  - (* the marker lies after the cut, after its wrapper tag *)
    assert (Hp : occ Mi s (length (P ++ Wi ++ blank))).
    { rewrite EP. replace (P ++ Wi ++ blank ++ Mi ++ Q)
        with ((P ++ Wi ++ blank) ++ Mi ++ Q) by reassoc.
      apply occ_here. }
    pose proof (Hu _ _ Ho Hp) as Hi.
    assert (Hsplit : (P ++ Wi ++ blank) ++ (Mi ++ Q) = (L ++ B) ++ R)
      by (rewrite <- ?app_assoc; rewrite <- EP; exact Es1).
    destruct (app_prefix_split _ _ _ _ Hsplit) as (Z & EPZ & ER).
    { rewrite length_app. lia. }
    destruct (le_lt_dec (length (Wi ++ blank)) (length Z)) as [Hlong|Hshort].
    + assert (Hsuffix : (L ++ B) ++ Z = P ++ (Wi ++ blank))
        by (rewrite <- EPZ; reassoc).
      destruct (app_suffix_split _ _ _ _ Hsuffix Hlong) as (Z' & EZ & _).
      right. right. exists (L ++ blank ++ Z'), Q.
      rewrite ER, EZ. reassoc.
    + exfalso.
      assert (Hprefix : (L ++ B) ++ Z = P ++ (Wi ++ blank))
        by (rewrite <- EPZ; reassoc).
      destruct (app_prefix_split _ _ _ _ Hprefix) as (Y & ELB & EW).
      { apply (f_equal (@length ascii)) in Hprefix.
        rewrite !length_app in Hprefix. rewrite length_app in Hshort.
        rewrite length_app. lia. }
      destruct Z as [|z0 Z1].
      * apply Hne. cbn [app] in ER.
        pose proof (marker_same_start (key cj) (key ci) C Q Hkj Hki) as Hsame.
        symmetry. apply Hsame. fold Mi Mj. now rewrite <- HR, ER.
      * assert (Hz : z0 = "<"%char).
        { rewrite HR in ER.
          apply (f_equal (fun l => nth_error l 0)) in ER.
          cbn in ER. congruence. }
        subst z0. pose proof (wrapper_blank_tail (layout ci)) as Ht.
        fold Wi in Ht. rewrite EW in Ht.
        destruct Y as [|y Y].
        { apply (f_equal (@length ascii)) in EW. cbn [app] in EW.
          rewrite EW in Hshort. lia. }
        cbn [app tl] in Ht. rewrite forallb_app in Ht.
        apply andb_true_iff in Ht as [_ Ht]. discriminate.
Qed.

(** ** [removeAllLinks] as a fold of [strip_links] *)

Lemma removeLinksOf_run (c : Category) (this : WikiContentManager) :
  Manager.removeLinksOf c this
  = (Returned tt, mkManager (strip_links c (content this)) (analyzer this)).
Proof.
  destruct this as [s a].
  unfold Manager.removeLinksOf, strip_links, bind, getThis, ret, setContent.
  cbv zeta. cbn [content analyzer].
  destruct (indexOf (Manager.linksEndMarker (key c)) s) as [m|];
    [|reflexivity].
  destruct (lastIndexOf (Manager.linkContainerOpen (layout c))
              (substring s 0 m)); reflexivity.
Qed.

Lemma forEach_run (l : list Category) (this : WikiContentManager) :
  forEach l Manager.removeLinksOf this
  = (Returned tt,
     mkManager (fold_left (fun s c => strip_links c s) l (content this))
               (analyzer this)).
Proof.
  revert this. induction l as [|c l IH]; intros this; cbn [forEach fold_left].
  - now destruct this.
  - unfold bind. rewrite removeLinksOf_run, IH. reflexivity.
Qed.

Lemma clean_fold (d : str) :
  clean d = fold_left (fun s c => strip_links c s)
              (Analyzer.extractCategories (mkAnalyzer d)) d.
Proof.
  unfold clean, Manager.removeAllLinks, Manager.getContent, newManager.
  unfold bind at 1. unfold getThis at 1. cbv zeta. cbn [analyzer].
  unfold bind at 1. rewrite forEach_run. reflexivity.
Qed.

Lemma fold_fixed (l : list Category) (s : str) :
  (forall c, In c l -> strip_links c s = s) ->
  fold_left (fun s c => strip_links c s) l s = s.
Proof.
  induction l as [|c l IH]; intros H; cbn [fold_left]; [reflexivity|].
  rewrite (H c (or_introl eq_refl)). apply IH.
  intros c' Hc'. apply H. now right.
Qed.

Lemma strip_links_ext (c c' : Category) (s : str) :
  key c = key c' -> layout c = layout c' -> strip_links c s = strip_links c' s.
Proof. unfold strip_links. now intros -> ->. Qed.

(** One pass settles every category and keeps every marker unique. *)
Lemma pass_settles (todo done : list Category) (s : str) :
  (forall c, In c (done ++ todo) -> forallb is_key_char (key c) = true) ->
  NoDup (map key (done ++ todo)) ->
  (forall c, In c (done ++ todo) -> unique (Manager.linksEndMarker (key c)) s) ->
  (forall c, In c done ->
     settled (Manager.linksEndMarker (key c))
             (Manager.linkContainerOpen (layout c)) s) ->
  forall c, In c (done ++ todo) ->
    unique (Manager.linksEndMarker (key c))
           (fold_left (fun s c => strip_links c s) todo s)
    /\ settled (Manager.linksEndMarker (key c))
               (Manager.linkContainerOpen (layout c))
               (fold_left (fun s c => strip_links c s) todo s).
Proof.
  revert done s. induction todo as [|c0 todo IH]; intros done s Hk Hnd Hu Hs.
  - rewrite app_nil_r in *. cbn [fold_left]. intros c Hc. split; auto.
  - cbn [fold_left].
    assert (Happ : done ++ c0 :: todo = (done ++ [c0]) ++ todo)
      by (rewrite <- app_assoc; reflexivity).
    rewrite Happ in *. apply IH; auto.
    + intros c Hc. apply strip_unique; auto.
      * apply marker_nonempty.
      * apply marker_one_line; auto.
    + intros c Hc. apply in_app_or in Hc as [Hc|[<-|[]]].
      * apply strip_preserves.
        -- apply Hk. apply in_or_app. left. apply in_or_app. now left.
        -- apply Hk. apply in_or_app. left. apply in_or_app. right. now left.
        -- intros Heq. rewrite <- Happ, map_app in Hnd. cbn [map] in Hnd.
           apply NoDup_remove_2 in Hnd. apply Hnd. apply in_or_app. left.
           rewrite <- Heq. now apply in_map.
        -- apply Hu. apply in_or_app. left. apply in_or_app. now left.
        -- now apply Hs.
      * apply strip_settles.
Qed.

(** ** Reading the decidable conditions *)

Lemma nodupb_NoDup (l : list str) : nodupb l = true -> NoDup l.
Proof.
  induction l as [|x l IH]; cbn [nodupb]; [constructor|].
  rewrite andb_true_iff, negb_true_iff. intros [Hx Hl].
  constructor; [|now apply IH].
  intros Hin. assert (Hex : existsb (str_eqb x) l = true).
  { apply existsb_exists. exists x. split; [exact Hin|apply str_eqb_refl]. }
  congruence.
Qed.

Lemma occ_cons (needle : str) (c : ascii) (s : str) (i : nat) :
  occ needle (c :: s) (S i) <-> occ needle s i.
Proof.
  split.
  - intros ([|x a] & b & E & Hl); [discriminate|].
    cbn [app] in E. injection E as _ E. injection Hl as Hl. now exists a, b.
  - intros (a & b & E & Hl). exists (c :: a), b. cbn [app length].
    split; congruence.
Qed.

Lemma count_zero (needle s : str) :
  count_occurrences needle s = 0 -> forall i, ~ occ needle s i.
Proof.
  unfold count_occurrences. induction s as [|c s IH]; intros H i Ho.
  - cbn [tails filter] in H. destruct (startsWith needle []) eqn:E;
      [discriminate|].
    pose proof (occ_startsWith _ _ _ Ho) as Hs.
    rewrite skipn_nil in Hs. congruence.
  - cbn [tails filter] in H. destruct (startsWith needle (c :: s)) eqn:E;
      [discriminate|].
    destruct i as [|i].
    + pose proof (occ_startsWith _ _ _ Ho) as Hs. cbn [skipn] in Hs. congruence.
    + apply occ_cons in Ho. now apply (IH H i).
Qed.

Lemma count_unique (needle s : str) :
  count_occurrences needle s <= 1 -> unique needle s.
Proof.
  unfold count_occurrences. induction s as [|c s IH]; intros H i j Hi Hj.
  - apply occ_bound in Hi, Hj. cbn [length] in *. lia.
  - cbn [tails filter] in H.
    destruct (startsWith needle (c :: s)) eqn:E; cbn [length] in H.
    + assert (H0 : count_occurrences needle s = 0)
        by (unfold count_occurrences; lia).
      destruct i as [|i]; [|apply occ_cons in Hi; now apply (count_zero _ _ H0) in Hi].
      destruct j as [|j]; [reflexivity|].
      apply occ_cons in Hj. now apply (count_zero _ _ H0) in Hj.
    + destruct i as [|i].
      { pose proof (occ_startsWith _ _ _ Hi) as Hs. cbn [skipn] in Hs.
        congruence. }
      destruct j as [|j].
      { pose proof (occ_startsWith _ _ _ Hj) as Hs. cbn [skipn] in Hs.
        congruence. }
      apply occ_cons in Hi, Hj. f_equal. now apply IH.
Qed.

Lemma Layout_eqb_eq (a b : Layout) : Layout_eqb a b = true -> a = b.
Proof. destruct a, b; (reflexivity || discriminate). Qed.

Lemma links_well_formed_spec (d : str) :
  links_well_formed d = true ->
  let categories := Analyzer.extractCategories (mkAnalyzer d) in
  (forall c, In c categories -> forallb is_key_char (key c) = true)
  /\ NoDup (map key categories)
  /\ (forall c, In c categories -> unique (Manager.linksEndMarker (key c)) d).
Proof.
  unfold links_well_formed. cbv zeta.
  rewrite !andb_true_iff, !forallb_forall. intros [[Hk Hn] Hc].
  split; [exact Hk|]. split; [now apply nodupb_NoDup|].
  intros c Hin. apply count_unique. apply Nat.leb_le. now apply Hc.
Qed.

Lemma no_new_category_spec (d : str) :
  no_new_category d = true ->
  forall c', In c' (Analyzer.extractCategories (mkAnalyzer (clean d))) ->
  exists c, In c (Analyzer.extractCategories (mkAnalyzer d))
            /\ key c = key c' /\ layout c = layout c'.
Proof.
  unfold no_new_category. rewrite forallb_forall. intros H c' Hc'.
  apply H in Hc'. apply existsb_exists in Hc' as (c & Hin & Hc).
  apply andb_true_iff in Hc as [Hkey Hlay].
  exists c. split; [exact Hin|]. split.
  - now apply str_eqb_eq.
  - now apply Layout_eqb_eq.
Qed.

(** C3, as the code has it.  For every document whose categories have keys
    of the characters a-z, 0-9, _ and -, no two of them the same key, the
    end-of-links marker of each occurring at most once, and whose cleaned
    text shows no category (by key and layout) that the document did not
    show: removing all links twice gives the same text as removing them
    once. *)
Theorem removeAllLinks_idempotent (d : str) :
  links_well_formed d = true ->
  no_new_category d = true ->
  clean (clean d) = clean d.
Proof.
  intros Hwf Hnew.
  destruct (links_well_formed_spec d Hwf) as (Hk & Hnd & Hu).
  pose proof (pass_settles (Analyzer.extractCategories (mkAnalyzer d)) [] d
                Hk Hnd Hu (fun c (H : In c []) => match H with end)) as Hpass.
  cbn [app] in Hpass. rewrite <- clean_fold in Hpass.
  rewrite (clean_fold (clean d)). apply fold_fixed.
  intros c' Hc'.
  destruct (no_new_category_spec d Hnew c' Hc') as (c & Hin & Hkey & Hlay).
  rewrite <- (strip_links_ext c c' _ Hkey Hlay).
  destruct (Hpass c Hin) as [Hu' Hs']. now apply settled_strip.
Qed.

Lemma removeAllLinks_idempotent_witness :
  clean (clean demoTemplate) = clean demoTemplate.
Proof.
  apply removeAllLinks_idempotent; vm_compute; reflexivity.
Defined.

(** C3 as the spec has it fails on a document with the marker of the
    category [a] before and after the marker of the category [b]: the first
    pass cuts up to the marker of [b], which brings the second marker of
    [a] to the front for the second pass. *)
Lemma removeAllLinks_not_idempotent :
  clean (clean twoMarkersDocument) <> clean twoMarkersDocument.
Proof.
  apply str_eqb_neq. vm_compute. reflexivity.
Qed.

(** * Further properties *)

(** ** [escapeHtml] *)

Lemma escape_char_cases (c : ascii) :
  (c = "&"%char /\ escape_char c = lit "&amp;")
  \/ (c = "<"%char /\ escape_char c = lit "&lt;")
  \/ (c = ">"%char /\ escape_char c = lit "&gt;")
  \/ (c = dquote /\ escape_char c = lit "&quot;")
  \/ (is_plain_char c = true /\ escape_char c = [c]).
Proof.
  unfold escape_char, is_plain_char, is_html_special.
  destruct (Ascii.eqb_spec c "&"%char) as [->|]; [now left|].
  destruct (Ascii.eqb_spec c "<"%char) as [->|]; [right; now left|].
  destruct (Ascii.eqb_spec c ">"%char) as [->|]; [right; right; now left|].
  destruct (Ascii.eqb_spec c dquote) as [->|]; [right; right; right; now left|].
  right; right; right; right. now split.
Qed.

Lemma plain_not_amp (c : ascii) : is_plain_char c = true -> c <> "&"%char.
Proof. intros H ->. discriminate. Qed.

(** The escaped form of a character tells the character. *)
Lemma escape_char_head (x y : ascii) (r1 r2 : str) :
  escape_char x ++ r1 = escape_char y ++ r2 -> x = y.
Proof.
  destruct (escape_char_cases x) as [[-> ->]|[[-> ->]|[[-> ->]|[[-> ->]|[Hx ->]]]]];
    destruct (escape_char_cases y)
      as [[-> ->]|[[-> ->]|[[-> ->]|[[-> ->]|[Hy ->]]]]];
    intros H; try reflexivity; try discriminate H;
    try (injection H as H; try apply plain_not_amp in Hx;
         try apply plain_not_amp in Hy; congruence).
Qed.

Lemma escaped_injective (a b : str) : escaped a = escaped b -> a = b.
Proof.
  revert b. induction a as [|x a IH]; intros [|y b] H.
  - reflexivity.
  - unfold escaped in H. cbn [flat_map] in H.
    destruct (escape_char_cases y)
      as [[_ E]|[[_ E]|[[_ E]|[[_ E]|[_ E]]]]]; rewrite E in H; discriminate.
  - unfold escaped in H. cbn [flat_map] in H.
    destruct (escape_char_cases x)
      as [[_ E]|[[_ E]|[[_ E]|[[_ E]|[_ E]]]]]; rewrite E in H; discriminate.
  - unfold escaped in H. cbn [flat_map] in H.
    pose proof (escape_char_head _ _ _ _ H) as ->.
    apply app_inv_head in H. f_equal. now apply IH.
Qed.

(** X1.  [escapeHtml] loses nothing: two different texts have different
    escaped forms. *)
Theorem escapeHtml_injective (a b : str) :
  a <> b -> escapeHtml a <> escapeHtml b.
Proof.
  intros Hab H. apply Hab. rewrite !escapeHtml_escaped in H.
  now apply escaped_injective.
Qed.

Lemma escapeHtml_injective_witness :
  escapeHtml (lit "<") <> escapeHtml (lit "&lt;").
Proof.
  apply (escapeHtml_injective (lit "<") (lit "&lt;")).
  apply str_eqb_neq. vm_compute. reflexivity.
Defined.

Lemma escape_char_length (c : ascii) :
  1 <= length (escape_char c)
  /\ (length (escape_char c) = 1 -> is_plain_char c = true).
Proof.
  destruct (escape_char_cases c)
    as [[_ ->]|[[_ ->]|[[_ ->]|[[_ ->]|[H ->]]]]];
    (split; [vm_compute; lia|]); try (vm_compute; discriminate).
  now intros _.
Qed.

Lemma escaped_length (s : str) :
  length s <= length (escaped s)
  /\ (length (escaped s) = length s -> forallb is_plain_char s = true).
Proof.
  induction s as [|c s [IH1 IH2]]; [now split|].
  unfold escaped in *. cbn [flat_map forallb length]. rewrite length_app.
  destruct (escape_char_length c) as [H1 H2]. split; [lia|].
  intros H. rewrite H2 by lia. apply IH2. lia.
Qed.

(** X2.  [escapeHtml] returns its argument unchanged exactly when the argument
    has none of the four characters it replaces; it never shortens a
    text. *)
Theorem escapeHtml_fixed_iff (s : str) :
  (escapeHtml s = s <-> forallb is_plain_char s = true)
  /\ length s <= length (escapeHtml s).
Proof.
  rewrite escapeHtml_escaped. split; [split|].
  - intros H. apply escaped_length. now rewrite H.
  - apply escaped_plain.
  - apply escaped_length.
Qed.

(** ** What the analyzer reports *)

Lemma exec_from_sound (ci : bool) (r : regex) (s : str) :
  forall (pos : nat) (m : rx_match),
  exec_from ci r pos s = Some m ->
  exists j, m_index m = pos + j
            /\ match_here ci r (skipn j s) = Some (m_length m, m_caps m).
Proof.
  induction s as [|c s IH]; intros pos m; cbn [exec_from].
  - destruct (match_here ci r []) as [[n caps]|] eqn:E; [|discriminate].
    intros [= <-]. exists 0. cbn. split; [lia|exact E].
  - destruct (match_here ci r (c :: s)) as [[n caps]|] eqn:E.
    + intros [= <-]. exists 0. cbn. split; [lia|exact E].
    + intros H. apply IH in H as (j & Hj & Hm). exists (S j).
      split; [lia|exact Hm].
Qed.

(** A match of the title pattern captures a non-empty text without [<],
    a match of the description pattern a text without [<]. *)
Lemma titleRegex_shape (layoutClass s : str) (n : nat) (caps : captures) :
  match_here false (Analyzer.titleRegex layoutClass) s = Some (n, caps) ->
  exists w, caps = [(1, w)]
            /\ forallb (is_not "<"%char) w = true /\ 1 <= length w.
Proof.
  intros H. apply match_here_sound in H as (w & s' & -> & -> & D).
  unfold Analyzer.titleRegex in D. invert_denotes.
  eexists. repeat split; eauto.
Qed.

Lemma metaRegex_shape (layoutClass s : str) (n : nat) (caps : captures) :
  match_here false (Analyzer.metaRegex layoutClass) s = Some (n, caps) ->
  exists w, caps = [(1, w)] /\ forallb (is_not "<"%char) w = true.
Proof.
  intros H. apply match_here_sound in H as (w & s' & -> & -> & D).
  unfold Analyzer.metaRegex in D. invert_denotes.
  eexists. repeat split; eauto.
Qed.

(** X3.  Every category [extractCategories] reports has a non-empty key without
    double quote, a non-empty accent of word characters, a non-empty name
    that is the key or has no [<], a description without [<] and the
    column 0; and [categoryExists] confirms its key. *)
Theorem extracted_categories_invariant (a : WikiStructureAnalyzer) :
  Forall (fun c =>
      1 <= length (key c)
      /\ forallb (is_not dquote) (key c) = true
      /\ 1 <= length (accent c)
      /\ forallb is_word (accent c) = true
      /\ 1 <= length (name c)
      /\ (name c = key c \/ forallb (is_not "<"%char) (name c) = true)
      /\ forallb (is_not "<"%char) (description c) = true
      /\ column c = 0%N
      /\ Analyzer.categoryExists a (key c) = true)
    (Analyzer.extractCategories a).
Proof.
  apply Forall_forall. intros c Hin.
  destruct (extractCategories_key _ _ Hin) as (Hq & Hl & Hex).
  apply extractCategories_In in Hin as (m & Hm & ->).
  apply exec_all_In in Hm as [_ Hm]. rewrite Nat.sub_0_r in Hm.
  apply sectionRegex_shape in Hm
    as (w1 & sp & w2 & k & rest & Hs & Hc & _ & _ & _ & _ & Hw2 & Hl2 & Hk & Hlk).
  unfold Analyzer.categoryOfMatch, group in *. rewrite Hc in *.
  cbn [capture Nat.eqb key accent name description column] in *.
  set (window := match indexOf (Analyzer.sectionId k) (a_content a) with
                 | Some sectionStart =>
                     substring (a_content a) sectionStart (sectionStart + 500)
                 | None => substring (a_content a) 0 499
                 end).
  repeat split; auto.
  - destruct (exec false (Analyzer.titleRegex (lit "section-" ++ w1)) window)
      as [t|] eqn:Et; [|exact Hlk].
    apply exec_from_sound in Et as (j & _ & Et).
    apply titleRegex_shape in Et as (w & -> & _ & Hw). exact Hw.
  - destruct (exec false (Analyzer.titleRegex (lit "section-" ++ w1)) window)
      as [t|] eqn:Et; [|now left].
    apply exec_from_sound in Et as (j & _ & Et).
    apply titleRegex_shape in Et as (w & -> & Hw & _). now right.
  - destruct (exec false (Analyzer.metaRegex (lit "section-" ++ w1)) window)
      as [t|] eqn:Et; [|reflexivity].
    apply exec_from_sound in Et as (j & _ & Et).
    apply metaRegex_shape in Et as (w & -> & Hw). exact Hw.
Qed.

Lemma containerRegex_shape (s : str) (n : nat) (caps : captures) :
  match_here false Analyzer.containerRegex s = Some (n, caps) ->
  exists w k rest,
    s = lit "<div class=`layout-container layout-" ++ w ++ lit "col` id=`"
        ++ k ++ lit "-container`>" ++ rest
    /\ caps = [(2, k); (1, w)]
    /\ forallb is_digit w = true /\ 1 <= length w
    /\ forallb (is_not dquote) k = true /\ 1 <= length k.
Proof.
  intros H. apply match_here_sound in H as (w & s' & -> & -> & D).
  unfold Analyzer.containerRegex in D. invert_denotes.
  match goal with
  | |- context [(2, ?k) :: (1, ?w) :: _] => exists w, k, s'
  end.
  rewrite <- !app_assoc. repeat split; auto.
Qed.

Lemma sequence_In {A : Type} (l : list (option A)) (xs : list A) (x : A) :
  Analyzer.sequence l = Some xs -> In x xs -> In (Some x) l.
Proof.
  revert xs. induction l as [|[a|] l IH]; intros xs; cbn [Analyzer.sequence].
  - intros [= <-] [].
  - destruct (Analyzer.sequence l) as [ys|]; [|discriminate].
    cbn [option_map]. intros [= <-] [->|Hin]; [now left|].
    right. now apply (IH ys).
  - discriminate.
Qed.

Lemma digit_char (c : ascii) (d : Decimal.uint) :
  is_digit c = true -> DecimalString.uint_of_char c (Some d) <> None.
Proof.
  intros Hc. destruct c as [b0 b1 b2 b3 b4 b5 b6 b7].
  destruct b0, b1, b2, b3, b4, b5, b6, b7;
    try discriminate Hc; discriminate.
Qed.

Lemma parseInt_digits (w : str) :
  forallb is_digit w = true -> parseInt w <> None.
Proof.
  intros Hw. unfold parseInt.
  assert (H : DecimalString.NilEmpty.uint_of_string
                (String.string_of_list_ascii w) <> None).
  { induction w as [|c w IH]; [discriminate|].
    cbn [forallb] in Hw. apply andb_true_iff in Hw as [Hc Hw].
    cbn [String.string_of_list_ascii DecimalString.NilEmpty.uint_of_string].
    specialize (IH Hw).
    destruct (DecimalString.NilEmpty.uint_of_string
                (String.string_of_list_ascii w)) as [d|]; [|contradiction].
    now apply digit_char. }
  destruct (DecimalString.NilEmpty.uint_of_string
              (String.string_of_list_ascii w)); [discriminate|contradiction].
Qed.

(** X4.  Every container [extractContainers] reports has a non-empty key
    without double quote and without pattern syntax, a non-empty name and a
    column count that is a number; and [containerExists] confirms its
    key. *)
Theorem extracted_containers_invariant
    (a : WikiStructureAnalyzer) (containers : list Container) :
  Analyzer.extractContainers a = Some containers ->
  Forall (fun c =>
      1 <= length (c_key c)
      /\ forallb (is_not dquote) (c_key c) = true
      /\ existsb is_syntax (c_key c) = false
      /\ 1 <= length (c_name c)
      /\ c_columns c <> None
      /\ Analyzer.containerExists a (c_key c) = true)
    containers.
Proof.
  intros Hsome. apply Forall_forall. intros c Hin.
  unfold Analyzer.extractContainers in Hsome.
  apply (sequence_In _ _ _ Hsome) in Hin.
  apply in_map_iff in Hin as (m & Hc & Hm).
  apply exec_all_In in Hm as [_ Hm]. rewrite Nat.sub_0_r in Hm.
  apply containerRegex_shape in Hm
    as (w & k & rest & Hs & Hcaps & Hw & Hlw & Hk & Hlk).
  unfold Analyzer.containerOfMatch, group in Hc. rewrite Hcaps in Hc.
  cbn [capture Nat.eqb] in Hc.
  destruct (existsb is_syntax k) eqn:Esyn; [discriminate|].
  injection Hc as <-. cbn [c_key c_name c_columns].
  assert (Hcap : 1 <= length (Analyzer.capitalize k)).
  { unfold Analyzer.capitalize. destruct k as [|x k]; [cbn in Hlk; lia|].
    cbn. lia. }
  repeat split; auto.
  - destruct (exec true (Analyzer.commentPattern k) (a_content a))
      as [cm|]; [|exact Hcap].
    destruct (capture 1 (m_caps cm)) as [[|x n]|]; try exact Hcap.
    cbn. lia.
  - now apply parseInt_digits.
  - unfold Analyzer.containerExists.
    rewrite <- (firstn_skipn (m_index m) (a_content a)), Hs.
    unfold Analyzer.containerId.
    apply includes_skip_app.
    replace (lit "<div class=`layout-container layout-" ++ w
             ++ lit "col` id=`" ++ k ++ lit "-container`>" ++ rest)
      with ((lit "<div class=`layout-container layout-" ++ w ++ lit "col` ")
            ++ (lit "id=`" ++ k ++ lit "-container`") ++ (lit ">" ++ rest)).
    + apply includes_intro.
    + rewrite <- !app_assoc. reflexivity.
Qed.

Lemma extracted_containers_invariant_witness :
  Forall (fun c =>
      1 <= length (c_key c)
      /\ forallb (is_not dquote) (c_key c) = true
      /\ existsb is_syntax (c_key c) = false
      /\ 1 <= length (c_name c)
      /\ c_columns c <> None
      /\ Analyzer.containerExists (mkAnalyzer devDocument) (c_key c) = true)
    [mkContainer (lit "p") (lit "P") (Some 2%N)].
Proof.
  apply (extracted_containers_invariant (mkAnalyzer devDocument)).
  vm_compute. reflexivity.
Defined.

Lemma matchAll_sections_nil (d : str) :
  includes (lit "<section class=`") d = false ->
  matchAll Analyzer.sectionRegex d = [].
Proof.
  intros Hno. destruct (matchAll Analyzer.sectionRegex d) as [|m l] eqn:E;
    [reflexivity|].
  assert (Hin : In m (matchAll Analyzer.sectionRegex d))
    by (rewrite E; now left).
  apply exec_all_In in Hin as [_ Hm]. rewrite Nat.sub_0_r in Hm.
  apply sectionRegex_shape in Hm as (w1 & sp & w2 & k & rest & Hs & _).
  assert (Hinc : includes (lit "<section class=`") d = true).
  { rewrite <- (firstn_skipn (m_index m) d), Hs. apply includes_intro. }
  congruence.
Qed.

(** X5.  A document without the text [<section class=`] has no categories:
    [extractCategories] reports none, [removeAllLinks] leaves the content
    as it is, and [addLinkToCategory] throws for every key, leaving the
    manager as it is. *)
Theorem document_without_sections (d : str) :
  includes (lit "<section class=`") d = false ->
  Analyzer.extractCategories (mkAnalyzer d) = []
  /\ Manager.removeAllLinks (newManager d) = (Returned tt, newManager d)
  /\ forall tabInfo k,
       Manager.addLinkToCategory tabInfo k (newManager d)
       = (Thrown (if Analyzer.categoryExists (mkAnalyzer d) k
                  then CategoryInformationNotFound k
                  else CategoryDoesNotExist k), newManager d).
Proof.
  intros Hno.
  assert (E : Analyzer.extractCategories (mkAnalyzer d) = []).
  { unfold Analyzer.extractCategories. cbn [a_content].
    now rewrite matchAll_sections_nil. }
  split; [exact E|]. split.
  - unfold Manager.removeAllLinks, newManager.
    unfold bind at 1. unfold getThis at 1. cbv zeta. cbn [analyzer].
    rewrite E. reflexivity.
  - intros tabInfo k. unfold Manager.addLinkToCategory, newManager.
    unfold bind at 1. unfold getThis at 1. cbv zeta. cbn [analyzer content].
    rewrite E. unfold bind, when, throw, ret.
    destruct (Analyzer.categoryExists (mkAnalyzer d) k); reflexivity.
Qed.

Lemma document_without_sections_witness :
  let d := content (snd (Manager.addContainer (lit "p") (lit "P") 2
                           (newManager []))) in
  Analyzer.extractCategories (mkAnalyzer d) = []
  /\ Manager.removeAllLinks (newManager d) = (Returned tt, newManager d)
  /\ forall tabInfo k,
       Manager.addLinkToCategory tabInfo k (newManager d)
       = (Thrown (if Analyzer.categoryExists (mkAnalyzer d) k
                  then CategoryInformationNotFound k
                  else CategoryDoesNotExist k), newManager d).
Proof.
  apply (document_without_sections
           (content (snd (Manager.addContainer (lit "p") (lit "P") 2
                            (newManager []))))).
  vm_compute. reflexivity.
Defined.

(** ** The content manager: what the operations keep *)

Lemma addCategory_returns (category : Category)
    (this this' : WikiContentManager) :
  Manager.addCategory category this = (Returned tt, this') ->
  Analyzer.categoryExists (analyzer this) (key category) = false
  /\ Analyzer.containerExists (analyzer this) (containerKey category) = true
  /\ exists p lead,
       indexOf (Manager.contentEndMarker (containerKey category))
         (content this) = Some p
       /\ this' = newManager
                    (firstn p (content this)
                     ++ (lead ++ HTML_TEMPLATES.category category
                                   (layout category) ++ lit "
  ")
                     ++ skipn p (content this)).
Proof.
  unfold Manager.addCategory, bind, getThis, when, throw, ret.
  destruct (Analyzer.categoryExists (analyzer this) (key category));
    [discriminate|].
  destruct (Analyzer.containerExists (analyzer this) (containerKey category));
    [|discriminate].
  cbn [negb]. cbv zeta.
  destruct (indexOf (Manager.contentEndMarker (containerKey category))
              (content this)) as [p|]; [|discriminate].
  unfold setContent, setAnalyzer, substringFrom. rewrite substring_0.
  cbn [content analyzer]. intros H.
  apply (f_equal snd) in H. cbn [snd] in H. subst this'.
  split; [reflexivity|]. split; [reflexivity|].
  exists p.
  match goal with
  | |- context [(?l ++ HTML_TEMPLATES.category _ _ ++ _) ++ _] => exists l
  end.
  split; reflexivity.
Qed.

Lemma addLinkToCategory_returns (tabInfo : TabInfo) (k : str)
    (this this' : WikiContentManager) :
  Manager.addLinkToCategory tabInfo k this = (Returned tt, this') ->
  exists c p,
    Manager.findCategory (Analyzer.extractCategories (analyzer this)) k
    = Some c
    /\ indexOf (Manager.linksEndMarker k) (content this) = Some p
    /\ this' = mkManager
                 (firstn p (content this)
                  ++ (HTML_TEMPLATES.link tabInfo (layout c) ++ lit "
      ")
                  ++ skipn p (content this))
                 (analyzer this).
Proof.
  unfold Manager.addLinkToCategory, bind, getThis, when, throw, ret.
  destruct (Analyzer.categoryExists (analyzer this) k); [|discriminate].
  cbn [negb]. cbv zeta.
  destruct (Manager.findCategory _ k) as [c|]; [|discriminate].
  destruct (indexOf (Manager.linksEndMarker k) (content this)) as [p|];
    [|discriminate].
  unfold setContent, slice0, substringFrom. intros H.
  apply (f_equal snd) in H. cbn [snd] in H. subst this'.
  exists c, p. split; [reflexivity|]. split; [reflexivity|].
  rewrite <- !app_assoc. reflexivity.
Qed.

Lemma category_has_id (category : Category) (layout : Layout) :
  exists pre post,
    HTML_TEMPLATES.category category layout
    = pre ++ Analyzer.sectionId (key category) ++ post.
Proof.
  eexists (lit "  <section class=`" ++ HTML_TEMPLATES.layoutClass layout
           ++ lit " accent-" ++ accent category ++ lit "` "), _.
  unfold HTML_TEMPLATES.category, Analyzer.sectionId.
  rewrite <- !app_assoc. reflexivity.
Qed.

(** X6.  After [addCategory] has returned, [categoryExists] is true for the key
    of the new category, through the analyzer of the manager, which scans
    the new content; and another [addCategory] with this key throws the
    duplicate-key error and leaves the manager as it is. *)
Theorem addCategory_then_categoryExists
    (category : Category) (this this' : WikiContentManager) :
  Manager.addCategory category this = (Returned tt, this') ->
  a_content (analyzer this') = content this'
  /\ Analyzer.categoryExists (analyzer this') (key category) = true
  /\ forall category',
       key category' = key category ->
       Manager.addCategory category' this'
       = (Thrown (CategoryAlreadyExists (key category)), this').
Proof.
  intros H. apply addCategory_returns in H as (_ & _ & p & lead & _ & ->).
  assert (E : Analyzer.categoryExists
                (analyzer (newManager
                   (firstn p (content this)
                    ++ (lead ++ HTML_TEMPLATES.category category
                                  (layout category) ++ lit "
  ")
                    ++ skipn p (content this)))) (key category) = true).
  { unfold Analyzer.categoryExists, newManager. cbn [analyzer a_content].
    destruct (category_has_id category (layout category))
      as (pre & post & ->).
    apply includes_true.
    exists (firstn p (content this) ++ lead ++ pre),
           (post ++ lit "
  " ++ skipn p (content this)).
    rewrite <- !app_assoc. reflexivity. }
  split; [reflexivity|]. split; [exact E|].
  intros category' Hk. unfold Manager.addCategory, bind, getThis, when, throw.
  rewrite Hk, E. reflexivity.
Qed.

Lemma addCategory_then_categoryExists_witness :
  let this' := snd (Manager.addCategory devToolsCategory
                      (newManager devDocumentStart)) in
  a_content (analyzer this') = content this'
  /\ Analyzer.categoryExists (analyzer this') (lit "dev_tools") = true
  /\ forall category',
       key category' = lit "dev_tools" ->
       Manager.addCategory category' this'
       = (Thrown (CategoryAlreadyExists (lit "dev_tools")), this').
Proof.
  apply (addCategory_then_categoryExists devToolsCategory
           (newManager devDocumentStart)).
  vm_compute. reflexivity.
Defined.

Lemma includes_occ (needle s : str) :
  includes needle s = true <-> exists i, occ needle s i.
Proof.
  rewrite includes_true. split.
  - intros (pre & post & ->). exists (length pre). apply occ_here.
  - intros (i & a & b & -> & _). now exists a, b.
Qed.

Lemma occ_nth_inv (needle s : str) (i t : nat) :
  occ needle s i -> t < length needle ->
  nth_error needle t = nth_error s (i + t).
Proof.
  intros (a & b & -> & <-) Ht.
  rewrite nth_error_app2 by lia.
  replace (length a + t - length a) with t by lia.
  now rewrite nth_error_app1.
Qed.

(** Text inserted before a character that the needle does not have keeps
    the needle in the text. *)
Lemma includes_insert (needle P X Q : str) (c0 : ascii) :
  nth_error Q 0 = Some c0 ->
  forallb (is_not c0) needle = true ->
  includes needle (P ++ Q) = true ->
  includes needle (P ++ X ++ Q) = true.
Proof.
  intros HQ Hn H. apply includes_occ in H as (i & Ho).
  destruct (le_lt_dec (i + length needle) (length P)) as [Hl|Hl].
  - apply occ_in_prefix in Ho; [|exact Hl].
    apply includes_occ. exists i. now apply occ_app_l.
  - destruct (le_lt_dec (length P) i) as [Hr|Hr].
    + apply occ_in_suffix in Ho; [|exact Hr].
      apply includes_occ. exists (length P + (length X + (i - length P))).
      now apply occ_app_r, occ_app_r.
    + exfalso.
      pose proof (occ_nth_inv _ _ _ (length P - i) Ho ltac:(lia)) as E.
      replace (i + (length P - i)) with (length P + 0) in E by lia.
      rewrite nth_error_app2, Nat.add_comm, Nat.add_sub, HQ in E by lia.
      pose proof (nth_error_forallb _ _ _ _ Hn E) as Hc.
      unfold is_not in Hc. now rewrite Ascii.eqb_refl in Hc.
Qed.

Lemma includes_app_l (needle s X : str) :
  includes needle s = true -> includes needle (s ++ X) = true.
Proof.
  rewrite !includes_true. intros (pre & post & ->).
  exists pre, (post ++ X). now rewrite <- !app_assoc.
Qed.

(** What [addContainer], [addCategory] and [addLinkToCategory] insert,
    they insert before a [<] or at the end: a text without [<] that the
    content has, the new content has too. *)
Lemma perform_keeps_text (op : operation) (this this' : WikiContentManager)
    (needle : str) :
  perform op this = (Returned tt, this') ->
  forallb (is_not "<"%char) needle = true ->
  includes needle (content this) = true ->
  includes needle (content this') = true.
Proof.
  intros Hop Hn Hinc. destruct op as [k n c|category|tabInfo k];
    cbn [perform] in Hop.
  - rewrite addContainer_eq in Hop.
    destruct (Analyzer.containerExists (analyzer this) k); [discriminate|].
    cbv zeta in Hop. apply (f_equal snd) in Hop. cbn [snd] in Hop.
    subst this'. cbn [content]. now apply includes_app_l.
  - apply addCategory_returns in Hop as (_ & _ & p & lead & Hp & ->).
    unfold newManager. cbn [content].
    destruct (indexOf_split _ _ _ Hp) as (post & _ & Hsk & _).
    apply (includes_insert _ _ _ _ "<"%char); auto.
    + now rewrite Hsk.
    + now rewrite firstn_skipn.
  - apply addLinkToCategory_returns in Hop as (c & p & _ & Hp & ->).
    cbn [content].
    destruct (indexOf_split _ _ _ Hp) as (post & _ & Hsk & _).
    apply (includes_insert _ _ _ _ "<"%char); auto.
    + now rewrite Hsk.
    + now rewrite firstn_skipn.
Qed.

(** X7.  No operation of the content manager that adds something removes a
    category or a container: when [addContainer], [addCategory] or
    [addLinkToCategory] has returned, every key without [<] that
    [categoryExists] or [containerExists] found in the content before is
    found in the content after. *)
Theorem add_operations_keep_what_exists
    (op : operation) (this this' : WikiContentManager) (k : str) :
  perform op this = (Returned tt, this') ->
  forallb (is_not "<"%char) k = true ->
  (Analyzer.categoryExists (mkAnalyzer (content this)) k = true ->
   Analyzer.categoryExists (mkAnalyzer (content this')) k = true)
  /\ (Analyzer.containerExists (mkAnalyzer (content this)) k = true ->
      Analyzer.containerExists (mkAnalyzer (content this')) k = true).
Proof.
  intros Hop Hk.
  unfold Analyzer.categoryExists, Analyzer.containerExists. cbn [a_content].
  split; apply (perform_keeps_text op this this' _ Hop);
    unfold Analyzer.sectionId, Analyzer.containerId;
    rewrite !forallb_app, Hk; reflexivity.
Qed.

Lemma add_operations_keep_what_exists_witness :
  let this' := snd (Manager.addCategory devToolsCategory
                      (newManager devDocumentStart)) in
  (Analyzer.categoryExists (mkAnalyzer devDocumentStart) (lit "dev") = true ->
   Analyzer.categoryExists (mkAnalyzer (content this')) (lit "dev") = true)
  /\ (Analyzer.containerExists (mkAnalyzer devDocumentStart) (lit "dev") = true ->
      Analyzer.containerExists (mkAnalyzer (content this')) (lit "dev") = true).
Proof.
  apply (add_operations_keep_what_exists (AddCategory devToolsCategory)
           (newManager devDocumentStart)); vm_compute; reflexivity.
Defined.

(** ** reset-functions.js against popup.js *)

Lemma ResetFunctions_categories (a : WikiStructureAnalyzer) :
  map (fun c => (ResetFunctions.key c, ResetFunctions.name c,
                 ResetFunctions.description c, ResetFunctions.layout c,
                 ResetFunctions.accent c))
      (ResetFunctions.extractCategories a)
  = map (fun c => (key c, name c, description c, layout c, accent c))
        (Analyzer.extractCategories a).
Proof.
  unfold ResetFunctions.extractCategories, Analyzer.extractCategories.
  rewrite !map_map. apply map_ext. intros m. reflexivity.
Qed.

Lemma ResetFunctions_removeLinksOf (m : rx_match) (a : WikiStructureAnalyzer)
    (this : WikiContentManager) :
  ResetFunctions.removeLinksOf (ResetFunctions.categoryOfMatch a m) this
  = Manager.removeLinksOf (Analyzer.categoryOfMatch a m) this.
Proof.
  unfold ResetFunctions.removeLinksOf, Manager.removeLinksOf, bind, getThis.
  cbv zeta.
  unfold ResetFunctions.categoryOfMatch, Analyzer.categoryOfMatch.
  cbn [ResetFunctions.key ResetFunctions.layout key layout].
  destruct (indexOf _ (content this)); [|reflexivity].
  unfold Manager.linkContainerOpen.
  destruct (Analyzer.layoutOfClass (group 1 m)); reflexivity.
Qed.

Lemma ResetFunctions_forEach (ms : list rx_match) (a : WikiStructureAnalyzer)
    (this : WikiContentManager) :
  forEach (map (ResetFunctions.categoryOfMatch a) ms)
    ResetFunctions.removeLinksOf this
  = forEach (map (Analyzer.categoryOfMatch a) ms) Manager.removeLinksOf this.
Proof.
  revert this. induction ms as [|m ms IH]; intros this; [reflexivity|].
  cbn [map forEach]. unfold bind.
  rewrite ResetFunctions_removeLinksOf.
  destruct (Manager.removeLinksOf (Analyzer.categoryOfMatch a m) this)
    as [[[]|e] this1]; [apply IH|reflexivity].
Qed.

(** X8.  The analyzer of reset-functions.js reports the categories that the
    analyzer of popup.js reports, field by field without the container key
    and the column; and [removeAllLinks] of reset-functions.js does to every
    manager what [removeAllLinks] of popup.js does. *)
Theorem ResetFunctions_agree (this : WikiContentManager) :
  map (fun c => (ResetFunctions.key c, ResetFunctions.name c,
                 ResetFunctions.description c, ResetFunctions.layout c,
                 ResetFunctions.accent c))
      (ResetFunctions.extractCategories (analyzer this))
  = map (fun c => (key c, name c, description c, layout c, accent c))
        (Analyzer.extractCategories (analyzer this))
  /\ ResetFunctions.removeAllLinks this = Manager.removeAllLinks this.
Proof.
  split; [apply ResetFunctions_categories|].
  unfold ResetFunctions.removeAllLinks, Manager.removeAllLinks.
  unfold bind at 1 3. unfold getThis at 1 3. cbv zeta.
  unfold bind at 1 3.
  unfold ResetFunctions.extractCategories, Analyzer.extractCategories.
  now rewrite ResetFunctions_forEach.
Qed.

(** ** The keys made from names *)

Lemma replace_all_class (P : ascii -> bool) (r : regex) (by_ s : str) :
  forallb P by_ = true -> forallb P s = true ->
  forall skip, forallb P (replace_all r by_ skip s) = true.
Proof.
  intros Hby. induction s as [|c s IH]; intros Hs skip; [reflexivity|].
  cbn [forallb] in Hs. apply andb_true_iff in Hs as [Hc Hs].
  cbn [replace_all]. destruct skip as [|n]; [|now apply IH].
  destruct (match_here false r (c :: s)) as [[n caps]|].
  - rewrite forallb_app, Hby. now apply IH.
  - cbn [forallb]. rewrite Hc. now apply IH.
Qed.

Lemma replace_all_nonempty (r : regex) (by_ s : str) :
  by_ <> [] -> s <> [] -> replace_all r by_ 0 s <> [].
Proof.
  intros Hby Hs. destruct s as [|c s]; [contradiction|].
  cbn [replace_all]. destruct (match_here false r (c :: s)) as [[n caps]|].
  - destruct by_; [contradiction|discriminate].
  - discriminate.
Qed.

Lemma replace_all_skip (r : regex) (by_ s : str) (skip : nat) :
  replace_all r by_ skip s = replace_all r by_ 0 (skipn skip s).
Proof.
  revert skip. induction s as [|c s IH]; intros [|n]; try reflexivity.
  cbn [replace_all skipn]. apply IH.
Qed.

(** The length of the run of class characters at the head. *)
Lemma class_run (cls : ascii -> bool) (s : str) :
  exists w t, s = w ++ t /\ forallb cls w = true /\ run_ends cls t.
Proof.
  induction s as [|c s (w & t & -> & Hw & Ht)].
  - now exists [], [].
  - destruct (cls c) eqn:E.
    + exists (c :: w), t. cbn [forallb]. now rewrite E.
    + exists [], (c :: w ++ t). cbn. now rewrite E.
Qed.

Lemma rep_greedy_short {A : Type} (cls : ascii -> bool) (w t : str)
    (min : nat) (caps : captures) (k : cont A) :
  forallb cls w = true -> run_ends cls t -> length w < min ->
  rep_greedy cls min (w ++ t) caps k = None.
Proof.
  revert min. induction w as [|c w IH]; intros min Hw Ht Hlt.
  - destruct min as [|m]; [cbn in Hlt; lia|].
    destruct t as [|c t]; [reflexivity|].
    cbn in Ht. cbn. now rewrite Ht.
  - cbn [forallb] in Hw. apply andb_true_iff in Hw as [Hc Hw].
    destruct min as [|m]; [cbn in Hlt; lia|].
    cbn [app rep_greedy]. rewrite Hc. cbn [Nat.pred].
    rewrite IH; auto. cbn [length] in Hlt. lia.
Qed.

(** [cls{min,}] at the head of a text: the whole run, when it is long
    enough. *)
Lemma match_here_run (cls : ascii -> bool) (min : nat) (w t : str) :
  forallb cls w = true -> run_ends cls t ->
  match_here false (RClass true min cls) (w ++ t)
  = if min <=? length w then Some (length w, []) else None.
Proof.
  intros Hw Ht. unfold match_here, rmatch.
  destruct (Nat.leb_spec min (length w)) as [Hle|Hlt].
  - apply rep_greedy_full; auto.
    f_equal. f_equal. rewrite length_app. lia.
  - now apply rep_greedy_short.
Qed.

(** A text is a run of class characters before a text that does not begin
    with one, or a character that is not of the class before a text. *)
Lemma run_induction (cls : ascii -> bool) (P : str -> Prop) :
  P [] ->
  (forall c t, cls c = false -> P t -> P (c :: t)) ->
  (forall w t, w <> [] -> forallb cls w = true -> run_ends cls t ->
               P t -> P (w ++ t)) ->
  forall s, P s.
Proof.
  intros Hnil Hcons Hrun s.
  remember (length s) as n eqn:Hn. revert s Hn.
  induction n as [n IH] using lt_wf_ind. intros s Hn.
  destruct s as [|c s]; [exact Hnil|].
  destruct (cls c) eqn:Ec.
  - destruct (class_run cls (c :: s)) as (w & t & E & Hw & Ht).
    rewrite E. destruct w as [|x w].
    + cbn [app] in E. subst t. cbn in Ht. congruence.
    + apply Hrun; auto; [discriminate|].
      apply (IH (length t)); [|reflexivity].
      subst n. rewrite E, length_app. cbn [length]. lia.
  - apply Hcons; [exact Ec|].
    apply (IH (length s)); [|reflexivity]. subst n. cbn [length]. lia.
Qed.

Section Runs_replaced.
Variable cls : ascii -> bool.
Variable min : nat.
Variable by_ : str.
Hypothesis min_positive : 1 <= min.

Lemma replace_other (c : ascii) (t : str) :
  cls c = false ->
  replace_all (RClass true min cls) by_ 0 (c :: t)
  = c :: replace_all (RClass true min cls) by_ 0 t.
Proof.
  intros Hc. cbn [replace_all].
  pose proof (match_here_run cls min [] (c :: t) eq_refl Hc) as E.
  cbn [app length] in E. rewrite E.
  destruct (Nat.leb_spec min 0) as [H|H]; [lia|reflexivity].
Qed.

Lemma replace_short_run (w t : str) :
  forallb cls w = true -> run_ends cls t -> length w < min ->
  replace_all (RClass true min cls) by_ 0 (w ++ t)
  = w ++ replace_all (RClass true min cls) by_ 0 t.
Proof.
  induction w as [|c w IH]; intros Hw Ht Hl; [reflexivity|].
  cbn [app replace_all].
  change (c :: w ++ t) with ((c :: w) ++ t).
  rewrite (match_here_run cls min (c :: w) t Hw Ht).
  destruct (Nat.leb_spec min (length (c :: w))) as [H|H]; [lia|].
  cbn [forallb] in Hw. apply andb_true_iff in Hw as [_ Hw].
  rewrite IH; auto. cbn [length] in Hl. lia.
Qed.

Lemma replace_long_run (w t : str) :
  forallb cls w = true -> run_ends cls t -> min <= length w ->
  replace_all (RClass true min cls) by_ 0 (w ++ t)
  = by_ ++ replace_all (RClass true min cls) by_ 0 t.
Proof.
  intros Hw Ht Hl. destruct w as [|c w]; [cbn in Hl; lia|].
  cbn [app replace_all].
  change (c :: w ++ t) with ((c :: w) ++ t).
  rewrite (match_here_run cls min (c :: w) t Hw Ht).
  destruct (Nat.leb_spec min (length (c :: w))) as [H|H]; [|lia].
  cbn [length Nat.pred]. rewrite replace_all_skip.
  now rewrite skipn_app_exact.
Qed.

(** Where no run is long enough, nothing is replaced. *)
Lemma replace_nothing (s : str) :
  (forall w t u, s = u ++ w ++ t -> forallb cls w = true ->
                 length w < min) ->
  replace_all (RClass true min cls) by_ 0 s = s.
Proof.
  induction s as [|c s IH]; intros Hruns; [reflexivity|].
  cbn [replace_all].
  destruct (class_run cls (c :: s)) as (w & t & E & Hw & Ht).
  rewrite E at 1. rewrite (match_here_run cls min w t Hw Ht).
  pose proof (Hruns w t [] E Hw) as Hl.
  destruct (Nat.leb_spec min (length w)) as [H|H]; [lia|].
  f_equal. apply IH.
  intros w' t' u E'. apply (Hruns w' t' (c :: u)). now rewrite E'.
Qed.
End Runs_replaced.

Lemma no_adjacent_runs (cls : ascii -> bool) (s : str) :
  no_adjacent cls s = true ->
  forall w t u, s = u ++ w ++ t -> forallb cls w = true -> length w < 2.
Proof.
  intros Hs w t u. revert s Hs.
  induction u as [|x u IH]; intros s Hs E Hw.
  - destruct w as [|a [|b w]]; cbn [length]; try lia.
    subst s. cbn [app no_adjacent forallb] in *.
    apply andb_true_iff in Hw as [Ha Hw].
    apply andb_true_iff in Hw as [Hb _].
    rewrite Ha, Hb in Hs. discriminate.
  - subst s. cbn [app no_adjacent] in Hs.
    apply andb_true_iff in Hs as [_ Hs]. now apply (IH _ Hs).
Qed.

Lemma absent_runs (cls : ascii -> bool) (s : str) :
  forallb (fun c => negb (cls c)) s = true ->
  forall w t u, s = u ++ w ++ t -> forallb cls w = true -> length w < 1.
Proof.
  intros Hs w t u -> Hw. destruct w as [|a w]; [cbn; lia|].
  rewrite !forallb_app in Hs. cbn [forallb] in *.
  apply andb_true_iff in Hs as [_ Hs].
  apply andb_true_iff in Hs as [Hs _].
  apply andb_true_iff in Hs as [Ha _].
  apply andb_true_iff in Hw as [Ha' _]. rewrite Ha' in Ha. discriminate.
Qed.

(** After the runs (of one or more, or of two or more) are replaced by one
    character of the class, no two characters of the class are
    adjacent. *)
Lemma squeezed_no_adjacent (cls : ascii -> bool) (min : nat) (b : ascii)
    (s : str) :
  1 <= min <= 2 -> cls b = true ->
  no_adjacent cls (replace_all (RClass true min cls) [b] 0 s) = true
  /\ (run_ends cls s ->
      run_ends cls (replace_all (RClass true min cls) [b] 0 s)).
Proof.
  intros Hmin Hb. induction s as [|c t Hc [IH1 IH2]|w t Hne Hw Ht [IH1 IH2]]
    using (run_induction cls).
  - now split.
  - rewrite replace_other by (auto; lia). split.
    + cbn [no_adjacent]. rewrite Hc, IH1.
      now destruct (replace_all _ _ 0 t).
    + now intros _.
  - assert (Hhead : forall x, cls x = true ->
              no_adjacent cls (x :: replace_all (RClass true min cls) [b] 0 t)
              = true).
    { intros x Hx. cbn [no_adjacent]. rewrite IH1, andb_true_r.
      specialize (IH2 Ht).
      destruct (replace_all _ _ 0 t) as [|y o]; [reflexivity|].
      cbn in IH2. rewrite IH2. now rewrite andb_false_r. }
    split.
    + destruct (le_lt_dec min (length w)) as [Hl|Hl].
      * rewrite replace_long_run by (auto; lia). now apply Hhead.
      * rewrite replace_short_run by (auto; lia).
        destruct w as [|x [|y w]]; [contradiction| |cbn in Hl; lia].
        cbn [forallb] in Hw. apply andb_true_iff in Hw as [Hx _].
        now apply Hhead.
    + intros Hs. destruct w as [|x w]; [contradiction|].
      cbn [forallb] in Hw. apply andb_true_iff in Hw as [Hx _].
      cbn in Hs. congruence.
Qed.

Lemma key_char_facts (c : ascii) :
  is_key_char c = true ->
  lower_char c = c /\ is_space c = false /\ transliterate c = [c]
  /\ is_7bit c = true /\ is_syntax c = false.
Proof.
  destruct c as [b0 b1 b2 b3 b4 b5 b6 b7].
  destruct b0, b1, b2, b3, b4, b5, b6, b7; vm_compute;
    try discriminate; repeat split; reflexivity.
Qed.

Lemma map_fixed {A : Type} (f : A -> A) (l : list A) :
  (forall x, In x l -> f x = x) -> map f l = l.
Proof.
  induction l as [|x l IH]; intros H; [reflexivity|].
  cbn [map]. rewrite (H x (or_introl eq_refl)). f_equal.
  apply IH. intros y Hy. apply H. now right.
Qed.

Lemma flat_map_fixed {A : Type} (f : A -> list A) (l : list A) :
  (forall x, In x l -> f x = [x]) -> flat_map f l = l.
Proof.
  induction l as [|x l IH]; intros H; [reflexivity|].
  cbn [flat_map]. rewrite (H x (or_introl eq_refl)). cbn [app]. f_equal.
  apply IH. intros y Hy. apply H. now right.
Qed.

(** A text of key characters without two adjacent separators is its own
    category key. *)
Lemma categoryKeyOfName_of_key (k : str) :
  forallb is_key_char k = true -> no_adjacent is_separator k = true ->
  categoryKeyOfName k = k.
Proof.
  intros Hk Hadj. rewrite forallb_forall in Hk.
  unfold categoryKeyOfName, replaceRegex, toLowerCase, plus.
  rewrite (map_fixed lower_char) by (intros x Hx; apply key_char_facts; auto).
  rewrite (replace_nothing is_space 1 (lit "_") (le_n 1)).
  2: { apply absent_runs. apply forallb_forall. intros x Hx.
       destruct (key_char_facts x (Hk x Hx)) as (_ & -> & _). reflexivity. }
  rewrite flat_map_fixed by (intros x Hx; apply key_char_facts; auto).
  rewrite map_fixed by (intros x Hx; now rewrite (Hk x Hx)).
  apply replace_nothing; [lia|]. now apply no_adjacent_runs.
Qed.

Lemma transliterate_nonempty (c : ascii) : transliterate c <> [].
Proof.
  unfold transliterate.
  repeat match goal with
         | |- context [if ?b then _ else _] => destruct b
         end; discriminate.
Qed.

Lemma categoryKeyOfName_facts (name : str) :
  name <> [] ->
  categoryKeyOfName name <> []
  /\ forallb is_key_char (categoryKeyOfName name) = true
  /\ no_adjacent is_separator (categoryKeyOfName name) = true.
Proof.
  intros Hne. unfold categoryKeyOfName, replaceRegex. repeat split.
  - apply replace_all_nonempty; [discriminate|].
    assert (H1 : replace_all (plus is_space) (lit "_") 0 (toLowerCase name)
                 <> []).
    { apply replace_all_nonempty; [discriminate|].
      destruct name; [contradiction|discriminate]. }
    destruct (replace_all (plus is_space) (lit "_") 0 (toLowerCase name))
      as [|c s]; [contradiction|].
    cbn [flat_map map].
    pose proof (transliterate_nonempty c).
    destruct (transliterate c); [contradiction|discriminate].
  - apply replace_all_class; [reflexivity|].
    rewrite forallb_forall. intros x Hx.
    apply in_map_iff in Hx as (y & <- & _).
    destruct (is_key_char y) eqn:E; [exact E|reflexivity].
  - apply (squeezed_no_adjacent is_separator 2 "_"%char); [lia|reflexivity].
Qed.

(** X9.  The category key of a non-empty name of 7-bit characters is not empty,
    is made of lower-case letters, digits, [_] and [-], and has no two
    adjacent characters out of [_] and [-]. *)
Theorem categoryKeyOfName_shape (name : str) :
  forallb is_7bit name = true -> name <> [] ->
  categoryKeyOfName name <> []
  /\ forallb is_key_char (categoryKeyOfName name) = true
  /\ no_adjacent is_separator (categoryKeyOfName name) = true.
Proof. intros _. apply categoryKeyOfName_facts. Qed.

Lemma categoryKeyOfName_shape_witness :
  categoryKeyOfName (lit "Dev - Tools & Tips") <> []
  /\ forallb is_key_char (categoryKeyOfName (lit "Dev - Tools & Tips")) = true
  /\ no_adjacent is_separator (categoryKeyOfName (lit "Dev - Tools & Tips"))
     = true.
Proof.
  apply (categoryKeyOfName_shape (lit "Dev - Tools & Tips"));
    [vm_compute; reflexivity|discriminate].
Defined.

(** X10.  The category key of a category key is the key itself: deriving the key
    once more from the key of a name changes nothing; and a text of
    lower-case letters, digits, [_] and [-] without two adjacent characters
    out of [_] and [-] is its own category key. *)
Theorem categoryKeyOfName_idempotent (name : str) :
  forallb is_7bit name = true -> name <> [] ->
  categoryKeyOfName (categoryKeyOfName name) = categoryKeyOfName name
  /\ (forallb is_key_char name = true ->
      no_adjacent is_separator name = true ->
      categoryKeyOfName name = name).
Proof.
  intros _ Hne. split; [|apply categoryKeyOfName_of_key].
  destruct (categoryKeyOfName_facts name Hne) as (_ & Hk & Hadj).
  now apply categoryKeyOfName_of_key.
Qed.

Lemma categoryKeyOfName_idempotent_witness :
  categoryKeyOfName (categoryKeyOfName (lit "Dev - Tools & Tips"))
  = categoryKeyOfName (lit "Dev - Tools & Tips")
  /\ (forallb is_key_char (lit "Dev - Tools & Tips") = true ->
      no_adjacent is_separator (lit "Dev - Tools & Tips") = true ->
      categoryKeyOfName (lit "Dev - Tools & Tips")
      = lit "Dev - Tools & Tips").
Proof.
  apply (categoryKeyOfName_idempotent (lit "Dev - Tools & Tips"));
    [vm_compute; reflexivity|discriminate].
Defined.

(** ** The container key *)

Lemma collapse_other (c : ascii) (t : str) :
  Ascii.eqb c "_"%char = false ->
  collapse_underscores (c :: t) = c :: collapse_underscores t.
Proof. intros H. cbn [collapse_underscores]. now rewrite H. Qed.

Lemma collapse_run (w t : str) :
  w <> [] -> forallb (fun c => Ascii.eqb c "_"%char) w = true ->
  run_ends (fun c => Ascii.eqb c "_"%char) t ->
  collapse_underscores (w ++ t) = "_"%char :: collapse_underscores t.
Proof.
  induction w as [|a w IH]; intros Hne Hw Ht; [contradiction|].
  cbn [forallb] in Hw. apply andb_true_iff in Hw as [Ha Hw].
  cbn [app collapse_underscores]. rewrite Ha.
  apply Ascii.eqb_eq in Ha. subst a.
  destruct w as [|b w].
  - cbn [app]. destruct t as [|c t]; [reflexivity|].
    cbn in Ht. rewrite (collapse_other c t Ht). now rewrite Ht.
  - rewrite IH; [reflexivity|discriminate|exact Hw|exact Ht].
Qed.

(** [collapse_underscores] is the replacement of line 728:
    [replace(/_+/g, '_')]. *)
Lemma collapse_underscores_replace (s : str) :
  collapse_underscores s
  = replaceRegex (plus (fun c => Ascii.eqb c "_"%char)) (lit "_") s.
Proof.
  unfold replaceRegex, plus.
  induction s as [|c t Hc IH|w t Hne Hw Ht IH]
    using (run_induction (fun c => Ascii.eqb c "_"%char)).
  - reflexivity.
  - rewrite collapse_other by exact Hc.
    rewrite (replace_other (fun c => Ascii.eqb c "_"%char) 1 (lit "_")
               (le_n 1) c t Hc).
    now rewrite IH.
  - rewrite collapse_run by auto.
    rewrite (replace_long_run (fun c => Ascii.eqb c "_"%char) 1 (lit "_")
               (le_n 1) w t Hw Ht).
    + now rewrite IH.
    + destruct w; [contradiction|cbn; lia].
Qed.

Lemma containerKeyOfName_of_key (k : str) :
  forallb is_container_key_char k = true ->
  no_adjacent (fun c => Ascii.eqb c "_"%char) k = true ->
  containerKeyOfName k = k.
Proof.
  intros Hk Hadj. rewrite forallb_forall in Hk.
  assert (Hkey : forall x, In x k -> is_key_char x = true).
  { intros x Hx. specialize (Hk x Hx). unfold is_container_key_char in Hk.
    unfold is_key_char. now rewrite Hk. }
  unfold containerKeyOfName, toLowerCase.
  rewrite (map_fixed lower_char) by (intros x Hx; apply key_char_facts; auto).
  rewrite map_fixed.
  - clear Hk Hkey. induction k as [|a k IH]; [reflexivity|].
    cbn [no_adjacent] in Hadj. apply andb_true_iff in Hadj as [Ha Hadj].
    cbn [collapse_underscores]. rewrite (IH Hadj).
    destruct (Ascii.eqb a "_"%char); [|reflexivity].
    destruct k as [|b k]; [reflexivity|].
    cbn in Ha. apply negb_true_iff in Ha. now rewrite Ha.
  - intros x Hx. specialize (Hk x Hx). unfold is_container_key_char in Hk.
    apply orb_true_iff in Hk as [Hk|Hk].
    + now rewrite Hk.
    + apply Ascii.eqb_eq in Hk. now subst x.
Qed.

Lemma containerKeyOfName_facts (name : str) :
  name <> [] ->
  containerKeyOfName name <> []
  /\ forallb is_container_key_char (containerKeyOfName name) = true
  /\ no_adjacent (fun c => Ascii.eqb c "_"%char) (containerKeyOfName name)
     = true.
Proof.
  intros Hne. unfold containerKeyOfName.
  rewrite collapse_underscores_replace. unfold replaceRegex.
  repeat split.
  - apply replace_all_nonempty; [discriminate|].
    destruct name; [contradiction|discriminate].
  - apply replace_all_class; [reflexivity|].
    rewrite forallb_forall. intros x Hx.
    apply in_map_iff in Hx as (y & <- & _).
    unfold is_container_key_char.
    destruct (is_lower y || is_digit y) eqn:E; [now rewrite E|reflexivity].
  - apply (squeezed_no_adjacent (fun c => Ascii.eqb c "_"%char) 1 "_"%char);
      [lia|reflexivity].
Qed.

Lemma container_key_no_syntax (k : str) :
  forallb is_container_key_char k = true ->
  existsb is_syntax k = false /\ forallb (is_not dquote) k = true.
Proof.
  intros H. rewrite forallb_forall in H. split.
  - apply not_true_is_false. intros E.
    apply existsb_exists in E as (c & Hc & Hs). specialize (H c Hc).
    revert H Hs. destruct c as [b0 b1 b2 b3 b4 b5 b6 b7].
    destruct b0, b1, b2, b3, b4, b5, b6, b7; vm_compute; congruence.
  - apply forallb_forall. intros c Hc. specialize (H c Hc).
    revert H. destruct c as [b0 b1 b2 b3 b4 b5 b6 b7].
    destruct b0, b1, b2, b3, b4, b5, b6, b7; vm_compute; congruence.
Qed.

(** X11.  The container key of a non-empty name of 7-bit characters is not
    empty, is made of lower-case letters, digits and [_], has no two
    adjacent [_], holds no double quote and no pattern syntax, and is its
    own container key. *)
Theorem containerKeyOfName_shape (name : str) :
  forallb is_7bit name = true -> name <> [] ->
  containerKeyOfName name <> []
  /\ forallb is_container_key_char (containerKeyOfName name) = true
  /\ no_adjacent (fun c => Ascii.eqb c "_"%char) (containerKeyOfName name)
     = true
  /\ existsb is_syntax (containerKeyOfName name) = false
  /\ forallb (is_not dquote) (containerKeyOfName name) = true
  /\ containerKeyOfName (containerKeyOfName name) = containerKeyOfName name.
Proof.
  intros _ Hne.
  destruct (containerKeyOfName_facts name Hne) as (H1 & H2 & H3).
  destruct (container_key_no_syntax _ H2) as [H4 H5].
  repeat split; auto. now apply containerKeyOfName_of_key.
Qed.

Lemma containerKeyOfName_shape_witness :
  containerKeyOfName (lit "My  Links!") <> []
  /\ forallb is_container_key_char (containerKeyOfName (lit "My  Links!"))
     = true
  /\ no_adjacent (fun c => Ascii.eqb c "_"%char)
       (containerKeyOfName (lit "My  Links!")) = true
  /\ existsb is_syntax (containerKeyOfName (lit "My  Links!")) = false
  /\ forallb (is_not dquote) (containerKeyOfName (lit "My  Links!")) = true
  /\ containerKeyOfName (containerKeyOfName (lit "My  Links!"))
     = containerKeyOfName (lit "My  Links!").
Proof.
  apply (containerKeyOfName_shape (lit "My  Links!"));
    [vm_compute; reflexivity|discriminate].
Defined.

(** ** The tab that is linked *)

Lemma startsWith_strip (a b u : str) :
  startsWith (a ++ b) u
  = match strip false a u with
    | Some r => startsWith b r
    | None => false
    end.
Proof.
  revert u. induction a as [|x a IH]; intros u; [reflexivity|].
  destruct u as [|y u]; [reflexivity|].
  cbn [app startsWith strip char_eqb].
  rewrite (Ascii.eqb_sym x y).
  destruct (Ascii.eqb y x); [apply IH|reflexivity].
Qed.

Lemma startsWith_as_strip (l u : str) :
  startsWith l u = match strip false l u with Some _ => true | None => false end.
Proof.
  rewrite <- (app_nil_r l) at 1. rewrite startsWith_strip.
  now destruct (strip false l u).
Qed.

Lemma test_anchored_chars (l u : str) :
  test_anchored (RChars l) u = startsWith l u.
Proof.
  unfold test_anchored, match_here. cbn [rmatch].
  rewrite startsWith_as_strip. now destruct (strip false l u).
Qed.

Lemma test_anchored_chrome (u : str) :
  test_anchored chromeRegex u
  = startsWith (lit "chrome://") u
    || startsWith (lit "chrome-extension://") u.
Proof.
  change (lit "chrome://") with (lit "chrome" ++ lit "://").
  change (lit "chrome-extension://")
    with (lit "chrome" ++ lit "-extension" ++ lit "://").
  rewrite !startsWith_strip.
  unfold test_anchored, match_here, chromeRegex. cbn [rmatch].
  destruct (strip false (lit "chrome") u) as [r|]; [|reflexivity].
  rewrite startsWith_strip, (startsWith_as_strip (lit "://") r).
  destruct (strip false (lit "-extension") r) as [r'|].
  - rewrite (startsWith_as_strip (lit "://") r').
    destruct (strip false (lit "://") r').
    + now rewrite orb_true_r.
    + rewrite orb_false_r. now destruct (strip false (lit "://") r).
  - rewrite orb_false_r. now destruct (strip false (lit "://") r).
Qed.

(** X12.  [getActiveTabInfo] refuses a tab exactly when the tab or its URL is
    missing, the URL is empty, or the URL begins with [chrome://],
    [chrome-extension://] or [vivaldi://]; when it returns, the info holds
    the URL of the tab and its host name as they are, the title of the tab
    whenever that title is non-empty, the host name when the title is
    missing or empty (so that a non-empty host gives a non-empty title),
    and the favicon address of the host. *)
Theorem getActiveTabInfo_refuses
    (hostname : str -> option str) (tab : option Tab) :
  (getActiveTabInfo hostname tab = inl CannotBeLinked <->
   match tab with
   | None => True
   | Some t =>
       match tab_url t with
       | None => True
       | Some u =>
           u = []
           \/ startsWith (lit "chrome://") u = true
           \/ startsWith (lit "chrome-extension://") u = true
           \/ startsWith (lit "vivaldi://") u = true
       end
   end)
  /\ (forall info,
        getActiveTabInfo hostname tab = inr info ->
        exists t,
          tab = Some t /\ tab_url t = Some (url info)
          /\ hostname (url info) = Some (host info)
          /\ (forall s, tab_title t = Some s -> s <> [] -> title info = s)
          /\ (tab_title t = None \/ tab_title t = Some [] ->
              title info = host info)
          /\ (host info <> [] -> title info <> [])
          /\ iconUrl info
             = lit "https://www.google.com/s2/favicons?domain=" ++ host info
               ++ lit "&sz=32").
Proof.
  unfold getActiveTabInfo. split.
  - destruct tab as [[[[|c u]|] ti]|]; cbn [tab_url tab_title];
      try tauto.
    unfold vivaldiRegex. rewrite test_anchored_chrome, test_anchored_chars.
    destruct (startsWith (lit "chrome://") (c :: u));
      [cbn; tauto|].
    destruct (startsWith (lit "chrome-extension://") (c :: u));
      [cbn; tauto|].
    destruct (startsWith (lit "vivaldi://") (c :: u)); [cbn; tauto|].
    cbn [orb]. destruct (hostname (c :: u)); split; try discriminate;
      intros [H|[H|[H|H]]]; discriminate.
  - intros info. destruct tab as [[[[|c u]|] ti]|]; cbn [tab_url tab_title];
      try discriminate.
    destruct (_ || _); [discriminate|].
    destruct (hostname (c :: u)) as [h|] eqn:Eh; [|discriminate].
    intros [= <-]. cbn [url host title iconUrl].
    eexists. split; [reflexivity|]. cbn [tab_url tab_title].
    split; [reflexivity|]. split; [exact Eh|].
    split; [|split; [|split; [|reflexivity]]].
    + intros s [= ->] Hs. destruct s; [contradiction|reflexivity].
    + intros [->| ->]; reflexivity.
    + intros Hh. destruct ti as [[|x t]|]; auto. discriminate.
Qed.

(** ** Links added and removed *)

(** [strip_links] on a document whose marker and wrapper tag are
    located. *)
Lemma strip_links_at (c : Category) (s A B post : str) (p : nat) :
  index_at (Manager.linksEndMarker (key c)) s p
    (A ++ Manager.linkContainerOpen (layout c) ++ B) post ->
  indexOf (Manager.linkContainerOpen (layout c))
    (tl (Manager.linkContainerOpen (layout c)) ++ B) = None ->
  strip_links c s
  = A ++ Manager.linkContainerOpen (layout c) ++ blank ++ post.
Proof.
  intros Hat Hlater.
  set (W := Manager.linkContainerOpen (layout c)) in *.
  assert (HW : W <> []) by apply wrapper_nonempty.
  unfold strip_links. fold W.
  rewrite (proj1 Hat), substring_0, (index_at_firstn _ _ _ _ _ Hat).
  assert (Hlast : lastIndexOf W (A ++ W ++ B) = Some (length A)).
  { apply lastIndexOf_intro; [exact HW|apply occ_here|].
    intros j Hj Ho. apply occ_in_suffix in Ho; [|lia].
    destruct W as [|x W'] eqn:EW; [contradiction|].
    cbn [tl app] in *.
    destruct (j - length A) as [|i] eqn:Ei; [lia|].
    apply occ_cons in Ho. now apply (indexOf_no_occ _ _ Hlater) in Ho. }
  rewrite Hlast.
  destruct Hat as (_ & Hp & Hs).
  assert (Eclose : indexOfFrom [">"%char] s (length A)
                   = Some (length (A ++ W) - 1)).
  { unfold indexOfFrom. rewrite Hs, <- !app_assoc, skipn_app_exact.
    unfold W at 1. rewrite wrapper_close. cbn [option_map]. f_equal.
    rewrite length_app. fold W.
    destruct W; [contradiction|cbn [length]; lia]. }
  rewrite Eclose.
  replace (length (A ++ W) - 1 + 1) with (length (A ++ W))
    by (rewrite length_app; destruct W; [contradiction|cbn [length]; lia]).
  unfold substringFrom.
  rewrite substring_0.
  assert (E1 : firstn (length (A ++ W)) s = A ++ W).
  { rewrite Hs, <- !app_assoc, (app_assoc A W). apply firstn_app_exact. }
  assert (E2 : skipn p s = post).
  { rewrite Hs, Hp. apply skipn_app_exact. }
  rewrite E1, E2. now rewrite <- app_assoc.
Qed.

Section Links.
Variables (ckey : str) (columns : N) (category : Category)
          (tabInfo : TabInfo).
Hypothesis container_key_chars : forallb is_key_char ckey = true.
Hypothesis container_key_nonempty : 1 <= length ckey.
Hypothesis key_chars : forallb is_key_char (key category) = true.
Hypothesis key_nonempty : 1 <= length (key category).
Hypothesis accent_word : forallb is_word (accent category) = true.
Hypothesis accent_nonempty : 1 <= length (accent category).
Hypothesis in_container : containerKey category = ckey.
Hypothesis url_plain : forallb (is_not "<"%char) (url tabInfo) = true.
Hypothesis icon_plain : forallb (is_not "<"%char) (iconUrl tabInfo) = true.

Ltac walk :=
  repeat first
    [ apply index_at_cons; [ solve [starts_false] | ]
    | apply index_at_app; [ solve [misses_any] | ] ].

Ltac hit := apply index_at_here; solve [starts].

Ltac piece_facts :=
  pose proof (numToString_digits columns);
  pose proof (escaped_class (name category));
  pose proof (escaped_class (description category));
  pose proof (escaped_class (title tabInfo));
  pose proof (escaped_class (host tabInfo));
  pose proof (encodeURIComponent_class (url tabInfo));
  pose proof container_key_chars;
  pose proof key_chars;
  pose proof accent_word;
  pose proof url_plain;
  pose proof icon_plain.

(** In the composed document the end-of-links marker of the category
    first occurs after the link. *)
Lemma linksEndMarker_after_link :
  exists p,
    index_at (Manager.linksEndMarker (key category))
      (composedText ckey columns category tabInfo) p
      (containerHead ckey columns ++ categoryHead category (layout category)
       ++ HTML_TEMPLATES.link tabInfo (layout category) ++ blank)
      (categoryTail category ++ lit "
  " ++ containerTail ckey).
Proof.
  piece_facts.
  unfold composedText, Manager.linksEndMarker, containerHead, categoryHead,
    categoryTail, containerTail, HTML_TEMPLATES.link, blank.
  rewrite !escapeHtml_escaped.
  destruct (layout category);
    unfold HTML_TEMPLATES.layoutClass, HTML_TEMPLATES.contentClass;
    norm_str; eexists.
  all: walk.
  all: (apply index_at_cons;
        [ starts_false;
          apply (startsWith_piece_text is_upper_key_char
                   (toUpperCase (key category)) _ ["C"%char] "o"%char _);
          [ class_fact | reflexivity | repeat constructor; starts_false ]
        | ]).
  all: walk.
  all: (apply index_at_cons;
        [ starts_false;
          eapply (startsWith_upto_eq " "%char
                    (toUpperCase (key category) ++ lit "_LINKS_END")
                    (lit "CONTAINER_" ++ toUpperCase ckey
                     ++ lit "_CONTENT_START"));
          [ rewrite <- ?app_assoc; reflexivity
          | rewrite <- ?app_assoc; reflexivity
          | rewrite forallb_app; apply andb_true_iff; split;
            [ class_fact | reflexivity ]
          | rewrite !forallb_app, !andb_true_iff; repeat split;
            try reflexivity; class_fact
          | intros Heq;
            apply (app_last_neq (toUpperCase (key category))
                     (lit "CONTAINER_" ++ toUpperCase ckey)
                     (lit "_LINKS_EN") (lit "_CONTENT_STAR")
                     "D"%char "T"%char);
            [ discriminate | rewrite <- !app_assoc in *; exact Heq ] ]
        | ]).
  all: walk.
  all: hit.
Qed.

Lemma categoryHead_wrapper :
  exists A0,
    categoryHead category (layout category)
    = A0 ++ Manager.linkContainerOpen (layout category) ++ blank.
Proof.
  exists (lit "  <section class=`"
          ++ HTML_TEMPLATES.layoutClass (layout category) ++ lit " accent-"
          ++ accent category ++ lit "` id=`" ++ key category
          ++ lit "-section`>
    <header class=`" ++ HTML_TEMPLATES.layoutClass (layout category)
          ++ lit "__header`>
      <div class=`" ++ HTML_TEMPLATES.layoutClass (layout category)
          ++ lit "__title`>" ++ escaped (name category) ++ lit "</div>
      <div class=`" ++ HTML_TEMPLATES.layoutClass (layout category)
          ++ lit "__meta`>" ++ escaped (description category)
          ++ lit "</div>
    </header>
    ").
  unfold categoryHead, blank.
  destruct (layout category);
    unfold HTML_TEMPLATES.layoutClass, HTML_TEMPLATES.contentClass,
      Manager.linkContainerOpen;
    norm_str; reflexivity.
Qed.

(** No wrapper tag of the layout begins inside the wrapper tag, the link
    or the white space around the link. *)
Lemma no_wrapper_in_link :
  indexOf (Manager.linkContainerOpen (layout category))
    (tl (Manager.linkContainerOpen (layout category))
     ++ blank ++ (HTML_TEMPLATES.link tabInfo (layout category) ++ blank))
  = None.
Proof.
  piece_facts. unfold HTML_TEMPLATES.link, blank.
  rewrite !escapeHtml_escaped.
  destruct (layout category); unfold Manager.linkContainerOpen;
    norm_str; cbn [tl app]; find_none.
Qed.

(** The analyzer finds in the composed document the one category, with
    its key and its layout. *)
Lemma composed_keys :
  exists c,
    Analyzer.extractCategories
      (mkAnalyzer (composedText ckey columns category tabInfo)) = [c]
    /\ key c = key category /\ layout c = layout category.
Proof.
  destruct (sections_of_document3 ckey columns category tabInfo)
    as (m & Em & Ec); auto.
  unfold Analyzer.extractCategories. cbn [a_content]. rewrite Em.
  cbn [map]. eexists. split; [reflexivity|].
  unfold Analyzer.categoryOfMatch, group. rewrite Ec.
  cbn [capture Nat.eqb key layout].
  split; [reflexivity|]. apply layoutOfClass_layoutClass.
Qed.

(** [removeAllLinks] takes the link out of the composed document. *)
Lemma clean_composedText :
  clean (composedText ckey columns category tabInfo)
  = containerHead ckey columns ++ categoryHead category (layout category)
    ++ categoryTail category ++ lit "
  " ++ containerTail ckey.
Proof.
  rewrite clean_fold.
  destruct composed_keys as (c & -> & Hk & Hl). cbn [fold_left].
  rewrite (strip_links_ext c category _ Hk Hl).
  destruct linksEndMarker_after_link as (p & Hat).
  destruct categoryHead_wrapper as (A0 & EA).
  rewrite EA in Hat. rewrite EA.
  assert (Hat' : index_at (Manager.linksEndMarker (key category))
                   (composedText ckey columns category tabInfo) p
                   ((containerHead ckey columns ++ A0)
                    ++ Manager.linkContainerOpen (layout category)
                    ++ blank
                    ++ (HTML_TEMPLATES.link tabInfo (layout category)
                        ++ blank))
                   (categoryTail category ++ lit "
  " ++ containerTail ckey)).
  { rewrite <- !app_assoc in Hat. rewrite <- !app_assoc. exact Hat. }
  rewrite (strip_links_at category _ _ _ _ p Hat' no_wrapper_in_link).
  rewrite <- !app_assoc. reflexivity.
Qed.

(** A second link goes between the first link and the marker. *)
Lemma second_link (tabInfo2 : TabInfo) :
  Manager.addLinkToCategory tabInfo2 (key category)
    (newManager (composedText ckey columns category tabInfo))
  = (Returned tt,
     mkManager
       ((containerHead ckey columns ++ categoryHead category (layout category))
        ++ (HTML_TEMPLATES.link tabInfo (layout category) ++ blank)
        ++ (HTML_TEMPLATES.link tabInfo2 (layout category) ++ blank)
        ++ categoryTail category ++ lit "
  " ++ containerTail ckey)
       (mkAnalyzer (composedText ckey columns category tabInfo))).
Proof.
  destruct composed_keys as (c & Ec & Hk & Hl).
  destruct linksEndMarker_after_link as (p & Hat).
  assert (Hex : Analyzer.categoryExists
                  (mkAnalyzer (composedText ckey columns category tabInfo))
                  (key category) = true).
  { rewrite <- Hk. apply extractCategories_key. rewrite Ec. now left. }
  unfold Manager.addLinkToCategory, bind, getThis, when, throw, ret,
    setContent, newManager.
  cbn [analyzer content]. rewrite Hex. cbn [negb]. cbv zeta.
  rewrite Ec. unfold Manager.findCategory. cbn [find].
  rewrite Hk, str_eqb_refl, Hl, (proj1 Hat).
  unfold slice0, substringFrom.
  rewrite (index_at_firstn _ _ _ _ _ Hat), (index_at_skipn _ _ _ _ _ Hat).
  unfold blank. rewrite <- !app_assoc. reflexivity.
Qed.
End Links.

(** X13.  The link round trip.  A container, a category in it and a link in the
    category are added to the empty document; the keys are made of key
    characters, the accent of word characters, and the URLs of the link
    have no less-than sign.  Then [removeAllLinks], on a new manager for
    the document, gives back the document as it was before the link was
    added. *)
Theorem link_added_then_removed
    (ckey containerName : str) (columns : N) (category : Category)
    (tabInfo : TabInfo) :
  forallb is_key_char ckey = true -> 1 <= length ckey ->
  forallb is_key_char (key category) = true -> 1 <= length (key category) ->
  forallb is_word (accent category) = true ->
  1 <= length (accent category) ->
  containerKey category = ckey ->
  forallb (is_not "<"%char) (url tabInfo) = true ->
  forallb (is_not "<"%char) (iconUrl tabInfo) = true ->
  Manager.getContent
    (snd (Manager.removeAllLinks
            (newManager
               (composeDocument ckey containerName columns category
                  tabInfo))))
  = content (snd (bind (Manager.addContainer ckey containerName columns)
                    (fun _ => Manager.addCategory category)
                    (newManager []))).
Proof.
  intros Hck Hlck Hk Hlk Ha Hla Hin Hu Hi.
  rewrite composeDocument_text by assumption.
  change (Manager.getContent (snd (Manager.removeAllLinks (newManager ?d))))
    with (clean d).
  rewrite clean_composedText by assumption.
  unfold bind at 1. rewrite addContainer_eq.
  replace (Analyzer.containerExists (analyzer (newManager [])) ckey)
    with false by reflexivity.
  cbv zeta.
  replace (content (newManager []) ++ separator (content (newManager []))
           ++ HTML_TEMPLATES.container ckey columns)
    with (containerHead ckey columns ++ containerTail ckey)
    by (rewrite <- container_cut; reflexivity).
  change (mkManager (containerHead ckey columns ++ containerTail ckey)
            (mkAnalyzer (containerHead ckey columns ++ containerTail ckey)))
    with (newManager (containerHead ckey columns ++ containerTail ckey)).
  rewrite (addCategory_composed ckey columns category tabInfo) by assumption.
  reflexivity.
Qed.

Lemma link_added_then_removed_witness :
  Manager.getContent
    (snd (Manager.removeAllLinks
            (newManager
               (composeDocument (lit "p") (lit "P") 2 sampleCategory
                  sampleTab))))
  = content (snd (bind (Manager.addContainer (lit "p") (lit "P") 2)
                    (fun _ => Manager.addCategory sampleCategory)
                    (newManager []))).
Proof.
  apply (link_added_then_removed (lit "p") (lit "P") 2 sampleCategory
           sampleTab); try reflexivity; vm_compute; lia.
Defined.

(** X14.  Links stay in the order they are added.  In the document composed of
    a container, a category and a link (the keys made of key characters,
    the accent of word characters, the URLs of the link without less-than
    sign), [addLinkToCategory] puts a second link after the first one and
    before the end-of-links marker, and changes nothing else. *)
Theorem links_keep_their_order
    (ckey containerName : str) (columns : N) (category : Category)
    (tabInfo tabInfo2 : TabInfo) :
  forallb is_key_char ckey = true -> 1 <= length ckey ->
  forallb is_key_char (key category) = true -> 1 <= length (key category) ->
  forallb is_word (accent category) = true ->
  1 <= length (accent category) ->
  containerKey category = ckey ->
  forallb (is_not "<"%char) (url tabInfo) = true ->
  forallb (is_not "<"%char) (iconUrl tabInfo) = true ->
  let document :=
    composeDocument ckey containerName columns category tabInfo in
  exists pre post,
    document
    = pre ++ (HTML_TEMPLATES.link tabInfo (layout category) ++ blank) ++ post
    /\ startsWith (Manager.linksEndMarker (key category)) post = true
    /\ Manager.addLinkToCategory tabInfo2 (key category) (newManager document)
       = (Returned tt,
          mkManager
            (pre ++ (HTML_TEMPLATES.link tabInfo (layout category) ++ blank)
             ++ (HTML_TEMPLATES.link tabInfo2 (layout category) ++ blank)
             ++ post)
            (mkAnalyzer document)).
Proof.
  intros Hck Hlck Hk Hlk Ha Hla Hin Hu Hi document. subst document.
  rewrite composeDocument_text by assumption.
  exists (containerHead ckey columns
          ++ categoryHead category (layout category)),
         (categoryTail category ++ lit "
  " ++ containerTail ckey).
  split; [|split].
  - unfold composedText, blank. rewrite <- !app_assoc. reflexivity.
  - unfold categoryTail, Manager.linksEndMarker. norm_str. starts.
  - now apply second_link.
Qed.

Lemma links_keep_their_order_witness :
  let document :=
    composeDocument (lit "p") (lit "P") 2 sampleCategory sampleTab in
  exists pre post,
    document
    = pre ++ (HTML_TEMPLATES.link sampleTab Cards ++ blank) ++ post
    /\ startsWith (Manager.linksEndMarker (lit "c1")) post = true
    /\ Manager.addLinkToCategory sampleTab (lit "c1") (newManager document)
       = (Returned tt,
          mkManager
            (pre ++ (HTML_TEMPLATES.link sampleTab Cards ++ blank)
             ++ (HTML_TEMPLATES.link sampleTab Cards ++ blank)
             ++ post)
            (mkAnalyzer document)).
Proof.
  apply (links_keep_their_order (lit "p") (lit "P") 2 sampleCategory
           sampleTab sampleTab); try reflexivity; vm_compute; lia.
Defined.

(** ** The container of a category *)

Lemma containerStartRegex_match (K rest : str) :
  forallb (is_not "_"%char) K = true -> 1 <= length K ->
  match_here false Analyzer.containerStartRegex
    (lit "<!-- CONTAINER_" ++ K ++ lit "_CONTENT_START -->" ++ rest)
  = Some (length (lit "<!-- CONTAINER_" ++ K ++ lit "_CONTENT_START -->"),
          [(1, K)]).
Proof.
  intros HK Hl. unfold match_here, Analyzer.containerStartRegex.
  cbn [rmatch plus star]. rewrite strip_app. cbv beta iota.
  apply rep_greedy_full; [assumption | reflexivity | assumption |].
  cbv beta. rewrite strip_app. cbv beta iota.
  rewrite !firstn_consumed. f_equal. f_equal. lengths.
Qed.

Section Owner.
Variables (ckey : str) (columns : N) (category : Category)
          (tabInfo : TabInfo).
Hypothesis container_key_chars : forallb is_key_char ckey = true.
Hypothesis container_key_nonempty : 1 <= length ckey.
Hypothesis container_key_plain : forallb (is_not "_"%char) ckey = true.
Hypothesis key_chars : forallb is_key_char (key category) = true.
Hypothesis key_nonempty : 1 <= length (key category).
Hypothesis accent_word : forallb is_word (accent category) = true.
Hypothesis accent_nonempty : 1 <= length (accent category).
Hypothesis url_plain : forallb (is_not "<"%char) (url tabInfo) = true.
Hypothesis icon_plain : forallb (is_not "<"%char) (iconUrl tabInfo) = true.

Ltac walk :=
  repeat first
    [ apply index_at_cons; [ solve [starts_false] | ]
    | apply index_at_app; [ solve [misses_any] | ] ].

Ltac hit := apply index_at_here; solve [starts].

Ltac side := first [ assumption | reflexivity | vm_compute; lia ].

Ltac skip_match :=
  rewrite ?length_app; cbn [length Nat.pred];
  repeat (rewrite length_app; cbn [length]);
  repeat first [ apply exec_all_skip_cons | apply exec_all_skip_app ].

Ltac piece_facts :=
  pose proof (numToString_digits columns);
  pose proof container_key_chars;
  pose proof key_chars;
  pose proof accent_word.

Let beforeToken : str :=
  containerHead ckey columns
  ++ lit "  <section class=`" ++ HTML_TEMPLATES.layoutClass (layout category)
  ++ lit " accent-" ++ accent category ++ lit "` ".

(** The section token of the category first occurs in its section tag. *)
Lemma sectionId_before :
  exists p post,
    index_at (Analyzer.sectionId (key category))
      (composedText ckey columns category tabInfo) p beforeToken post.
Proof.
  piece_facts.
  assert (Hq1 : forallb (is_not dquote) ckey = true) by class_fact.
  assert (Hq2 : forallb (is_not dquote) (key category) = true) by class_fact.
  subst beforeToken.
  unfold composedText, categoryHead, Analyzer.sectionId, containerHead.
  destruct (layout category);
    unfold HTML_TEMPLATES.layoutClass; norm_str; eexists; eexists.
  all: walk.
  all: (apply index_at_cons;
        [ starts_false;
          apply (startsWith_key_tail (key category) ckey
                   (lit "-section") (lit "-container"));
          auto; apply (app_last_neq _ _ (lit "-sectio") (lit "-containe"));
          discriminate
        | ]).
  all: walk.
  all: hit.
Qed.

Lemma upper_key_plain :
  forallb (is_not "_"%char) (toUpperCase ckey) = true.
Proof.
  clear - container_key_plain.
  induction ckey as [|c k IH]; [reflexivity|].
  cbn [forallb] in container_key_plain.
  apply andb_true_iff in container_key_plain as [Hc Hk].
  cbn [toUpperCase map forallb]. fold (toUpperCase k).
  rewrite (IH Hk), andb_true_r.
  revert Hc. destruct c as [b0 b1 b2 b3 b4 b5 b6 b7].
  destruct b0, b1, b2, b3, b4, b5, b6, b7; vm_compute; congruence.
Qed.

(** The start marker of the container is the one match of its pattern
    before the section token. *)
Lemma owner_match :
  exists m,
    matchAll Analyzer.containerStartRegex beforeToken = [m]
    /\ m_caps m = [(1, toUpperCase ckey)].
Proof.
  piece_facts. pose proof upper_key_plain as Hup.
  assert (Hlen : 1 <= length (toUpperCase ckey)).
  { unfold toUpperCase. now rewrite length_map. }
  unfold matchAll. subst beforeToken. unfold containerHead.
  destruct (layout category);
    unfold HTML_TEMPLATES.layoutClass; norm_str; eexists; (split; [scan|]).
  1, 3, 5: (eapply exec_all_hit;
            [ apply (containerStartRegex_match (toUpperCase ckey)); side
            | norm_str; skip_match; scan ]).
  all: reflexivity.
Qed.

(** [findContainerForCategory] attributes the category to the
    container. *)
Lemma owner_found :
  Analyzer.findContainerForCategory
    (mkAnalyzer (composedText ckey columns category tabInfo)) (key category)
  = Some ckey.
Proof.
  unfold Analyzer.findContainerForCategory. cbn [a_content].
  destruct sectionId_before as (p & post & Hat).
  rewrite (proj1 Hat). cbv zeta.
  rewrite substring_0, (index_at_firstn _ _ _ _ _ Hat).
  destruct owner_match as (m & -> & Ec). cbn [rev app].
  unfold group. rewrite Ec. cbn [capture Nat.eqb].
  now rewrite key_lower_upper.
Qed.

Lemma owner_of_category :
  map containerKey
    (Analyzer.extractCategories
       (mkAnalyzer (composedText ckey columns category tabInfo)))
  = [ckey].
Proof.
  destruct (sections_of_document3 ckey columns category tabInfo)
    as (m & Em & Ec); auto.
  unfold Analyzer.extractCategories. cbn [a_content]. rewrite Em.
  cbn [map]. unfold Analyzer.categoryOfMatch, group. rewrite Ec.
  cbn [capture Nat.eqb containerKey]. now rewrite owner_found.
Qed.
End Owner.

(** X15.  The container of a category is read back when its key has no
    underscore.  A container, a category in it and a link in the category
    are added to the empty document; the keys are made of key characters,
    the container key without underscore, the accent of word characters,
    the URLs of the link without less-than sign.  Then the category that
    [extractCategories] reports has the key of the container as its
    [containerKey]. *)
Theorem container_of_category_read_back
    (ckey containerName : str) (columns : N) (category : Category)
    (tabInfo : TabInfo) :
  forallb is_key_char ckey = true -> 1 <= length ckey ->
  forallb (is_not "_"%char) ckey = true ->
  forallb is_key_char (key category) = true -> 1 <= length (key category) ->
  forallb is_word (accent category) = true ->
  1 <= length (accent category) ->
  containerKey category = ckey ->
  forallb (is_not "<"%char) (url tabInfo) = true ->
  forallb (is_not "<"%char) (iconUrl tabInfo) = true ->
  map containerKey
    (Analyzer.extractCategories
       (mkAnalyzer
          (composeDocument ckey containerName columns category tabInfo)))
  = [containerKey category].
Proof.
  intros Hck Hlck Hpl Hk Hlk Ha Hla Hin Hu Hi.
  rewrite composeDocument_text by assumption.
  rewrite Hin. now apply owner_of_category.
Qed.

Lemma container_of_category_read_back_witness :
  map containerKey
    (Analyzer.extractCategories
       (mkAnalyzer
          (composeDocument (lit "p") (lit "P") 2 sampleCategory sampleTab)))
  = [containerKey sampleCategory].
Proof.
  apply (container_of_category_read_back (lit "p") (lit "P") 2
           sampleCategory sampleTab); try reflexivity; vm_compute; lia.
Defined.

(** ** The name of a container *)

Lemma char_eqb_ci_refl (c : ascii) : char_eqb true c c = true.
Proof. unfold char_eqb. apply Ascii.eqb_refl. Qed.

Lemma strip_ci_app (l s : str) : strip true l (l ++ s) = Some s.
Proof.
  induction l as [|a l IH]; [reflexivity|].
  cbn [app strip]. now rewrite char_eqb_ci_refl.
Qed.

Lemma match_here_ci_miss (l : str) (r : regex) (s : str) :
  strip true l s = None -> match_here true (RSeq (RChars l) r) s = None.
Proof. intros H. unfold match_here. cbn [rmatch]. now rewrite H. Qed.

Lemma exec_from_ci_cons_miss (l : str) (r : regex) (c : ascii) (s : str)
    (pos : nat) (M : option rx_match) :
  strip true l (c :: s) = None ->
  exec_from true (RSeq (RChars l) r) (S pos) s = M ->
  exec_from true (RSeq (RChars l) r) pos (c :: s) = M.
Proof.
  intros H HM. cbn [exec_from]. now rewrite (match_here_ci_miss _ _ _ H).
Qed.

(** A needle whose first character is, whatever the case, none of the
    characters of the piece [x] does not match inside [x]. *)
Lemma exec_from_ci_app_miss (P : ascii -> bool) (a : ascii) (l : str)
    (r : regex) (x s : str) (pos : nat) (M : option rx_match) :
  forallb P x = true ->
  forallb (fun c => implb (P c) (negb (char_eqb true a c))) all_ascii = true ->
  exec_from true (RSeq (RChars (a :: l)) r) (length x + pos) s = M ->
  exec_from true (RSeq (RChars (a :: l)) r) pos (x ++ s) = M.
Proof.
  intros Hx HP. revert pos. induction x as [|c x IH]; intros pos HM;
    [exact HM|].
  cbn [forallb] in Hx. apply andb_true_iff in Hx as [Hc Hx].
  cbn [app]. apply exec_from_ci_cons_miss.
  - cbn [strip]. pose proof (forall_ascii _ HP c) as Hi. cbn beta in Hi.
    rewrite Hc in Hi. cbn [implb] in Hi. apply negb_true_iff in Hi.
    now rewrite Hi.
  - apply IH; [exact Hx|]. rewrite <- HM. f_equal. cbn [length]. lia.
Qed.

Lemma exec_from_ci_hit (r : regex) (s : str) (pos n : nat)
    (caps : captures) :
  match_here true r s = Some (n, caps) ->
  exec_from true r pos s = Some (mkMatch pos n caps).
Proof. intros H. destruct s; cbn [exec_from]; now rewrite H. Qed.

(** The comment pattern on a comment that has the key only: the optional
    part, tried first, fails, and nothing is captured. *)
Lemma commentPattern_plain (k rest : str) :
  exists n,
    match_here true (Analyzer.commentPattern k)
      ((lit "<!-- Container: " ++ k) ++ lit " -->
" ++ rest)
    = Some (n, []).
Proof.
  unfold match_here, Analyzer.commentPattern. cbn [rmatch].
  rewrite strip_ci_app. cbv beta iota.
  eexists. vm_compute. reflexivity.
Qed.

Section Name.
Variables (ckey : str) (columns : N).
Hypothesis container_key_chars : forallb is_key_char ckey = true.
Hypothesis container_key_nonempty : 1 <= length ckey.

Ltac side := first [ assumption | reflexivity | vm_compute; lia ].

Ltac skip_match :=
  rewrite ?length_app; cbn [length Nat.pred];
  repeat (rewrite length_app; cbn [length]);
  repeat first [ apply exec_all_skip_cons | apply exec_all_skip_app ].

Ltac search_ci :=
  repeat first
    [ apply exec_from_ci_cons_miss; [ reflexivity | ]
    | eapply exec_from_ci_app_miss;
      [ eassumption | vm_compute; reflexivity | ] ].

(** The comment pattern finds the comment of the container block, and
    captures nothing. *)
Lemma container_comment :
  exists cm,
    exec true (Analyzer.commentPattern ckey)
      (containerHead ckey columns ++ containerTail ckey) = Some cm
    /\ m_caps cm = [].
Proof.
  pose proof (numToString_digits columns).
  pose proof container_key_chars.
  destruct (commentPattern_plain ckey
              (lit "  <!-- CONTAINER_" ++ toUpperCase ckey
               ++ lit "_CONTENT_START -->
  " ++ containerTail ckey)) as (n & Hn).
  revert Hn.
  unfold exec, Analyzer.commentPattern, containerHead, containerTail.
  norm_str. intros Hn.
  eexists.
  split; [search_ci; apply exec_from_ci_hit; exact Hn | reflexivity].
Qed.

(** The container pattern matches the tag of the container block, and
    nothing else in it. *)
Lemma container_tag :
  exists m,
    matchAll Analyzer.containerRegex
      (containerHead ckey columns ++ containerTail ckey) = [m]
    /\ m_caps m = [(2, ckey); (1, numToString columns)].
Proof.
  pose proof (numToString_digits columns).
  pose proof container_key_chars.
  pose proof (numToString_nonempty columns) as Hne.
  assert (Hln : 1 <= length (numToString columns)).
  { destruct (numToString columns); [contradiction | simpl; lia]. }
  assert (Hq1 : forallb (is_not dquote) ckey = true) by class_fact.
  unfold matchAll, containerHead, containerTail.
  norm_str; eexists; (split; [scan|]).
  - eapply exec_all_hit;
      [ apply (containerRegex_match (numToString columns) ckey); side
      | norm_str; skip_match; scan ].
  - reflexivity.
Qed.

Lemma container_read_back :
  Analyzer.extractContainers
    (mkAnalyzer (containerHead ckey columns ++ containerTail ckey))
  = Some [mkContainer ckey (Analyzer.capitalize ckey) (Some columns)].
Proof.
  destruct container_tag as (m & Em & Ec).
  destruct container_comment as (cm & Ecm & Ecaps).
  unfold Analyzer.extractContainers. cbn [a_content]. rewrite Em.
  cbn [map]. unfold Analyzer.containerOfMatch, group. rewrite Ec.
  cbn [capture Nat.eqb].
  rewrite (key_no_syntax _ container_key_chars), parseInt_numToString.
  rewrite Ecm, Ecaps. reflexivity.
Qed.
End Name.

(** X16.  The name given to [addContainer] is not stored.  After
    [addContainer(key, name, columns)] on the empty document, for a
    non-empty key of key characters and a column count that JavaScript
    represents exactly, [extractContainers] reports the one container with
    this key and column count, and with the capitalised key as its name,
    whatever the name was. *)
Theorem container_name_is_lost (ckey name : str) (columns : N) :
  forallb is_key_char ckey = true -> 1 <= length ckey ->
  (columns < 2 ^ 53)%N ->
  Analyzer.extractContainers
    (mkAnalyzer
       (content (snd (Manager.addContainer ckey name columns
                        (newManager [])))))
  = Some [mkContainer ckey (Analyzer.capitalize ckey) (Some columns)].
Proof.
  intros Hck Hlck _. rewrite addContainer_eq.
  replace (Analyzer.containerExists (analyzer (newManager [])) ckey)
    with false by reflexivity.
  cbv zeta. cbn [snd content].
  replace (content (newManager []) ++ separator (content (newManager []))
           ++ HTML_TEMPLATES.container ckey columns)
    with (containerHead ckey columns ++ containerTail ckey)
    by (rewrite <- container_cut; reflexivity).
  now apply container_read_back.
Qed.

Lemma container_name_is_lost_witness :
  Analyzer.extractContainers
    (mkAnalyzer
       (content (snd (Manager.addContainer (lit "links") (lit "My Links") 2
                        (newManager [])))))
  = Some [mkContainer (lit "links") (Analyzer.capitalize (lit "links"))
            (Some 2%N)].
Proof.
  apply (container_name_is_lost (lit "links") (lit "My Links") 2);
    try reflexivity; vm_compute; lia.
Defined.

(** ** Where a category is put *)






